(** * TorchDynamo frame conversion: a shallow embedding

    The development follows [torchdynamo/convert_frame.py],
    [torchdynamo/eval_frame.py] and [torchdynamo/config.py].

    Python objects are referred to by their identity ([id(obj)], a [nat]);
    dictionaries keyed by identity are [gmap nat _], sets of identities are
    [gset nat].  Code that raises returns a [res]; code that mutates the
    process-wide registries threads an explicit state. *)

From Stdlib Require Import ZArith String List Bool Lia.
From stdpp Require Import base option gmap sets list strings.

Local Open Scope string_scope.
Local Open Scope list_scope.

(* ===================================================================== *)
(** * Exceptions and results *)
(* ===================================================================== *)

(** The exception classes the frame converter distinguishes.
    [OtherException] stands for any other subclass of [Exception] (its
    class name is kept: [KeyError], [IndexError], [AttributeError],
    [RecursionError], ...), [BaseExceptionOnly] for a class that derives
    from [BaseException] but not from [Exception] ([KeyboardInterrupt],
    [SystemExit], [GeneratorExit]), which no [except Exception] clause
    catches.

    An [Unsupported] carries its [real_stack], the list of frame summaries
    of user code that the tracer appends to while the exception passes
    through it; it is the class whose instances have that attribute. *)
Inductive exn : Type :=
  | Unsupported (msg : string) (real_stack : list nat)
  | TorchRuntimeError
  | BackendCompilerFailed
  | AssertionError
  | InternalTorchDynamoError
  | RestartAnalysis
  | SkipFrame
  | RuntimeError (msg : string)
  | OtherException (cls : string)
  | BaseExceptionOnly (cls : string).

#[global] Instance exn_eq_dec : EqDecision exn.
Proof. solve_decision. Defined.

(** [isinstance(e, Exception)]: what an [except Exception] clause catches. *)
Definition is_exception (e : exn) : bool :=
  match e with
  | BaseExceptionOnly _ => false
  | _ => true
  end.

(** [exc.real_stack] when [hasattr(exc, "real_stack")]. *)
Definition real_stack_of (e : exn) : option (list nat) :=
  match e with
  | Unsupported _ real_stack => Some real_stack
  | _ => None
  end.

(** Outcome of a Python call: a value is returned or an exception raised. *)
Inductive res (A : Type) : Type :=
  | Ret (a : A)
  | Raise (e : exn).
Arguments Ret {A} a.
Arguments Raise {A} e.

(** Modelled from the spec: [exc.unimplemented] is defined in
    [torchdynamo/exc.py], which is not part of the sources at hand; the
    spec says that such rejections are [Unsupported].  The exception is
    new: no frame of user code has been recorded in its [real_stack]. *)
Definition unimplemented {A : Type} (msg : string) : res A :=
  Raise (Unsupported msg []).

(* ===================================================================== *)
(** * The object heap and the tensor scan *)
(* ===================================================================== *)

(** What [has_tensor] can observe of an object: its exact type and the
    identities of the objects it holds. *)
Inductive pyobj : Type :=
  | PTensor                                  (* isinstance(obj, torch.Tensor) *)
  | PModule                                  (* isinstance(obj, torch.nn.Module) *)
  | PList (items : list nat)                 (* istype(obj, list) *)
  | PTuple (items : list nat)                (* istype(obj, tuple) *)
  | PDict (values : list nat)                (* istype(obj, dict): obj.values() *)
  | PScalar                                  (* str, int, float, NoneType, bool *)
  | PNamedTuple (fields : list nat)          (* is_namedtuple(obj): its _fields *)
  | PReturnType
      (* a value of [torch.return_types]: [is_namedtuple] accepts it, yet it
         has no [_fields] *)
  | PInstance (dict_values : option (list nat)).
      (* any other object; [Some vs] when it has a [__dict__] with values [vs] *)

(** Python's [any] over an already built list of booleans. *)
Definition any (bs : list bool) : bool := existsb (fun b => b) bs.

Section HasTensor.

(** The heap maps an identity to the object living there.  An identity
    that the heap does not describe is an object none of the tests of
    [has_tensor] recognises. *)
Variable heap : gmap nat pyobj.

(** [allowed_functions.is_allowed], on the identity of its argument. *)
Variable is_allowed : nat -> bool.

(** [[f(v) for v in vs]]: the list comprehension calls [f] on every
    element, left to right, threading the memo table; an exception of a
    call ends it. *)
Fixpoint scan_all (f : nat -> gmap nat bool -> res bool * gmap nat bool)
    (vs : list nat) (seen_ids : gmap nat bool)
    : res (list bool) * gmap nat bool :=
  match vs with
  | [] => (Ret [], seen_ids)
  | v :: vs' =>
      match f v seen_ids with
      | (Raise e, seen1) => (Raise e, seen1)
      | (Ret b, seen1) =>
          match scan_all f vs' seen1 with
          | (Raise e, seen2) => (Raise e, seen2)
          | (Ret bs, seen2) => (Ret (b :: bs), seen2)
          end
      end
  end.

(** [has_tensor] of [has_tensor_in_frame].  [seen_ids] is the closure's
    dictionary.  [depth] is the number of nested calls of [has_tensor] that
    the interpreter still allows ([sys.getrecursionlimit()] less the stack
    in use): the call that would go beyond raises [RecursionError]. *)
Fixpoint has_tensor (depth : nat) (obj_id : nat) (seen_ids : gmap nat bool)
    : res bool * gmap nat bool :=
  match depth with
  | O => (Raise (OtherException "RecursionError"), seen_ids)
  | S depth' =>
      match seen_ids !! obj_id with
      | Some b => (Ret b, seen_ids)
      | None =>
          let seen0 := <[obj_id := false]> seen_ids in
          let children vs :=
            match scan_all (has_tensor depth') vs seen0 with
            | (Raise e, seen1) => (Raise e, seen1)
            | (Ret bs, seen1) => (Ret (any bs), <[obj_id := any bs]> seen1)
            end in
          match heap !! obj_id with
          | Some PTensor | Some PModule =>
              (Ret true, <[obj_id := true]> seen0)
          | Some (PList vs) | Some (PTuple vs) => children vs
          | Some (PDict vs) => children vs
          | Some PScalar => (Ret false, <[obj_id := false]> seen0)
          | Some (PNamedTuple vs) => children vs
          | Some PReturnType =>
              (* obj._fields *)
              (Raise (OtherException "AttributeError"), seen0)
          | Some (PInstance (Some vs)) =>
              if negb (is_allowed obj_id) && negb (Nat.eqb (length vs) 0)
              then children vs
              else (Ret false, seen0)
          | Some (PInstance None) | None => (Ret false, seen0)
          end
      end
  end.

(** A depth that is enough for a scan started with memo table [seen_ids]:
    one more than the number of described objects not yet in the table. *)
Definition scan_depth (seen_ids : gmap nat bool) : nat :=
  S (size (dom heap ∖ dom seen_ids)).

(** The loop over [frame.f_locals.values()]: stop at the first value that
    has a tensor. *)
Fixpoint scan_locals (depth : nat) (values : list nat) (seen_ids : gmap nat bool)
    : res bool * gmap nat bool :=
  match values with
  | [] => (Ret false, seen_ids)
  | v :: values' =>
      match has_tensor depth v seen_ids with
      | (Raise e, seen1) => (Raise e, seen1)
      | (Ret true, seen1) => (Ret true, seen1)
      | (Ret false, seen1) => scan_locals depth values' seen1
      end
  end.

End HasTensor.

(* ===================================================================== *)
(** * Code objects, frames, configuration *)
(* ===================================================================== *)

(** A code object: its identity and the attributes the converter reads. *)
Record code : Type := Code {
  code_id : nat;
  co_name : string;
  co_filename : string;
  co_firstlineno : nat;
  co_names : list string
}.

(** A frame as handed to the callback by the frame-evaluation hook. *)
Record frame : Type := Frame {
  f_code : code;
  f_locals : list (string * nat);
  f_globals : gmap string nat;
  f_builtins : gmap string nat;
  f_lasti : Z
}.

(** The settings of [config.py] that the modelled functions read. *)
Record config : Type := Config {
  verbose : bool;
  verify_correctness : bool;
  dead_code_elimination : bool;
  cache_size_limit : Z;
  raise_on_assertion_error : bool
}.

(** The values [config.py] assigns at import time. *)
Definition default_config : config :=
  {| verbose := false;
     verify_correctness := false;
     dead_code_elimination := true;
     cache_size_limit := 64;
     raise_on_assertion_error := false |}.

(** [s.endswith(suffix)] and [s.endswith((s1, s2, ...))]. *)
Definition endswith (s suffix : string) : bool :=
  Nat.leb (String.length suffix) (String.length s) &&
  String.eqb
    (String.substring (String.length s - String.length suffix)
                      (String.length suffix) s)
    suffix.

Definition endswith_any (s : string) (suffixes : list string) : bool :=
  existsb (endswith s) suffixes.

(* ===================================================================== *)
(** * [Tracker] *)
(* ===================================================================== *)

Module Tracker.

(** [seen] holds the weak references in insertion order (an object is
    named by its identity), [seen_ids] the identities. *)
Record t : Type := Make {
  seen : list nat;
  seen_ids : gset nat
}.

Definition init : t := {| seen := []; seen_ids := ∅ |}.

Definition add (strong_obj : nat) (self : t) : t :=
  let idx := strong_obj in
  if decide (idx ∈ seen_ids self) then self
  else {| seen := seen self ++ [idx];
          seen_ids := seen_ids self ∪ {[idx]} |}.

Definition contains (self : t) (item : nat) : bool :=
  bool_decide (item ∈ seen_ids self).

Definition clear (self : t) : t := {| seen := []; seen_ids := ∅ |}.

(** The weak reference's callback, run when the object [idx] dies. *)
Definition finalize (idx : nat) (self : t) : t :=
  {| seen := seen self; seen_ids := seen_ids self ∖ {[idx]} |}.

End Tracker.

(* ===================================================================== *)
(** * Process-wide state *)
(* ===================================================================== *)

(** What [torch.fx.graph_module._forward_from_src] is bound to. *)
Inductive forward_from_src_fn : Type :=
  | original_forward_from_src
  | fx_forward_from_src_skip_result
  | patched_forward_from_src (by_whom : nat).

(** The torch globals that [wrap_convert_context] saves and restores. *)
Record torch_state : Type := TorchState {
  grad_enabled : bool;
  rng_state : list Z;
  cuda_rng_state : list Z;
  _forward_from_src : forward_from_src_fn
}.

Inductive level : Type := DEBUG | INFO | WARNING | ERROR.

(** Log records, by content rather than by formatted text. *)
Inductive message : Type :=
  | MsgNoTorch (c : code)
      (* "skipping because no torch.* {co_name} {co_filename} {co_firstlineno}" *)
  | MsgCacheSizeLimit (limit : Z) (c : code) (reason : string)
      (* "torchdynamo hit config.cache_size_limit ... reasons: ..." *)
  | MsgRestarting                              (* "Restarting analysis ..." *)
  | MsgSkippingFrame (c : code)                (* "Skipping frame ..." *)
  | MsgNoGraphOneGraph         (* "No graph captured with one_graph=True" *)
  | MsgOriginalBytecode (c : code)
  | MsgModifiedBytecode (c : code)
  | MsgGuards (guards : list string)           (* "GUARDS:" and the guards *)
  | MsgWontConvert (e : exn) (c : code)        (* format_error_msg(e, frame) *)
  | MsgVerifyCorrectness                 (* "error in verify_correctness" *)
  | MsgProcessingFrame.                  (* "Error while processing frame" *)

(** The registries of the package that conversion reads and writes. *)
Record state : Type := State {
  torch : torch_state;
  input_codes : Tracker.t;
  output_codes : Tracker.t;
  orig_code_map : gmap nat nat;          (* new code id -> original code id *)
  cleanup_instance : gmap nat (list nat);       (* CleanupManager.instance *)
  counters_frames_total : nat;
  counters_frames_ok : nat;
  log : list (level * message)
}.

Definition with_torch (f : torch_state -> torch_state) (s : state) : state :=
  {| torch := f (torch s); input_codes := input_codes s;
     output_codes := output_codes s; orig_code_map := orig_code_map s;
     cleanup_instance := cleanup_instance s;
     counters_frames_total := counters_frames_total s;
     counters_frames_ok := counters_frames_ok s; log := log s |}.

Definition with_input_codes (f : Tracker.t -> Tracker.t) (s : state) : state :=
  {| torch := torch s; input_codes := f (input_codes s);
     output_codes := output_codes s; orig_code_map := orig_code_map s;
     cleanup_instance := cleanup_instance s;
     counters_frames_total := counters_frames_total s;
     counters_frames_ok := counters_frames_ok s; log := log s |}.

Definition with_output_codes (f : Tracker.t -> Tracker.t) (s : state) : state :=
  {| torch := torch s; input_codes := input_codes s;
     output_codes := f (output_codes s); orig_code_map := orig_code_map s;
     cleanup_instance := cleanup_instance s;
     counters_frames_total := counters_frames_total s;
     counters_frames_ok := counters_frames_ok s; log := log s |}.

Definition with_orig_code_map (f : gmap nat nat -> gmap nat nat) (s : state)
    : state :=
  {| torch := torch s; input_codes := input_codes s;
     output_codes := output_codes s; orig_code_map := f (orig_code_map s);
     cleanup_instance := cleanup_instance s;
     counters_frames_total := counters_frames_total s;
     counters_frames_ok := counters_frames_ok s; log := log s |}.

Definition with_cleanup_instance
    (f : gmap nat (list nat) -> gmap nat (list nat)) (s : state) : state :=
  {| torch := torch s; input_codes := input_codes s;
     output_codes := output_codes s; orig_code_map := orig_code_map s;
     cleanup_instance := f (cleanup_instance s);
     counters_frames_total := counters_frames_total s;
     counters_frames_ok := counters_frames_ok s; log := log s |}.

Definition count_frame_total (s : state) : state :=
  {| torch := torch s; input_codes := input_codes s;
     output_codes := output_codes s; orig_code_map := orig_code_map s;
     cleanup_instance := cleanup_instance s;
     counters_frames_total := S (counters_frames_total s);
     counters_frames_ok := counters_frames_ok s; log := log s |}.

Definition count_frame_ok (s : state) : state :=
  {| torch := torch s; input_codes := input_codes s;
     output_codes := output_codes s; orig_code_map := orig_code_map s;
     cleanup_instance := cleanup_instance s;
     counters_frames_total := counters_frames_total s;
     counters_frames_ok := S (counters_frames_ok s); log := log s |}.

(** [log.<level>(msg)]: append a record. *)
Definition log_at (l : level) (m : message) (s : state) : state :=
  {| torch := torch s; input_codes := input_codes s;
     output_codes := output_codes s; orig_code_map := orig_code_map s;
     cleanup_instance := cleanup_instance s;
     counters_frames_total := counters_frames_total s;
     counters_frames_ok := counters_frames_ok s;
     log := log s ++ [(l, m)] |}.

(** A computation over the registries: [None] when it does not come to an
    end, otherwise its outcome and the state it leaves. *)
Definition M (A : Type) : Type := state -> option (res A * state).

(* ===================================================================== *)
(** * What the converter is given *)
(* ===================================================================== *)

(** What the tracer leaves in [tracer.output] (an [OutputGraph]). *)
Record OutputGraph : Type := {
  output_instructions : list nat;
  code_options : gmap string nat;
  guards : option (list string);
  cleanups : list nat
}.

(** [GuardedCode(code, check_fn)]. *)
Record GuardedCode : Type := {
  gc_code : code;
  gc_check_fn : nat
}.

(** The compiler function handed to the tracer: the user's backend, or a
    [WrapperBackend] around it. *)
Inductive compiler : Type :=
  | UserBackend (backend : nat)
  | WrapperBackend (backend : nat).

(** The modules of the package that are used but not part of the sources at
    hand ([symbolic_convert], [bytecode_transformation], [bytecode_analysis],
    [guards], [allowed_functions], [skipfiles], [utils]) and the callables
    supplied by the user, as the functions the converter calls.  Those that
    run user or torch code act on the torch globals. *)
Record collaborators : Type := {
  is_generator : code -> bool;
  is_allowed : nat -> bool;
  skipfiles_check : string -> bool;
  (* InstructionTranslator(...).run(), at the given attempt of the loop *)
  InstructionTranslator_run :
    compiler -> frame -> bool -> bool -> nat -> torch_state ->
    res OutputGraph * torch_state;
  (* transform_code_object: disassembly and reassembly around the callback *)
  cleaned_instructions : code -> list nat;
  code_options_of : code -> gmap string nat;
  assemble : list nat -> gmap string nat -> code;
  remove_dead_code : list nat -> list nat;
  remove_pointless_jumps : list nat -> list nat;
  (* CheckFunctionManager(guards, f_locals, f_globals).check_fn *)
  CheckFunctionManager : list string -> frame -> res nat;
  (* calling a callable object, and a backend on a graph module *)
  call : nat -> list nat -> torch_state -> res nat * torch_state;
  call_backend :
    nat -> nat -> list nat -> torch_state -> res (option nat) * torch_state;
  gm_forward : nat -> nat;       (* gm.forward, as the callable it denotes *)
  deepcopy : nat -> nat;
  clone_inputs : list nat -> list nat;     (* the clones, named by content *)
  checkpoint_params : nat -> torch_state -> (torch_state -> torch_state);
  same : nat -> nat -> bool
}.

(** What the converter reads from its surroundings without changing it. *)
Record environ : Type := {
  cfg : config;
  TORCHDYNAMO_DEBUG_FUNCTION : option string;     (* os.environ.get(...) *)
  heap : gmap nat pyobj;
  (* how many nested calls the interpreter allows [has_tensor] *)
  recursion_room : nat;
  always_optimize_code_objects : gset nat;
  guard_failures : code -> option (list string);
  cuda_is_available : bool
}.

Section Converter.

Variable K : collaborators.
Variable E : environ.

(* ------------------------------------------------------------------- *)
(** ** [WrapperBackend.__call__] and [wrap_compiler_fn] *)

(** [WrapperBackend(backend)(gm, example_inputs)]: the outcome, the torch
    globals it leaves and the records it logs.

    [gm.forward] is a method of the graph module's class, so every read of
    the attribute builds a new bound method: the test
    [self.candidate is self.gm.forward] compares the candidate with an
    object made by the test itself and is [False] whatever the backend
    returned, a bound method of [gm.forward] included.  Only [None] makes
    the wrapper return the original forward unverified. *)
Definition WrapperBackend_call (backend gm : nat) (example_inputs : list nat)
    (w : torch_state) : res nat * torch_state * list (level * message) :=
  let restore := checkpoint_params K gm w in
  let original_example_inputs := clone_inputs K example_inputs in
  let copy_gm := deepcopy K gm in
  match call_backend K backend copy_gm original_example_inputs w with
  | (Raise e, w1) => (Raise e, w1, [])
  | (Ret None, w1) => (Ret (gm_forward K gm), w1, [])
  | (Ret (Some candidate), w1) =>
      if negb (verify_correctness (cfg E)) then (Ret candidate, w1, [])
      else
        let tried :=
          match call K (gm_forward K gm)
                  (clone_inputs K original_example_inputs) w1 with
          | (Raise e, w2) => (Raise e, w2)
          | (Ret correct, w2) =>
              match call K candidate
                      (clone_inputs K original_example_inputs) w2 with
              | (Raise e, w3) => (Raise e, w3)
              | (Ret result, w3) =>
                  if same K correct result then (Ret candidate, w3)
                  else (Raise (RuntimeError "incorrect results of backend"), w3)
              end
          end in
        match tried with
        | (Ret r, w') => (Ret r, restore w', [])
        | (Raise e, w') =>
            (* except Exception: log.exception(...); raise *)
            (Raise e, restore w',
             if is_exception e then [(ERROR, MsgVerifyCorrectness)] else [])
        end
  end.

Definition wrap_compiler_fn (compiler_fn : nat) : compiler :=
  if verify_correctness (cfg E) then WrapperBackend compiler_fn
  else UserBackend compiler_fn.

(* ------------------------------------------------------------------- *)
(** ** [wrap_convert_context] *)

(** The state in which [fn] is called: the FX hook is overridden. *)
Definition context_entered (s : state) : state :=
  with_torch (fun w =>
    {| grad_enabled := grad_enabled w; rng_state := rng_state w;
       cuda_rng_state := cuda_rng_state w;
       _forward_from_src := fx_forward_from_src_skip_result |}) s.

Definition wrap_convert_context {A : Type} (fn : M A) : M A := fun s =>
  let prior_grad_mode := grad_enabled (torch s) in
  let rng_state0 := rng_state (torch s) in
  let cuda_rng_state0 :=
    if cuda_is_available E then Some (cuda_rng_state (torch s)) else None in
  let prior_fwd_from_src := _forward_from_src (torch s) in
  match fn (context_entered s) with
  | None => None
  | Some (r, s2) =>
      (* finally: *)
      Some (r,
        with_torch (fun w =>
          {| grad_enabled := prior_grad_mode;
             rng_state := rng_state0;
             cuda_rng_state :=
               match cuda_rng_state0 with
               | Some c => c
               | None => cuda_rng_state w
               end;
             _forward_from_src := prior_fwd_from_src |}) s2)
  end.

(* ------------------------------------------------------------------- *)
(** ** [has_tensor_in_frame] *)

Definition has_tensor_in_frame (fr : frame) : M bool := fun s =>
  if bool_decide (code_id (f_code fr) ∈ always_optimize_code_objects E)
  then Some (Ret true, s)
  else if existsb
            (fun co_name =>
               match f_globals fr !! co_name with
               | Some g => is_allowed K g
               | None => false
               end)
            (co_names (f_code fr))
  then Some (Ret true, s)
  else
    match scan_locals (heap E) (is_allowed K) (recursion_room E)
            (map snd (f_locals fr)) ∅ with
    | (Raise e, _) => Some (Raise e, s)
    | (Ret true, _) => Some (Ret true, s)
    | (Ret false, _) =>
        Some (Ret false, log_at DEBUG (MsgNoTorch (f_code fr)) s)
    end.

(* ------------------------------------------------------------------- *)
(** ** [_convert_frame_assert] *)

(** Run a collaborator that acts on the torch globals. *)
Definition on_torch {A : Type}
    (f : torch_state -> res A * torch_state) (s : state) : res A * state :=
  let (r, w) := f (torch s) in (r, with_torch (fun _ => w) s).

(** The closure [transform(instructions, code_options)]; the value it
    assigns to the nonlocal [output] is returned along. *)
Definition transform (compiler_fn : compiler) (one_graph export : bool)
    (fr : frame) (attempt : nat)
    (instructions : list nat) (code_options0 : gmap string nat)
    (w : torch_state)
    : res (list nat * gmap string nat * OutputGraph) * torch_state :=
  match InstructionTranslator_run K compiler_fn fr one_graph export attempt w with
  | (Raise e, w1) => (Raise e, w1)
  | (Ret output, w1) =>
      match output_instructions output with
      | [] => (Raise AssertionError, w1)
      | _ :: _ =>
          let instructions1 := output_instructions output in
          let code_options1 := code_options output ∪ code_options0 in
          let instructions2 :=
            if dead_code_elimination (cfg E)
            then remove_pointless_jumps K (remove_dead_code K instructions1)
            else instructions1 in
          (Ret (instructions2, code_options1, output), w1)
      end
  end.

Definition transform_code_object (c : code)
    (transformations : list nat -> gmap string nat -> torch_state ->
       res (list nat * gmap string nat * OutputGraph) * torch_state)
    (w : torch_state) : res (code * OutputGraph) * torch_state :=
  match transformations (cleaned_instructions K c) (code_options_of K c) w with
  | (Raise e, w1) => (Raise e, w1)
  | (Ret (instructions, opts, output), w1) =>
      (Ret (assemble K instructions opts, output), w1)
  end.

(** One call of [transform_code_object(frame.f_code, transform)], at the
    given attempt. *)
Definition attempt_transform (compiler_fn : compiler)
    (one_graph export : bool) (fr : frame) (attempt : nat) (s : state)
    : res (code * OutputGraph) * state :=
  on_torch
    (transform_code_object (f_code fr)
       (transform compiler_fn one_graph export fr attempt)) s.

(** How the [for attempt in itertools.count()] loop is left without an
    exception: by [break], or by the [return None] of the [SkipFrame]
    handler. *)
Inductive loop_exit : Type :=
  | Break (c : code) (output : OutputGraph)
  | ReturnNone.

(** The loop, started at [attempt]; [fuel] bounds the iterations. *)
Fixpoint retry_loop (compiler_fn : compiler) (one_graph export : bool)
    (fr : frame) (fuel attempt : nat) (s : state)
    : option (res loop_exit * state) :=
  match fuel with
  | O => None
  | S fuel' =>
      match attempt_transform compiler_fn one_graph export fr attempt s with
      | (Ret (c, output), s1) =>
          Some (Ret (Break c output),
                with_orig_code_map (<[code_id c := code_id (f_code fr)]>) s1)
      | (Raise RestartAnalysis, s1) =>
          let s2 := log_at DEBUG MsgRestarting s1 in
          if Nat.ltb 100 attempt
          then Some (unimplemented "100+ RestartAnalysis() calls", s2)
          else retry_loop compiler_fn one_graph export fr fuel' (S attempt) s2
      | (Raise SkipFrame, s1) =>
          let s2 := log_at DEBUG (MsgSkippingFrame (f_code fr)) s1 in
          let s3 := if one_graph then log_at DEBUG MsgNoGraphOneGraph s2
                    else s2 in
          Some (Ret ReturnNone, s3)
      | (Raise e, s1) => Some (Raise e, s1)
      end
  end.

(** After the loop: from [output_codes.add(code)] to
    [return guarded_code]. *)
Definition install (guard_export_fn : option (list string -> res unit))
    (fr : frame) (c : code) (output : OutputGraph) (s : state)
    : res (option GuardedCode) * state :=
  let s1 := with_output_codes (Tracker.add (code_id c)) s in
  let s2 := log_at INFO (MsgOriginalBytecode (f_code fr)) s1 in
  let s3 := log_at INFO (MsgModifiedBytecode c) s2 in
  match guards output with
  | None => (Raise AssertionError, s3)
  | Some gs =>
      let s4 := with_cleanup_instance (<[code_id c := cleanups output]>) s3 in
      match CheckFunctionManager K gs fr with
      | Raise e => (Raise e, s4)
      | Ret check_fn =>
          let guarded_code := {| gc_code := c; gc_check_fn := check_fn |} in
          let s5 := log_at INFO (MsgGuards gs) s4 in
          match guard_export_fn with
          | None => (Ret (Some guarded_code), s5)
          | Some export_fn =>
              match export_fn gs with
              | Raise e => (Raise e, s5)
              | Ret _ => (Ret (Some guarded_code), s5)
              end
          end
      end
  end.

(** The classes named by the first [except] clause of the outer [try]. *)
Definition reraised_as_is (e : exn) : bool :=
  match e with
  | Unsupported _ _ | TorchRuntimeError | BackendCompilerFailed
  | AssertionError => true
  | _ => false
  end.

(** The body of the outer [try] statement. *)
Definition convert_try (compiler_fn : compiler)
    (guard_export_fn : option (list string -> res unit))
    (one_graph export : bool) (fuel : nat) (fr : frame)
    : M (option GuardedCode) := fun s =>
  match retry_loop compiler_fn one_graph export fr fuel 0 s with
  | None => None
  | Some (Raise e, s1) => Some (Raise e, s1)
  | Some (Ret ReturnNone, s1) => Some (Ret None, s1)
  | Some (Ret (Break c output), s1) =>
      Some (install guard_export_fn fr c output s1)
  end.

(** [format_error_msg(exc, frame)].  Under [config.verbose] the whole
    [real_stack] is listed, reversed; otherwise only its last entry is
    shown, [exc.real_stack[-1]], which an empty [real_stack] does not
    have. *)
Definition format_error_msg (exc : exn) (fr : frame) : res message :=
  if verbose (cfg E) then Ret (MsgWontConvert exc (f_code fr))
  else
    match real_stack_of exc with
    | Some [] => Raise (OtherException "IndexError")
    | Some (_ :: _) | None => Ret (MsgWontConvert exc (f_code fr))
    end.

(** [log.error(format_error_msg(e, frame))], then [then_raise]: the body
    of either [except] clause.  An exception raised while the message is
    built leaves the handler in place of the one being handled. *)
Definition log_error_and_raise {A : Type} (e then_raise : exn) (fr : frame)
    (s : state) : res A * state :=
  match format_error_msg e fr with
  | Raise e' => (Raise e', s)
  | Ret msg => (Raise then_raise, log_at ERROR msg s)
  end.

(** The two [except] clauses of the outer [try], for an exception [e] that
    left its body: the first names four classes, the second [Exception];
    anything else goes through. *)
Definition convert_except {A : Type} (e : exn) (fr : frame) (s : state)
    : res A * state :=
  if reraised_as_is e then log_error_and_raise e e fr s
  else if is_exception e
  then log_error_and_raise e InternalTorchDynamoError fr s
  else (Raise e, s).

(** The outer [try] statement with its two [except] clauses. *)
Definition convert_traced (compiler_fn : compiler)
    (guard_export_fn : option (list string -> res unit))
    (one_graph export : bool) (fuel : nat) (fr : frame)
    : M (option GuardedCode) := fun s =>
  match convert_try compiler_fn guard_export_fn one_graph export fuel fr s with
  | None => None
  | Some (Ret r, s1) => Some (Ret r, s1)
  | Some (Raise e, s1) => Some (convert_except e fr s1)
  end.

(** The body of [if cache_size >= config.cache_size_limit:]. *)
Definition cache_size_limit_reached (c : code) (s : state)
    : res (option GuardedCode) * state :=
  match guard_failures E c with
  | None => (Raise AssertionError, s)
  | Some failures =>
      match last failures with
      | None => (Raise (OtherException "IndexError"), s)
      | Some reason =>
          (unimplemented "cache_size_limit reached",
           log_at WARNING
             (MsgCacheSizeLimit (cache_size_limit (cfg E)) c reason) s)
      end
  end.

Definition _convert_frame_assert (compiler_fn : compiler)
    (guard_export_fn : option (list string -> res unit))
    (one_graph export : bool) (fuel : nat)
    (fr : frame) (cache_size : Z) : M (option GuardedCode) := fun s0 =>
  let c := f_code fr in
  let s := with_input_codes (Tracker.add (code_id c)) s0 in
  if Tracker.contains (output_codes s) (code_id c) then Some (Ret None, s)
  else if match TORCHDYNAMO_DEBUG_FUNCTION E with
          | Some v => negb (String.eqb v "") && negb (String.eqb v (co_name c))
          | None => false
          end
  then Some (Ret None, s)
  else if String.eqb (co_name c) "<genexpr>" &&
          endswith_any (co_filename c)
            ["transformers/file_utils.py"; "transformers/utils/generic.py"]
  then Some (Ret None, s)
  else if String.eqb (co_name c) "__setattr__" then Some (Ret None, s)
  else if String.eqb (co_name c) "<module>" &&
          String.eqb (co_filename c) "<string>"
  then Some (Ret None, s)
  else if String.eqb (co_name c) "<lambda>" &&
          String.eqb (co_filename c) "<string>" &&
          negb (bool_decide (f_builtins fr ≠ ∅))
  then Some (Ret None, s)
  else if is_generator K c then Some (unimplemented "generator", s)
  else if (cache_size_limit (cfg E) <=? cache_size)%Z
  then Some (cache_size_limit_reached c s)
  else
    match has_tensor_in_frame fr s with
    | None => None
    | Some (Raise e, s1) => Some (Raise e, s1)
    | Some (Ret false, s1) => Some (Ret None, s1)
    | Some (Ret true, s1) =>
        convert_traced compiler_fn guard_export_fn one_graph export fuel fr s1
    end.

Definition convert_frame_assert (compiler_fn : nat)
    (guard_export_fn : option (list string -> res unit))
    (one_graph export : bool) (fuel : nat)
    (fr : frame) (cache_size : Z) : M (option GuardedCode) :=
  wrap_convert_context
    (_convert_frame_assert (wrap_compiler_fn compiler_fn) guard_export_fn
       one_graph export fuel fr cache_size).

(* ------------------------------------------------------------------- *)
(** ** [convert_frame] *)

Definition _convert_frame (compiler_fn : nat)
    (guard_export_fn : option (list string -> res unit)) (fuel : nat)
    (fr : frame) (cache_size : Z) : M (option GuardedCode) := fun s =>
  let inner_convert :=
    convert_frame_assert compiler_fn guard_export_fn false false fuel in
  let s1 := count_frame_total s in
  match inner_convert fr cache_size s1 with
  | None => None
  | Some (Ret result, s2) => Some (Ret result, count_frame_ok s2)
  | Some (Raise AssertionError, s2) =>
      if raise_on_assertion_error (cfg E) then Some (Raise AssertionError, s2)
      else Some (Ret None, s2)
  | Some (Raise BackendCompilerFailed, s2) =>
      Some (Raise BackendCompilerFailed, s2)
  | Some (Raise e, s2) =>
      (* except Exception: pass *)
      if is_exception e then Some (Ret None, s2) else Some (Raise e, s2)
  end.

(** [convert_frame(compiler_fn, guard_export_fn)] returns that closure. *)
Definition convert_frame := _convert_frame.

(* ------------------------------------------------------------------- *)
(** ** [catch_errors_wrapper] of [eval_frame.py] *)

(** Reading [config.debug]: [config.py] binds no [debug], and the module's
    [__setattr__] refuses to add a name, so the lookup raises
    [AttributeError]. *)
Definition config_debug : res bool := Raise (OtherException "AttributeError").

(** The body of the [try] statement of [catch_errors]; the compile lock it
    holds around the callback leaves no trace here. *)
Definition catch_errors_try (callback : frame -> Z -> M (option GuardedCode))
    (fr : frame) (cache_size : Z) : M (option GuardedCode) := fun s =>
  if (0 <=? f_lasti fr)%Z || skipfiles_check K (co_filename (f_code fr))
  then
    match config_debug with
    | Raise e => Some (Raise e, s)
    | Ret _ => Some (Ret None, s)        (* print(...) under debug *)
    end
  else if String.eqb (co_filename (f_code fr)) "<string>" &&
          String.eqb (co_name (f_code fr)) "__new__"
  then Some (Ret None, s)
  else callback fr cache_size s.

(** The closure [catch_errors]: the [try] statement with its
    [except Exception] clause, which logs and raises again. *)
Definition catch_errors (callback : frame -> Z -> M (option GuardedCode))
    (fr : frame) (cache_size : Z) : M (option GuardedCode) := fun s =>
  match catch_errors_try callback fr cache_size s with
  | None => None
  | Some (Ret r, s1) => Some (Ret r, s1)
  | Some (Raise e, s1) =>
      if is_exception e
      then Some (Raise e, log_at ERROR MsgProcessingFrame s1)
      else Some (Raise e, s1)
  end.

(* ------------------------------------------------------------------- *)
(** ** Vocabulary for the statements below *)

(** The six tests that open [_convert_frame_assert] and end it with
    [return None], taken together; [s] is the state after
    [input_codes.add(code)]. *)
Definition returns_early (fr : frame) (s : state) : bool :=
  let c := f_code fr in
  Tracker.contains (output_codes s) (code_id c)
  || match TORCHDYNAMO_DEBUG_FUNCTION E with
     | Some v => negb (String.eqb v "") && negb (String.eqb v (co_name c))
     | None => false
     end
  || (String.eqb (co_name c) "<genexpr>" &&
      endswith_any (co_filename c)
        ["transformers/file_utils.py"; "transformers/utils/generic.py"])
  || String.eqb (co_name c) "__setattr__"
  || (String.eqb (co_name c) "<module>" &&
      String.eqb (co_filename c) "<string>")
  || (String.eqb (co_name c) "<lambda>" &&
      String.eqb (co_filename c) "<string>" &&
      negb (bool_decide (f_builtins fr ≠ ∅))).

(** The state in which the tests of [_convert_frame_assert] run. *)
Definition entered (fr : frame) (s : state) : state :=
  with_input_codes (Tracker.add (code_id (f_code fr))) s.

(** The frame gets past every test and is handed to the tracer in
    state [s1]. *)
Definition reaches_tracer (fr : frame) (cache_size : Z) (s s1 : state)
    : Prop :=
  returns_early fr (entered fr s) = false /\
  is_generator K (f_code fr) = false /\
  (cache_size < cache_size_limit (cfg E))%Z /\
  has_tensor_in_frame fr (entered fr s) = Some (Ret true, s1).

(** [restarts n s s']: started in [s], the attempts [0 .. n-1] each ended
    in a [RestartAnalysis] that the loop answered by going round again,
    and attempt [n] is about to run in [s']. *)
Inductive restarts (compiler_fn : compiler) (one_graph export : bool)
    (fr : frame) : nat -> state -> state -> Prop :=
  | restarts_none s : restarts compiler_fn one_graph export fr 0 s s
  | restarts_again n s s1 s2 :
      restarts compiler_fn one_graph export fr n s s1 ->
      attempt_transform compiler_fn one_graph export fr n s1
        = (Raise RestartAnalysis, s2) ->
      n <= 100 ->
      restarts compiler_fn one_graph export fr (S n) s
        (log_at DEBUG MsgRestarting s2).

End Converter.

(* ===================================================================== *)
(** * The frame-evaluation hook's cache *)
(* ===================================================================== *)

(** Modelled from the spec: the native frame-evaluation hook
    ([_eval_frame], a C extension) is not part of the sources at hand.  The
    spec gives its contract: on a cache miss the callback receives the frame
    and the current per-code cache size, and a cache entry is created once
    per successful compile; on [None] the frame runs unmodified. *)
Definition hook_cache_miss
    (callback : frame -> Z -> M (option GuardedCode))
    (fr : frame) (cache : list GuardedCode) (s : state)
    : option (res (list GuardedCode) * state) :=
  match callback fr (Z.of_nat (length cache)) s with
  | None => None
  | Some (Ret (Some guarded_code), s1) => Some (Ret (guarded_code :: cache), s1)
  | Some (Ret None, s1) => Some (Ret cache, s1)
  | Some (Raise e, s1) => Some (Raise e, s1)
  end.

(* ===================================================================== *)
(** * Sample inputs *)
(* ===================================================================== *)

(** A heap with a cycle: a list that holds itself and a scalar. *)
Definition cyclic_heap : gmap nat pyobj :=
  <[1 := PList [1; 2]]> (<[2 := PScalar]> ∅).

(** A heap with a tensor, a scalar and a list holding the scalar. *)
Definition sample_heap : gmap nat pyobj :=
  <[5 := PTensor]> (<[6 := PScalar]> (<[7 := PList [6]]> ∅)).

Definition sample_torch : torch_state :=
  {| grad_enabled := true; rng_state := [42%Z]; cuda_rng_state := [7%Z];
     _forward_from_src := original_forward_from_src |}.

(** The registries right after import. *)
Definition sample_state : state :=
  {| torch := sample_torch;
     input_codes := Tracker.init; output_codes := Tracker.init;
     orig_code_map := ∅; cleanup_instance := ∅;
     counters_frames_total := 0; counters_frames_ok := 0; log := [] |}.

(** The code object [1], named [name], and a frame running it. *)
Definition sample_code (name : string) : code :=
  {| code_id := 1; co_name := name; co_filename := "model.py";
     co_firstlineno := 10; co_names := [] |}.

Definition sample_frame (name : string) (locals : list (string * nat)) : frame :=
  {| f_code := sample_code name; f_locals := locals; f_globals := ∅;
     f_builtins := {[ "len" := 9 ]}; f_lasti := (-1)%Z |}.

(** What a tracer run that succeeds leaves behind. *)
Definition sample_output : OutputGraph :=
  {| output_instructions := [100; 83]; code_options := ∅;
     guards := Some ["x is a Tensor"]; cleanups := [] |}.

(** Collaborators for the samples: whether code objects are generators,
    what the tracer does at each attempt, what the backend returns, and the
    verdict of [same].  The rewritten code is the code object [2]; calling
    the callable [f] returns the object [f + 10]. *)
Definition sample_collaborators (generator : bool)
    (tracer : nat -> res OutputGraph) (candidate : option nat) (verdict : bool)
    : collaborators :=
  {| is_generator := fun _ => generator;
     is_allowed := fun _ => false;
     skipfiles_check := fun _ => false;
     InstructionTranslator_run := fun _ _ _ _ attempt w => (tracer attempt, w);
     cleaned_instructions := fun _ => [];
     code_options_of := fun _ => ∅;
     assemble := fun _ _ =>
       {| code_id := 2; co_name := "forward"; co_filename := "model.py";
          co_firstlineno := 10; co_names := [] |};
     remove_dead_code := fun instructions => instructions;
     remove_pointless_jumps := fun instructions => instructions;
     CheckFunctionManager := fun _ _ => Ret 3;
     call := fun f _ w => (Ret (f + 10), w);
     call_backend := fun _ _ _ w => (Ret candidate, w);
     gm_forward := fun gm => gm + 1;
     deepcopy := fun gm => gm + 100;
     clone_inputs := fun inputs => inputs;
     checkpoint_params := fun _ w => fun _ => w;
     same := fun _ _ => verdict |}.

(** Collaborators around a graph module that draws random numbers, as one
    with a dropout layer does: calling a callable returns an object that
    depends on the state of the generator, and advances the generator.  The
    graph module is the object [10]; the backend declines by handing back
    its forward; [same] compares the two results. *)
Definition sampling_collaborators : collaborators :=
  {| is_generator := fun _ => false;
     is_allowed := fun _ => false;
     skipfiles_check := fun _ => false;
     InstructionTranslator_run := fun _ _ _ _ _ w => (Ret sample_output, w);
     cleaned_instructions := fun _ => [];
     code_options_of := fun _ => ∅;
     assemble := fun _ _ =>
       {| code_id := 2; co_name := "forward"; co_filename := "model.py";
          co_firstlineno := 10; co_names := [] |};
     remove_dead_code := fun instructions => instructions;
     remove_pointless_jumps := fun instructions => instructions;
     CheckFunctionManager := fun _ _ => Ret 3;
     call := fun f _ w =>
       (Ret (f + Z.to_nat (hd 0%Z (rng_state w))),
        {| grad_enabled := grad_enabled w;
           rng_state := map Z.succ (rng_state w);
           cuda_rng_state := cuda_rng_state w;
           _forward_from_src := _forward_from_src w |});
     call_backend := fun _ _ _ w => (Ret (Some 11), w);
     gm_forward := fun gm => gm + 1;
     deepcopy := fun gm => gm + 100;
     clone_inputs := fun inputs => inputs;
     checkpoint_params := fun _ w => fun _ => w;
     same := Nat.eqb |}.

Definition sample_environ (c : config) (failures : option (list string))
    : environ :=
  {| cfg := c; TORCHDYNAMO_DEBUG_FUNCTION := None; heap := sample_heap;
     recursion_room := 900;
     always_optimize_code_objects := ∅;
     guard_failures := fun _ => failures;
     cuda_is_available := true |}.

(** [config.py] with [verify_correctness] switched on. *)
Definition verifying_config : config :=
  {| verbose := false; verify_correctness := true;
     dead_code_elimination := true; cache_size_limit := 64;
     raise_on_assertion_error := false |}.

(** A conversion that changes every torch global and then raises. *)
Definition sample_failing_conversion : M unit := fun s =>
  Some (Raise TorchRuntimeError,
        with_torch (fun _ =>
          {| grad_enabled := false; rng_state := []; cuda_rng_state := [];
             _forward_from_src := patched_forward_from_src 9 |}) s).

(** The tracer of the samples: it succeeds; it restarts twice and then
    skips the frame; it raises the same exception at every attempt. *)
Definition sample_tracer_ok : nat -> res OutputGraph :=
  fun _ => Ret sample_output.

Definition sample_tracer_skip : nat -> res OutputGraph :=
  fun attempt => if Nat.ltb attempt 2 then Raise RestartAnalysis
                 else Raise SkipFrame.

Definition sample_tracer_raising (e : exn) : nat -> res OutputGraph :=
  fun _ => Raise e.

(** A frame of [forward] with a tensor among its locals, and one with a
    scalar only. *)
Definition tensor_frame : frame := sample_frame "forward" [("x", 5)].
Definition scalar_frame : frame := sample_frame "forward" [("n", 6)].

(** A frame of [__setattr__] with a tensor among its locals. *)
Definition setattr_frame : frame := sample_frame "__setattr__" [("x", 5)].

(** The registries after code object [1] came out of a compilation. *)
Definition sample_state_compiled : state :=
  with_output_codes (Tracker.add 1) sample_state.

(** The collaborators and surroundings of the samples. *)
Definition tracing_ok : collaborators :=
  sample_collaborators false sample_tracer_ok None true.
Definition tracing_skips : collaborators :=
  sample_collaborators false sample_tracer_skip None true.
Definition tracing_raises (e : exn) : collaborators :=
  sample_collaborators false (sample_tracer_raising e) None true.
Definition generators : collaborators :=
  sample_collaborators true sample_tracer_ok None true.

Definition plain_environ : environ := sample_environ default_config None.


(** [config.verbose = True]. *)
Definition verbose_config : config :=
  {| verbose := true; verify_correctness := false;
     dead_code_elimination := true; cache_size_limit := 64;
     raise_on_assertion_error := false |}.
Definition verbose_environ : environ := sample_environ verbose_config None.
Definition recompiling_environ : environ :=
  sample_environ default_config
    (Some ["tensor 'x' size mismatch at index 0"; "tensor 'x' dtype mismatch"]).

(* ===================================================================== *)
(** * What the tensor scan can reach *)
(* ===================================================================== *)

Section Reachability.

Variable heap : gmap nat pyobj.
Variable is_allowed : nat -> bool.

(** The objects that [has_tensor] goes on to visit from [obj_id]: the items
    of a list or tuple, the values of a dict, the fields of a namedtuple,
    and the values of a non-empty [__dict__] of an object that is not
    allowed.  Tensors, modules and scalars are not looked into. *)
Definition scanned_children (obj_id : nat) : list nat :=
  match heap !! obj_id with
  | Some (PList vs) | Some (PTuple vs) | Some (PDict vs)
  | Some (PNamedTuple vs) => vs
  | Some (PInstance (Some vs)) =>
      if negb (is_allowed obj_id) && negb (Nat.eqb (length vs) 0) then vs
      else []
  | Some PTensor | Some PModule | Some PScalar | Some PReturnType
  | Some (PInstance None) | None => []
  end.

(** [isinstance(obj, (torch.Tensor, torch.nn.Module))]. *)
Definition is_tensor_like (obj_id : nat) : bool :=
  match heap !! obj_id with
  | Some PTensor | Some PModule => true
  | _ => false
  end.

(** [white_path visited u v]: [v] is reached from [u] along scanned
    children, through objects that are all outside [visited]. *)
Inductive white_path (visited : gset nat) : nat -> nat -> Prop :=
  | white_here u : u ∉ visited -> white_path visited u u
  | white_step u v w :
      u ∉ visited -> v ∈ scanned_children u -> white_path visited v w ->
      white_path visited u w.

(** A tensor or module is among the objects reached from [obj_id]. *)
Definition holds_tensor (obj_id : nat) : Prop :=
  exists t, is_tensor_like t = true /\ white_path ∅ obj_id t.

(** Every [True] in the memo table stands for an object that holds a
    tensor. *)
Definition memo_sound (seen_ids : gmap nat bool) : Prop :=
  forall obj_id, seen_ids !! obj_id = Some true -> holds_tensor obj_id.

(** What one finished call guarantees. *)
Definition call_facts (v : nat) (s : gmap nat bool) (b : bool)
    (s1 : gmap nat bool) : Prop :=
  dom s ⊆ dom s1 /\
  (forall u, u ∈ dom s1 -> u ∈ dom s \/ white_path (dom s) v u) /\
  (memo_sound s -> memo_sound s1 /\ (b = true -> holds_tensor v)) /\
  (forall t, is_tensor_like t = true -> white_path (dom s) v t -> b = true).

(** What a finished comprehension over the children guarantees. *)
Definition children_facts (vs : list nat) (s : gmap nat bool)
    (bs : list bool) (s' : gmap nat bool) : Prop :=
  dom s ⊆ dom s' /\
  (forall u, u ∈ dom s' ->
     u ∈ dom s \/ exists c, c ∈ vs /\ white_path (dom s) c u) /\
  (memo_sound s -> memo_sound s' /\ (any bs = true -> exists c, c ∈ vs /\ holds_tensor c)) /\
  (forall c t, c ∈ vs -> is_tensor_like t = true -> white_path (dom s) c t ->
     any bs = true).

(** How a scan can end when the interpreter has room for it: with an
    answer, or with the [AttributeError] of a [torch.return_types] value
    that was not in the table. *)
Definition scanned {A : Type} (seen_ids : gmap nat bool) (r : res A) : Prop :=
  (exists a, r = Ret a) \/
  (r = Raise (OtherException "AttributeError") /\
   exists u, heap !! u = Some PReturnType /\ u ∉ dom seen_ids).

(** What a scan raises: the [RecursionError] of the interpreter or the
    [AttributeError] of a [torch.return_types] value. *)
Definition scan_error (e : exn) : Prop :=
  e = OtherException "RecursionError" \/ e = OtherException "AttributeError".

End Reachability.

(* ===================================================================== *)
(** * Sequences of calls on a tracker *)
(* ===================================================================== *)

(** What can happen to a tracker: a call of [Tracker.add] or of
    [Tracker.clear], or the death of an object it refers to, upon which the
    callback of the weak reference runs. *)
Inductive tracker_call : Type :=
  | CallAdd (strong_obj : nat)
  | CallClear
  | ObjectDies (idx : nat).

Definition tracker_apply (t : Tracker.t) (c : tracker_call) : Tracker.t :=
  match c with
  | CallAdd strong_obj => Tracker.add strong_obj t
  | CallClear => Tracker.clear t
  | ObjectDies idx => Tracker.finalize idx t
  end.

(** The calls that are calls of a method: no object dies. *)
Definition is_method_call (c : tracker_call) : bool :=
  match c with
  | ObjectDies _ => false
  | CallAdd _ | CallClear => true
  end.

(** The tracker after the events, in order, on a new [Tracker()]. *)
Definition tracker_after (calls : list tracker_call) : Tracker.t :=
  foldl tracker_apply Tracker.init calls.

(* ===================================================================== *)
(** * [optimize] of [eval_frame.py] *)
(* ===================================================================== *)

(** The callback that [optimize(backend, nopython)] hands to
    [OptimizeContext]: [catch_errors] around [convert_frame_assert(backend,
    None)] when [nopython], around [convert_frame(backend, None)]
    otherwise. *)
Definition optimize_callback (K : collaborators) (E : environ)
    (backend : nat) (nopython : bool) (fuel : nat)
    : frame -> Z -> M (option GuardedCode) :=
  if nopython
  then catch_errors K (convert_frame_assert K E backend None true false fuel)
  else catch_errors K (convert_frame K E backend None fuel).

(* ===================================================================== *)
(** * [_TorchDynamoContext] of [eval_frame.py] *)
(* ===================================================================== *)

(** What [set_eval_frame] is given: [None] (disabled), [False] (run only)
    or a callable. *)
Inductive eval_frame_callback : Type :=
  | CallbackNone
  | CallbackFalse
  | Callback (fn : nat).

(** The class of a context object. *)
Inductive context_class : Type :=
  | TorchDynamoContext
  | OptimizeContext
  | RunOnlyContext
  | DisableContext.

(** A context object: its class, its callback, and what happens when its
    [on_enter] hook runs, when the backend context is built and entered,
    and when the backend context is left. *)
Record dynamo_context : Type := {
  ctx_class : context_class;
  ctx_callback : eval_frame_callback;
  ctx_on_enter : res unit;
  ctx_backend_enter : res unit;
  ctx_backend_exit : res unit
}.

(** [RunOnlyContext()] and [DisableContext()]. *)
Definition run_only_context : dynamo_context :=
  {| ctx_class := RunOnlyContext; ctx_callback := CallbackFalse;
     ctx_on_enter := Ret tt; ctx_backend_enter := Ret tt;
     ctx_backend_exit := Ret tt |}.

Definition disable_context : dynamo_context :=
  {| ctx_class := DisableContext; ctx_callback := CallbackNone;
     ctx_on_enter := Ret tt; ctx_backend_enter := Ret tt;
     ctx_backend_exit := Ret tt |}.

(** The state of [eval_frame.py]: the callback the hook currently calls and
    the dictionary [always_optimize_code_objects]. *)
Record eval_frame_state : Type := {
  active_callback : eval_frame_callback;
  always_optimize : gset nat
}.

(** Modelled from the spec: [set_eval_frame] belongs to the native
    extension [_eval_frame], which is not part of the sources at hand; the
    spec has contexts save and restore "the previously active callback",
    which is what the call returns. *)
Definition set_eval_frame (callback : eval_frame_callback)
    (h : eval_frame_state) : eval_frame_callback * eval_frame_state :=
  (active_callback h,
   {| active_callback := callback; always_optimize := always_optimize h |}).

(** The closure [_fn] that [_TorchDynamoContext.__call__] returns, around
    the function [fn]. *)
Definition decorated_call {A : Type} (ctx : dynamo_context)
    (fn : eval_frame_state -> option (res A * eval_frame_state))
    (h : eval_frame_state) : option (res A * eval_frame_state) :=
  match ctx_on_enter ctx with
  | Raise e => Some (Raise e, h)
  | Ret _ =>
      let (prior, h1) := set_eval_frame (ctx_callback ctx) h in
      match ctx_backend_enter ctx with
      | Raise e => Some (Raise e, h1)
      | Ret _ =>
          match fn h1 with
          | None => None
          | Some (r, h2) =>
              (* finally: *)
              let (_, h3) := set_eval_frame prior h2 in
              match ctx_backend_exit ctx with
              | Raise e => Some (Raise e, h3)
              | Ret _ => Some (r, h3)
              end
          end
      end
  end.

(** The attributes that [__call__] sets on [_fn]. *)
Record decorated : Type := {
  _torchdynamo_disable : bool;
  _torchdynamo_inline : option nat
}.

(** [_TorchDynamoContext.__call__(fn)], for the function object [fn] with
    code object [fn_code]: the attributes of the closure it returns, and
    the state it leaves. *)
Definition context_call (ctx : dynamo_context) (fn fn_code : nat)
    (h : eval_frame_state) : decorated * eval_frame_state :=
  let attributes :=
    match ctx_class ctx with
    | DisableContext =>
        {| _torchdynamo_disable := true; _torchdynamo_inline := None |}
    | _ => {| _torchdynamo_disable := false; _torchdynamo_inline := Some fn |}
    end in
  match ctx_callback ctx with
  | Callback _ =>
      (attributes,
       {| active_callback := active_callback h;
          always_optimize := always_optimize h ∪ {[fn_code]} |})
  | _ => (attributes, h)
  end.

(* ===================================================================== *)
(** * Matching arguments in [export] *)
(* ===================================================================== *)

Section ExportMatching.

Variable A : Type.

(** [torch.allclose] on two flat arguments; it raises (a [RuntimeError])
    on tensors whose shapes cannot be broadcast or whose dtypes differ. *)
Variable allclose : A -> A -> res bool.

(** [[torch.allclose(x, y) for y in source_args]]. *)
Fixpoint allclose_each (x : A) (source_args : list A) : res (list bool) :=
  match source_args with
  | [] => Ret []
  | y :: source_args' =>
      match allclose x y with
      | Raise e => Raise e
      | Ret b =>
          match allclose_each x source_args' with
          | Raise e => Raise e
          | Ret bs => Ret (b :: bs)
          end
      end
  end.

(** [l.index(True)]; [None] stands for the [ValueError]. *)
Fixpoint index_true (l : list bool) : option nat :=
  match l with
  | [] => None
  | true :: _ => Some 0
  | false :: l' => S <$> index_true l'
  end.

(** One round of the loop of [assert_can_rewrite_spec]: the set built from
    [matched_elements.index(True)], once per element of
    [matched_elements]. *)
Definition matched_elements (source_args : list A) (x : A) : res (list nat) :=
  match allclose_each x source_args with
  | Raise e => Raise e
  | Ret [] => Ret []
  | Ret ((_ :: _) as matched) =>
      match index_true matched with
      | Some i => Ret [i]
      | None => Raise (OtherException "ValueError")
      end
  end.

(** What a position says about a candidate: the source there is close to
    it, and no source before is. *)
Definition first_match (source_args : list A) (x : A) (p : nat) : Prop :=
  (exists y, source_args !! p = Some y /\ allclose x y = Ret true) /\
  forall q y, q < p -> source_args !! q = Some y -> allclose x y = Ret false.

(** The loop: [matched_elements_positions] after all candidates. *)
Fixpoint matched_elements_positions (source_args candidate_args : list A)
    : res (list nat) :=
  match candidate_args with
  | [] => Ret []
  | x :: candidate_args' =>
      match matched_elements source_args x with
      | Raise e => Raise e
      | Ret matched =>
          match matched_elements_positions source_args candidate_args' with
          | Raise e => Raise e
          | Ret positions => Ret (matched ++ positions)
          end
      end
  end.

(** [[source_args[i] for i in matched_elements_positions]]. *)
Fixpoint select_sources (source_args : list A) (positions : list nat)
    : res (list A) :=
  match positions with
  | [] => Ret []
  | i :: positions' =>
      match source_args !! i with
      | None => Raise (OtherException "IndexError")
      | Some y =>
          match select_sources source_args positions' with
          | Raise e => Raise e
          | Ret ys => Ret (y :: ys)
          end
      end
  end.

End ExportMatching.

(* ===================================================================== *)
(** * [_AccessLimitingConfig] of [config.py] *)
(* ===================================================================== *)

Section ConfigModule.

(** The values bound in the module. *)
Variable V : Type.

(** [_AccessLimitingConfig.__setattr__(name, value)] on the module whose
    names are bound as in [namespace]; [allowed] is
    [_allowed_config_names]. *)
Definition config_setattr (allowed : gset string) (name : string) (value : V)
    (namespace : gmap string V) : res (gmap string V) :=
  if decide (name ∈ allowed) then Ret (<[name := value]> namespace)
  else Raise (OtherException "AttributeError").

(** A series of assignments [config.name = value], each one caught if it
    raises. *)
Definition config_assign_all (allowed : gset string)
    (assignments : list (string * V)) (namespace : gmap string V)
    : gmap string V :=
  foldl (fun ns assignment =>
           match config_setattr allowed assignment.1 assignment.2 ns with
           | Ret ns' => ns'
           | Raise _ => ns
           end) namespace assignments.

End ConfigModule.

(* ===================================================================== *)
(** * More sample inputs *)
(* ===================================================================== *)

(** A tracer output without guards, and collaborators whose tracer leaves
    it. *)
Definition sample_output_unguarded : OutputGraph :=
  {| output_instructions := [100; 83]; code_options := ∅;
     guards := None; cleanups := [] |}.

Definition tracing_unguarded : collaborators :=
  sample_collaborators false (fun _ => Ret sample_output_unguarded) None true.

(** A frame of the rewritten code object [2]. *)
Definition rewritten_frame : frame :=
  {| f_code := assemble tracing_ok [] ∅; f_locals := [("x", 5)];
     f_globals := ∅; f_builtins := {[ "len" := 9 ]}; f_lasti := (-1)%Z |}.

(** A frame that has already begun to run. *)
Definition started_frame : frame :=
  {| f_code := sample_code "forward"; f_locals := [("x", 5)];
     f_globals := ∅; f_builtins := {[ "len" := 9 ]}; f_lasti := 4%Z |}.

(** A generator expression of [transformers]. *)
Definition genexpr_frame : frame :=
  {| f_code :=
       {| code_id := 1; co_name := "<genexpr>";
          co_filename := "site-packages/transformers/file_utils.py";
          co_firstlineno := 10; co_names := [] |};
     f_locals := [("x", 5)]; f_globals := ∅;
     f_builtins := {[ "len" := 9 ]}; f_lasti := (-1)%Z |}.

(** An [OptimizeContext] with callback [4], one whose backend context
    cannot be entered, and a function that switches the hook off and
    raises. *)
Definition sample_context : dynamo_context :=
  {| ctx_class := OptimizeContext; ctx_callback := Callback 4;
     ctx_on_enter := Ret tt; ctx_backend_enter := Ret tt;
     ctx_backend_exit := Ret tt |}.

Definition failing_context : dynamo_context :=
  {| ctx_class := OptimizeContext; ctx_callback := Callback 4;
     ctx_on_enter := Ret tt;
     ctx_backend_enter := Raise (RuntimeError "fuser");
     ctx_backend_exit := Ret tt |}.

Definition sample_eval_frame_state : eval_frame_state :=
  {| active_callback := CallbackFalse; always_optimize := ∅ |}.

Definition sample_function
    : eval_frame_state -> option (res nat * eval_frame_state) :=
  fun h => Some (Raise TorchRuntimeError,
                 {| active_callback := CallbackNone;
                    always_optimize := always_optimize h |}).

(** The surroundings after [sample_context] decorated the function with
    code object [1]. *)
Definition decorated_environ : environ :=
  {| cfg := default_config; TORCHDYNAMO_DEBUG_FUNCTION := None;
     heap := sample_heap;
     recursion_room := 900;
     always_optimize_code_objects :=
       always_optimize
         (context_call sample_context 0 1 sample_eval_frame_state).2;
     guard_failures := fun _ => None;
     cuda_is_available := true |}.

(* ===================================================================== *)
(** * The tensor scan comes to an end *)
(* ===================================================================== *)

Section HasTensorFacts.

Variable heap : gmap nat pyobj.
Variable is_allowed : nat -> bool.

Local Abbreviation unseen seen_ids := (size (dom heap ∖ dom seen_ids)).

Lemma unseen_mono (seen1 seen2 : gmap nat bool) :
  dom seen1 ⊆ dom seen2 -> unseen seen2 <= unseen seen1.
Proof. intros Hsub. by apply subseteq_size, difference_mono_l. Qed.

Lemma unseen_premark (seen_ids : gmap nat bool) (obj_id : nat) :
  seen_ids !! obj_id = None -> is_Some (heap !! obj_id) ->
  unseen (<[obj_id := false]> seen_ids) < unseen seen_ids.
Proof.
  intros Hnew Hobj. apply subset_size.
  apply not_elem_of_dom in Hnew. apply elem_of_dom in Hobj.
  rewrite dom_insert_L. split.
  - apply difference_mono_l, union_subseteq_r.
  - intros Hsub. specialize (Hsub obj_id).
    rewrite !elem_of_difference, elem_of_union, elem_of_singleton in Hsub.
    tauto.
Qed.

(** A memoized identity is answered from the table, which is left as it
    is. *)
Lemma has_tensor_memo depth obj_id (seen_ids : gmap nat bool) b :
  seen_ids !! obj_id = Some b ->
  has_tensor heap is_allowed (S depth) obj_id seen_ids = (Ret b, seen_ids).
Proof. intros Hb. simpl. by rewrite Hb. Qed.

Lemma scanned_mono {A B : Type} (seen1 seen2 : gmap nat bool) e :
  dom seen1 ⊆ dom seen2 ->
  scanned heap (A := A) seen2 (Raise e) -> scanned heap (A := B) seen1 (Raise e).
Proof.
  intros Hsub [[a [=]] | [[= ->] (u & Hu & Hnew)]].
  right. split; [done |]. exists u. split; [done | set_solver].
Qed.

(** The comprehension over the children, when each call has room. *)
Lemma scan_all_scanned (f : nat -> gmap nat bool -> res bool * gmap nat bool)
    (n : nat) :
  (forall v (seen_ids : gmap nat bool), unseen seen_ids < n ->
     exists r seen', f v seen_ids = (r, seen') /\ dom seen_ids ⊆ dom seen' /\
                     scanned heap seen_ids r) ->
  forall vs (seen_ids : gmap nat bool), unseen seen_ids < n ->
    exists r seen', scan_all f vs seen_ids = (r, seen') /\
                    dom seen_ids ⊆ dom seen' /\ scanned heap seen_ids r.
Proof.
  intros Hf vs. induction vs as [|v vs IH]; intros seen_ids Hn; simpl.
  - eexists _, _. split; [done |]. split; [done |]. left. by eexists.
  - destruct (Hf v seen_ids Hn) as (r & seen1 & -> & Hsub1 & Hr).
    destruct r as [b|e].
    2: { eexists _, _. split; [done |]. split; [done |].
         by apply (scanned_mono (A := bool) seen_ids seen_ids). }
    destruct (IH seen1) as (r2 & seen2 & -> & Hsub2 & Hr2).
    { pose proof (unseen_mono _ _ Hsub1). lia. }
    destruct r2 as [bs|e]; eexists _, _; (split; [done |]);
      (split; [set_solver |]).
    + left. by eexists.
    + by apply (scanned_mono (A := list bool) seen_ids seen1).
Qed.

(** With room for more nested calls than there are objects still unseen,
    [has_tensor] does not run into the recursion limit; the table only
    grows, and an answer is for an object in the table. *)
Lemma has_tensor_scanned depth :
  forall obj_id (seen_ids : gmap nat bool), unseen seen_ids < depth ->
    exists r seen', has_tensor heap is_allowed depth obj_id seen_ids
                      = (r, seen') /\
                    dom seen_ids ⊆ dom seen' /\ scanned heap seen_ids r.
Proof.
  induction depth as [|depth IH]; intros obj_id seen_ids Hn; [lia |].
  cbn [has_tensor].
  destruct (seen_ids !! obj_id) as [b|] eqn:Hseen.
  { eexists _, _. split; [done |]. split; [done |]. left. by eexists. }
  assert (Hleaf : forall (b0 : bool) (seen' : gmap nat bool),
    dom seen_ids ⊆ dom seen' ->
    exists r seen1, (Ret b0, seen') = (r, seen1) /\
      dom seen_ids ⊆ dom seen1 /\ scanned heap (A := bool) seen_ids r).
  { intros b0 seen' Hsub. eexists _, _. split; [done |]. split; [done |].
    left. by eexists. }
  assert (Hpre : dom seen_ids ⊆ dom (<[obj_id := false]> seen_ids))
    by (rewrite dom_insert_L; set_solver).
  assert (Hkids : forall vs, is_Some (heap !! obj_id) ->
    exists r seen1,
      match scan_all (has_tensor heap is_allowed depth) vs
              (<[obj_id := false]> seen_ids) with
      | (Raise e, seen1) => (Raise e, seen1)
      | (Ret bs, seen1) => (Ret (any bs), <[obj_id := any bs]> seen1)
      end = (r, seen1) /\
      dom seen_ids ⊆ dom seen1 /\ scanned heap (A := bool) seen_ids r).
  { intros vs Hobj.
    pose proof (unseen_premark seen_ids obj_id Hseen Hobj) as Hlt.
    destruct (scan_all_scanned (has_tensor heap is_allowed depth) depth IH vs
                (<[obj_id := false]> seen_ids)) as (r & seen1 & -> & Hsub & Hr);
      [lia |].
    destruct r as [bs|e]; eexists _, _; (split; [done |]).
    - split; [rewrite dom_insert_L; set_solver |]. left. by eexists.
    - split; [set_solver |].
      by apply (scanned_mono (A := list bool) seen_ids
                  (<[obj_id := false]> seen_ids)). }
  destruct (heap !! obj_id) as [o|] eqn:Hobj; [| by apply Hleaf].
  destruct o as [| | vs | vs | vs | | vs | | [vs|]];
    try (apply Hkids; eauto);
    try (apply Hleaf; rewrite ?dom_insert_L; set_solver).
  - eexists _, _. split; [done |]. split; [done |]. right. split; [done |].
    exists obj_id. split; [done |]. by apply not_elem_of_dom.
  - destruct (negb (is_allowed obj_id) && negb (Nat.eqb (length vs) 0));
      [apply Hkids; eauto | by apply Hleaf].
Qed.

(** Whatever the depth, the table only grows. *)
Lemma scan_all_dom (f : nat -> gmap nat bool -> res bool * gmap nat bool) :
  (forall v (seen_ids : gmap nat bool) r seen',
     f v seen_ids = (r, seen') -> dom seen_ids ⊆ dom seen') ->
  forall vs (seen_ids : gmap nat bool) r seen',
    scan_all f vs seen_ids = (r, seen') -> dom seen_ids ⊆ dom seen'.
Proof.
  intros Hf vs. induction vs as [|v vs IH]; intros seen_ids r seen'; simpl.
  { by intros [= <- <-]. }
  destruct (f v seen_ids) as [[b|e] seen1] eqn:Hcall; apply Hf in Hcall.
  2: { by intros [= <- <-]. }
  destruct (scan_all f vs seen1) as [[bs|e] seen2] eqn:Hrest;
    apply IH in Hrest; intros [= <- <-]; set_solver.
Qed.

Lemma has_tensor_dom depth :
  forall obj_id (seen_ids : gmap nat bool) r seen',
    has_tensor heap is_allowed depth obj_id seen_ids = (r, seen') ->
    dom seen_ids ⊆ dom seen'.
Proof.
  induction depth as [|depth IH]; intros obj_id seen_ids r seen'.
  { by intros [= <- <-]. }
  cbn [has_tensor].
  destruct (seen_ids !! obj_id) as [b|] eqn:Hseen; [by intros [= <- <-] |].
  assert (Hpre : dom seen_ids ⊆ dom (<[obj_id := false]> seen_ids))
    by (rewrite dom_insert_L; set_solver).
  assert (Hkids : forall vs,
    match scan_all (has_tensor heap is_allowed depth) vs
            (<[obj_id := false]> seen_ids) with
    | (Raise e, seen1) => (Raise e, seen1)
    | (Ret bs, seen1) => (Ret (any bs), <[obj_id := any bs]> seen1)
    end = (r, seen') -> dom seen_ids ⊆ dom seen').
  { intros vs.
    destruct (scan_all _ vs _) as [[bs|e] seen1] eqn:Hscan;
      apply (scan_all_dom _ IH) in Hscan; intros [= <- <-];
      rewrite ?dom_insert_L; set_solver. }
  assert (Hleaf : forall (r0 : res bool) (seen0 : gmap nat bool),
    dom seen_ids ⊆ dom seen0 -> (r0, seen0) = (r, seen') ->
    dom seen_ids ⊆ dom seen') by (by intros r0 seen0 Hsub [= <- <-]).
  destruct (heap !! obj_id) as [o|]; [| by apply Hleaf].
  destruct o as [| | vs | vs | vs | | vs | | [vs|]];
    try apply Hkids;
    try (apply Hleaf; rewrite ?dom_insert_L; set_solver).
  destruct (negb (is_allowed obj_id) && negb (Nat.eqb (length vs) 0));
    [apply Hkids | by apply Hleaf].
Qed.

(** The loop over the locals, when the interpreter has room. *)
Lemma scan_locals_scanned depth :
  forall values (seen_ids : gmap nat bool), unseen seen_ids < depth ->
    exists r seen', scan_locals heap is_allowed depth values seen_ids
                      = (r, seen') /\ scanned heap seen_ids r.
Proof.
  intros values. induction values as [|v values IH]; intros seen_ids Hn.
  - simpl. eexists _, _. split; [done |]. left. by eexists.
  - cbn [scan_locals].
    destruct (has_tensor_scanned depth v seen_ids Hn)
      as (r & seen1 & -> & Hsub & Hr).
    destruct r as [[|]|e].
    + eexists _, _. split; [done |]. left. by eexists.
    + destruct (IH seen1) as (r2 & seen2 & -> & Hr2).
      { pose proof (unseen_mono _ _ Hsub). lia. }
      eexists _, _. split; [done |].
      destruct r2 as [b|e]; [left; by eexists |].
      by apply (scanned_mono (A := bool) seen_ids seen1).
    + eexists _, _. split; [done |]. done.
Qed.

End HasTensorFacts.

(** The answer of a call is the entry that the call leaves for its
    argument. *)
Lemma has_tensor_memoizes heap is_allowed depth obj_id
    (seen_ids : gmap nat bool) b seen' :
  has_tensor heap is_allowed depth obj_id seen_ids = (Ret b, seen') ->
  seen' !! obj_id = Some b.
Proof.
  destruct depth as [|depth]; [done|]. cbn [has_tensor].
  destruct (seen_ids !! obj_id) as [b0|] eqn:Hseen.
  { intros [= <- <-]. done. }
  assert (Hkids : forall vs,
    match scan_all (has_tensor heap is_allowed depth) vs
            (<[obj_id := false]> seen_ids) with
    | (Raise e, seen1) => (Raise e, seen1)
    | (Ret bs, seen1) => (Ret (any bs), <[obj_id := any bs]> seen1)
    end = (Ret b, seen') -> seen' !! obj_id = Some b).
  { intros vs. destruct (scan_all _ vs _) as [[bs|e] seen1]; [| done].
    intros [= <- <-]. apply lookup_insert_eq. }
  assert (Hleaf : forall b0 (m : gmap nat bool),
    (Ret b0, <[obj_id := b0]> m) = (Ret b, seen') ->
    seen' !! obj_id = Some b).
  { intros b0 m [= <- <-]. apply lookup_insert_eq. }
  destruct (heap !! obj_id) as [o|]; [| apply Hleaf].
  destruct o as [| | vs | vs | vs | | vs | | [vs|]];
    try apply Hkids; try apply Hleaf; try done.
  destruct (negb (is_allowed obj_id) && negb (Nat.eqb (length vs) 0));
    [apply Hkids | apply Hleaf].
Qed.

(** C10: the scan of [has_tensor] ends on every heap, cyclic or not.
    Pre-marking bounds the nesting of its calls by the number of objects
    not yet in the memo table, so as soon as the interpreter allows that
    many nested calls the scan ends with an answer (or with the
    [AttributeError] of a [torch.return_types] value it came upon) and not
    with a [RecursionError]; the answer is memoized, so every later call
    on the same object returns it without visiting anything; and an object
    that is already in the table, such as one pre-marked [False] whose
    visit is in progress further up and which is reached again through a
    cycle, answers what the table says and leaves the table untouched. *)
Theorem has_tensor_terminates heap is_allowed obj_id
    (seen_ids : gmap nat bool) depth :
  exists r seen',
    has_tensor heap is_allowed depth obj_id seen_ids = (r, seen') /\
    dom seen_ids ⊆ dom seen' /\
    (forall b, 0 < depth -> seen_ids !! obj_id = Some b ->
       r = Ret b /\ seen' = seen_ids) /\
    (scan_depth heap seen_ids <= depth ->
       (exists b, r = Ret b /\ seen' !! obj_id = Some b /\
          forall depth', has_tensor heap is_allowed (S depth') obj_id seen'
                           = (Ret b, seen')) \/
       (r = Raise (OtherException "AttributeError") /\
        exists u, heap !! u = Some PReturnType /\ u ∉ dom seen_ids)) /\
    ((forall u, heap !! u <> Some PReturnType) ->
     scan_depth heap seen_ids <= depth -> exists b, r = Ret b).
Proof.
  destruct (has_tensor heap is_allowed depth obj_id seen_ids)
    as [r seen'] eqn:Hrun.
  exists r, seen'. split; [done |].
  split; [by eapply has_tensor_dom |].
  assert (Hroom : scan_depth heap seen_ids <= depth ->
    (exists b, r = Ret b /\ seen' !! obj_id = Some b /\
       forall depth', has_tensor heap is_allowed (S depth') obj_id seen'
                        = (Ret b, seen')) \/
    (r = Raise (OtherException "AttributeError") /\
     exists u, heap !! u = Some PReturnType /\ u ∉ dom seen_ids)).
  { unfold scan_depth. intros Hdepth.
    destruct (has_tensor_scanned heap is_allowed depth obj_id seen_ids)
      as (r0 & seen0 & Hrun0 & _ & Hr); [lia |].
    rewrite Hrun in Hrun0. injection Hrun0 as <- <-.
    destruct Hr as [[b ->] | Hattr]; [left | by right].
    pose proof (has_tensor_memoizes _ _ _ _ _ _ _ Hrun) as Hmemo.
    exists b. split; [done |]. split; [done |].
    intros depth'. by apply has_tensor_memo. }
  split; [| split; [exact Hroom |]].
  - intros b Hdepth Hpre. destruct depth as [|depth]; [lia |].
    rewrite (has_tensor_memo _ _ _ _ _ _ Hpre) in Hrun.
    by injection Hrun as <- <-.
  - intros Hplain Hdepth.
    destruct (Hroom Hdepth) as [(b & -> & _) | (_ & u & Hu & _)];
      [by exists b | by destruct (Hplain u)].
Qed.

Lemma has_tensor_terminates_witness :
  (exists b seen',
     has_tensor cyclic_heap (fun _ => false) 3 1 ∅ = (Ret b, seen') /\
     seen' !! 1 = Some b) /\
  has_tensor cyclic_heap (fun _ => false) 2 1 (<[1 := false]> ∅)
    = (Ret false, <[1 := false]> ∅).
Proof.
  split.
  - destruct (has_tensor_terminates cyclic_heap (fun _ => false) 1 ∅ 3)
      as (r & seen' & Hrun & _ & _ & Hroom & _).
    assert (Hdepth : scan_depth cyclic_heap (∅ : gmap nat bool) <= 3)
      by (vm_compute; lia).
    destruct (Hroom Hdepth) as [(b & -> & Hmemo & _) | (Hattr & _)].
    + by exists b, seen'.
    + rewrite Hattr in Hrun. vm_compute in Hrun. discriminate.
  - destruct (has_tensor_terminates cyclic_heap (fun _ => false) 1
                (<[1 := false]> ∅) 2)
      as (r & seen' & Hrun & _ & Hpre & _).
    destruct (Hpre false ltac:(lia) eq_refl) as [-> ->]. exact Hrun.
Defined.

(** On the cyclic heap the list is entered once; meeting itself among its
    own items it reads the pre-marked [False]. *)
Example has_tensor_cyclic_list :
  fst (has_tensor cyclic_heap (fun _ => false) 3 1 ∅) = Ret false.
Proof. vm_compute. reflexivity. Qed.

(** Without room the scan of a list raises [RecursionError]; a value of
    [torch.return_types] raises [AttributeError]. *)
Example has_tensor_raises :
  fst (has_tensor cyclic_heap (fun _ => false) 1 1 ∅)
    = Raise (OtherException "RecursionError") /\
  fst (has_tensor (<[3 := PReturnType]> ∅) (fun _ => false) 2 3 ∅)
    = Raise (OtherException "AttributeError").
Proof. split; vm_compute; reflexivity. Qed.

(* ===================================================================== *)
(** * The conversion context *)
(* ===================================================================== *)

(** C8: whenever the wrapped conversion comes to an end, by returning or
    by raising, the wrapper ends the same way, and on exit the grad mode,
    the CPU random state and the FX forward-from-source hook are what they
    were on entry; so is the CUDA random state when CUDA is available. *)
Theorem wrap_convert_context_restores (E : environ) {A : Type} (fn : M A)
    (s : state) (r : res A) (s2 : state) :
  fn (context_entered s) = Some (r, s2) ->
  exists s',
    wrap_convert_context E fn s = Some (r, s') /\
    grad_enabled (torch s') = grad_enabled (torch s) /\
    rng_state (torch s') = rng_state (torch s) /\
    _forward_from_src (torch s') = _forward_from_src (torch s) /\
    (cuda_is_available E = true ->
       cuda_rng_state (torch s') = cuda_rng_state (torch s)).
Proof.
  intros Hfn. unfold wrap_convert_context. rewrite Hfn.
  eexists. split; [reflexivity |]. cbn.
  repeat split. intros ->. reflexivity.
Qed.

Lemma wrap_convert_context_restores_witness :
  exists s',
    wrap_convert_context (sample_environ default_config None)
      sample_failing_conversion sample_state
      = Some (Raise TorchRuntimeError, s') /\
    grad_enabled (torch s') = true /\
    rng_state (torch s') = [42%Z] /\
    _forward_from_src (torch s') = original_forward_from_src /\
    (true = true -> cuda_rng_state (torch s') = [7%Z]).
Proof.
  exact (wrap_convert_context_restores (sample_environ default_config None)
           sample_failing_conversion sample_state (Raise TorchRuntimeError)
           _ eq_refl).
Defined.

(** The wrapper does not end when the wrapped conversion does not. *)
Lemma wrap_convert_context_diverges (E : environ) {A : Type} (fn : M A) s :
  fn (context_entered s) = None -> wrap_convert_context E fn s = None.
Proof. intros Hfn. unfold wrap_convert_context. by rewrite Hfn. Qed.

(** What the wrapper leaves of the registries is what [fn] left. *)
Lemma wrap_convert_context_inv (E : environ) {A : Type} (fn : M A) s r s' :
  wrap_convert_context E fn s = Some (r, s') ->
  exists s2, fn (context_entered s) = Some (r, s2) /\
    input_codes s' = input_codes s2 /\ output_codes s' = output_codes s2 /\
    log s' = log s2.
Proof.
  unfold wrap_convert_context.
  destruct (fn (context_entered s)) as [[r2 s2]|]; [| done].
  intros [= <- <-]. by exists s2.
Qed.

(* ===================================================================== *)
(** * The verifying backend wrapper *)
(* ===================================================================== *)

Section WrapperBackendFacts.

Variable K : collaborators.
Variable E : environ.

(** With [config.verify_correctness] on, the compiler function is a
    [WrapperBackend]; it returns the original forward when the backend
    returns [None], and puts every callable the backend returns to the
    test, a forward of the graph module as any other: the original forward
    and the candidate are run on clones of the example inputs, the
    candidate is returned when [same] accepts the two results, and a
    [RuntimeError] is raised when it does not. *)
Lemma WrapperBackend_verifies (backend gm : nat)
    (example_inputs : list nat) (w w1 : torch_state)
    (candidate : option nat) :
  verify_correctness (cfg E) = true ->
  call_backend K backend (deepcopy K gm) (clone_inputs K example_inputs) w
    = (Ret candidate, w1) ->
  let inputs := clone_inputs K (clone_inputs K example_inputs) in
  let forward := gm_forward K gm in
  let run := WrapperBackend_call K E backend gm example_inputs w in
  wrap_compiler_fn E backend = WrapperBackend backend /\
  (candidate = None -> run = (Ret forward, w1, [])) /\
  (forall f correct w2 result w3,
     candidate = Some f ->
     call K forward inputs w1 = (Ret correct, w2) ->
     call K f inputs w2 = (Ret result, w3) ->
     run = if same K correct result
           then (Ret f, checkpoint_params K gm w w3, [])
           else (Raise (RuntimeError "incorrect results of backend"),
                 checkpoint_params K gm w w3,
                 [(ERROR, MsgVerifyCorrectness)])) /\
  (forall f w' records,
     run = (Ret f, w', records) ->
     (candidate = None /\ f = forward) \/
     exists correct w2 result w3,
       candidate = Some f /\
       call K forward inputs w1 = (Ret correct, w2) /\
       call K f inputs w2 = (Ret result, w3) /\
       same K correct result = true).
Proof.
  intros Hverify Hbackend inputs forward run.
  split; [unfold wrap_compiler_fn; by rewrite Hverify |].
  subst run. unfold WrapperBackend_call. rewrite Hbackend, Hverify.
  fold forward. fold inputs. cbn [negb].
  split; [| split].
  - by intros ->.
  - intros f correct w2 result w3 -> Hfwd Hcand.
    rewrite Hfwd, Hcand. by destruct (same K correct result).
  - intros f w' records Hrun.
    destruct candidate as [c|]; [| left; by injection Hrun as <-].
    right.
    destruct (call K forward inputs w1) as [[correct|e] w2] eqn:Hfwd;
      [| done].
    destruct (call K c inputs w2) as [[result|e] w3] eqn:Hcand; [| done].
    destruct (same K correct result) eqn:Hsame; [| done].
    injection Hrun as <- _ _. by exists correct, w2, result, w3.
Qed.

End WrapperBackendFacts.

(** C9, at an input where the code departs from it: the graph module
    draws random numbers, and the backend declines by handing back the
    graph module's forward.  The wrapper does not return the forward: it
    runs it twice, on a generator that has moved on in between, [same]
    rejects the two results, and [RuntimeError] is raised. *)
Theorem verify_correctness_rejects_forward :
  verify_correctness (cfg (sample_environ verifying_config None)) = true /\
  call_backend sampling_collaborators 0 (deepcopy sampling_collaborators 10)
    [5] sample_torch
    = (Ret (Some (gm_forward sampling_collaborators 10)), sample_torch) /\
  WrapperBackend_call sampling_collaborators
    (sample_environ verifying_config None) 0 10 [5] sample_torch
  = (Raise (RuntimeError "incorrect results of backend"), sample_torch,
     [(ERROR, MsgVerifyCorrectness)]).
Proof. split; [reflexivity | split; vm_compute; reflexivity]. Qed.

(* ===================================================================== *)
(** * The retry loop *)
(* ===================================================================== *)

Section LoopFacts.

Variable K : collaborators.
Variable E : environ.
Variable compiler_fn : compiler.
Variables one_graph export : bool.
Variable fr : frame.

Local Abbreviation try_attempt :=
  (attempt_transform K E compiler_fn one_graph export fr).
Local Abbreviation loop := (retry_loop K E compiler_fn one_graph export fr).
Local Abbreviation restarted := (restarts K E compiler_fn one_graph export fr).

(** The tracer and the bytecode passes act on the torch globals only. *)
Lemma attempt_transform_registries attempt s r s1 :
  try_attempt attempt s = (r, s1) ->
  input_codes s1 = input_codes s /\ output_codes s1 = output_codes s /\
  log s1 = log s.
Proof.
  unfold attempt_transform, on_torch.
  destruct (transform_code_object _ _ _ _) as [r0 w].
  by intros [= <- <-].
Qed.

(** One round of the loop, by what the attempt does. *)
Lemma retry_loop_restart fuel attempt s s1 :
  try_attempt attempt s = (Raise RestartAnalysis, s1) ->
  attempt <= 100 ->
  loop (S fuel) attempt s = loop fuel (S attempt) (log_at DEBUG MsgRestarting s1).
Proof.
  intros Htry Hle. cbn [retry_loop]. rewrite Htry.
  apply Nat.ltb_ge in Hle. by rewrite Hle.
Qed.

Lemma retry_loop_ceiling fuel attempt s s1 :
  try_attempt attempt s = (Raise RestartAnalysis, s1) ->
  100 < attempt ->
  loop (S fuel) attempt s
    = Some (Raise (Unsupported "100+ RestartAnalysis() calls" []),
            log_at DEBUG MsgRestarting s1).
Proof.
  intros Htry Hlt. cbn [retry_loop]. rewrite Htry.
  apply Nat.ltb_lt in Hlt. by rewrite Hlt.
Qed.

Lemma retry_loop_skip fuel attempt s s1 :
  try_attempt attempt s = (Raise SkipFrame, s1) ->
  loop (S fuel) attempt s
    = Some (Ret ReturnNone,
            let s2 := log_at DEBUG (MsgSkippingFrame (f_code fr)) s1 in
            if one_graph then log_at DEBUG MsgNoGraphOneGraph s2 else s2).
Proof. intros Htry. cbn [retry_loop]. by rewrite Htry. Qed.

Lemma retry_loop_break fuel attempt s c output s1 :
  try_attempt attempt s = (Ret (c, output), s1) ->
  loop (S fuel) attempt s
    = Some (Ret (Break c output),
            with_orig_code_map (<[code_id c := code_id (f_code fr)]>) s1).
Proof. intros Htry. cbn [retry_loop]. by rewrite Htry. Qed.

Lemma retry_loop_raise fuel attempt s e s1 :
  try_attempt attempt s = (Raise e, s1) ->
  e <> RestartAnalysis -> e <> SkipFrame ->
  loop (S fuel) attempt s = Some (Raise e, s1).
Proof.
  intros Htry Hr Hs. cbn [retry_loop]. rewrite Htry. by destruct e.
Qed.

(** After [n] restarts the loop is at attempt [n]. *)
Lemma retry_loop_restarts n s sn :
  restarted n s sn ->
  forall fuel, loop (n + fuel) 0 s = loop fuel n sn.
Proof.
  induction 1 as [s | n s s1 s2 _ IH Htry Hle]; intros fuel; [done |].
  replace (S n + fuel) with (n + S fuel) by lia.
  rewrite IH. by apply retry_loop_restart.
Qed.

Lemma restarts_bound n s sn : restarted n s sn -> n <= 101.
Proof. destruct 1; lia. Qed.

Lemma restarts_registries n s sn :
  restarted n s sn ->
  input_codes sn = input_codes s /\ output_codes sn = output_codes s.
Proof.
  induction 1 as [s | n s s1 s2 _ [IHi IHo] Htry Hle]; [done |].
  apply attempt_transform_registries in Htry as (Hi & Ho & _).
  cbn. by rewrite Hi, Ho.
Qed.

(** The loop ends: the attempts [attempt .. 101] are all it can run. *)
Lemma retry_loop_total fuel :
  forall attempt s, 101 - attempt < fuel ->
    exists r s', loop fuel attempt s = Some (r, s').
Proof.
  induction fuel as [|fuel IH]; intros attempt s Hfuel; [lia |].
  cbn [retry_loop].
  destruct (try_attempt attempt s) as [[[c output]|e] s1]; [eauto |].
  destruct e; eauto.
  destruct (Nat.ltb 100 attempt) eqn:Hceil; [eauto |].
  apply Nat.ltb_ge in Hceil. apply IH. lia.
Qed.

(** More fuel does not change what the loop does. *)
Lemma retry_loop_fuel_mono fuel :
  forall fuel' attempt s out, fuel <= fuel' ->
    loop fuel attempt s = Some out -> loop fuel' attempt s = Some out.
Proof.
  induction fuel as [|fuel IH]; intros fuel' attempt s out Hle; [done |].
  destruct fuel' as [|fuel']; [lia |]. cbn [retry_loop].
  destruct (try_attempt attempt s) as [[[c output]|e] s1]; [done |].
  destruct e; try done.
  destruct (Nat.ltb 100 attempt); [done |]. apply IH. lia.
Qed.

(** The loop leaves the two trackers alone. *)
Lemma retry_loop_registries fuel :
  forall attempt s r s', loop fuel attempt s = Some (r, s') ->
    input_codes s' = input_codes s /\ output_codes s' = output_codes s.
Proof.
  induction fuel as [|fuel IH]; intros attempt s r s'; [done |].
  cbn [retry_loop].
  destruct (try_attempt attempt s) as [[[c output]|e] s1] eqn:Htry;
    apply attempt_transform_registries in Htry as (Hi & Ho & _).
  { intros [= <- <-]. by cbn. }
  destruct e; try (intros [= <- <-]; by cbn).
  - destruct (Nat.ltb 100 attempt).
    + intros [= <- <-]. by cbn.
    + intros Hloop. apply IH in Hloop as [Hi' Ho']. cbn in Hi', Ho'.
      by rewrite Hi', Ho'.
  - intros [= <- <-]. by destruct one_graph; cbn.
Qed.

(** A [RestartAnalysis] at an attempt numbered at most 100 makes the loop
    run the transformation again from the beginning as the next attempt;
    at an attempt numbered above 100 it makes the loop raise [Unsupported]
    instead; and the loop always ends: started at attempt 0 it comes to a
    result within 102 attempts, the same result whatever larger bound is
    put on the number of rounds. *)
Lemma retry_loop_bounded (s : state) :
  (forall fuel attempt s0 s1,
     try_attempt attempt s0 = (Raise RestartAnalysis, s1) ->
     attempt <= 100 ->
     loop (S fuel) attempt s0
       = loop fuel (S attempt) (log_at DEBUG MsgRestarting s1)) /\
  (forall fuel attempt s0 s1,
     try_attempt attempt s0 = (Raise RestartAnalysis, s1) ->
     100 < attempt ->
     loop (S fuel) attempt s0
       = Some (Raise (Unsupported "100+ RestartAnalysis() calls" []),
               log_at DEBUG MsgRestarting s1)) /\
  (exists r s', loop 102 0 s = Some (r, s') /\
     forall fuel, 102 <= fuel -> loop fuel 0 s = Some (r, s')).
Proof.
  split; [| split].
  - intros. by apply retry_loop_restart.
  - intros. by apply retry_loop_ceiling.
  - destruct (retry_loop_total 102 0 s) as (r & s' & Hrun); [lia |].
    exists r, s'. split; [done |]. intros fuel Hfuel.
    by apply (retry_loop_fuel_mono 102).
Qed.

End LoopFacts.

(* ===================================================================== *)
(** * Classifying a frame *)
(* ===================================================================== *)

Lemma Tracker_add_elem (idx : nat) (t : Tracker.t) :
  idx ∈ Tracker.seen_ids (Tracker.add idx t).
Proof.
  unfold Tracker.add. case_decide; [done |]. cbn.
  apply elem_of_union_r, elem_of_singleton. reflexivity.
Qed.

Lemma Tracker_contains_true (t : Tracker.t) (idx : nat) :
  Tracker.contains t idx = true <-> idx ∈ Tracker.seen_ids t.
Proof. unfold Tracker.contains. apply bool_decide_eq_true. Qed.

Section ClassifierFacts.

Variable K : collaborators.
Variable E : environ.

(** The tensor test always ends; it adds one debug record when it answers
    [False], and changes nothing otherwise. *)
Lemma has_tensor_in_frame_ends (fr : frame) (s : state) :
  exists r s1,
    has_tensor_in_frame K E fr s = Some (r, s1) /\
    s1 = match r with
         | Ret false => log_at DEBUG (MsgNoTorch (f_code fr)) s
         | _ => s
         end.
Proof.
  unfold has_tensor_in_frame.
  destruct (bool_decide _); [by eexists _, _ |].
  destruct (existsb _ _); [by eexists _, _ |].
  destruct (scan_locals _ _ _ _ _) as [[[|]|e] seen']; by eexists _, _.
Qed.

Lemma has_tensor_in_frame_state (fr : frame) s r s1 :
  has_tensor_in_frame K E fr s = Some (r, s1) ->
  s1 = match r with
       | Ret false => log_at DEBUG (MsgNoTorch (f_code fr)) s
       | _ => s
       end.
Proof.
  intros Hrun. destruct (has_tensor_in_frame_ends fr s) as (r0 & s0 & Hends & ->).
  rewrite Hrun in Hends. by injection Hends as <- ->.
Qed.

(** The message of an exception without a [real_stack] can always be
    built. *)
Lemma format_error_msg_plain (e : exn) (fr : frame) :
  real_stack_of e = None ->
  format_error_msg E e fr = Ret (MsgWontConvert e (f_code fr)).
Proof.
  intros Hplain. unfold format_error_msg. rewrite Hplain.
  by destruct (verbose (cfg E)).
Qed.

Lemma reraised_as_is_plain (e : exn) :
  reraised_as_is e = false -> real_stack_of e = None.
Proof. by destruct e. Qed.

(** The [except] clauses raise, and change the log at most. *)
Lemma convert_except_raises {A : Type} (e : exn) (fr : frame) s
    (r : res A) s' :
  convert_except E e fr s = (r, s') ->
  (exists e', r = Raise e') /\
  (s' = s \/ exists msg, s' = log_at ERROR msg s).
Proof.
  unfold convert_except, log_error_and_raise.
  destruct (reraised_as_is e); [| destruct (is_exception e)];
    try destruct (format_error_msg E e fr) as [msg|e'];
    intros [= <- <-]; (split; [by eexists |]); eauto.
Qed.

Section OneFrame.

Variable compiler_fn : compiler.
Variable guard_export_fn : option (list string -> res unit).
Variables one_graph export : bool.
Variable fuel : nat.
Variable fr : frame.
Variable cache_size : Z.

Local Abbreviation convert :=
  (_convert_frame_assert K E compiler_fn guard_export_fn one_graph export
     fuel fr cache_size).

(** The tests of [_convert_frame_assert], in the order it makes them. *)
Lemma _convert_frame_assert_order (s : state) :
  convert s =
  if returns_early E fr (entered fr s) then Some (Ret None, entered fr s)
  else if is_generator K (f_code fr)
  then Some (unimplemented "generator", entered fr s)
  else if (cache_size_limit (cfg E) <=? cache_size)%Z
  then Some (cache_size_limit_reached E (f_code fr) (entered fr s))
  else
    match has_tensor_in_frame K E fr (entered fr s) with
    | None => None
    | Some (Raise e, s1) => Some (Raise e, s1)
    | Some (Ret false, s1) => Some (Ret None, s1)
    | Some (Ret true, s1) =>
        convert_traced K E compiler_fn guard_export_fn one_graph export
          fuel fr s1
    end.
Proof.
  unfold _convert_frame_assert, returns_early, entered.
  repeat lazymatch goal with
    | |- (if ?b then _ else _) = _ =>
        destruct b; cbn [orb]; [reflexivity |]
    end.
  reflexivity.
Qed.

Lemma returns_early_entered (s : state) :
  returns_early E fr (entered fr s) = returns_early E fr s.
Proof. reflexivity. Qed.

Lemma cache_size_limit_reached_raises (c : code) (s : state) :
  exists e s', cache_size_limit_reached E c s = (Raise e, s').
Proof.
  unfold cache_size_limit_reached, unimplemented.
  destruct (guard_failures E c) as [failures|]; [| eauto].
  destruct (last failures); eauto.
Qed.

Lemma install_success (c : code) (output : OutputGraph) s gc s' :
  install K guard_export_fn fr c output s = (Ret (Some gc), s') ->
  gc_code gc = c /\
  output_codes s' = Tracker.add (code_id c) (output_codes s).
Proof.
  unfold install.
  destruct (guards output) as [gs|]; [| done].
  destruct (CheckFunctionManager K gs fr) as [check_fn|]; [| done].
  destruct guard_export_fn as [export_fn|].
  - destruct (export_fn gs); [| done]. by intros [= <- <-].
  - by intros [= <- <-].
Qed.

(** What the outer [try] returns, its body returned. *)
Lemma convert_traced_returns s r s' :
  convert_traced K E compiler_fn guard_export_fn one_graph export fuel fr s
    = Some (Ret r, s') ->
  convert_try K E compiler_fn guard_export_fn one_graph export fuel fr s
    = Some (Ret r, s').
Proof.
  unfold convert_traced.
  destruct (convert_try _ _ _ _ _ _ _ _ _) as [[[r0|e] s1]|]; try done.
  destruct (convert_except E e fr s1) as [r1 s2] eqn:Hexcept.
  apply convert_except_raises in Hexcept as [[e' ->] _]. done.
Qed.

Lemma convert_traced_success s gc s' :
  convert_traced K E compiler_fn guard_export_fn one_graph export fuel fr s
    = Some (Ret (Some gc), s') ->
  code_id (gc_code gc) ∈ Tracker.seen_ids (output_codes s').
Proof.
  intros Hrun%convert_traced_returns. revert Hrun. unfold convert_try.
  destruct (retry_loop _ _ _ _ _ _ _ _ _) as [[[[c output|]|e] s1]|];
    try done.
  destruct (install _ _ _ _ _ _) as [[r|e] s2] eqn:Hinstall; [| done].
  intros [= -> ->]. apply install_success in Hinstall as [-> ->].
  apply Tracker_add_elem.
Qed.

Lemma _convert_frame_assert_success s gc s' :
  convert s = Some (Ret (Some gc), s') ->
  (cache_size < cache_size_limit (cfg E))%Z /\
  code_id (gc_code gc) ∈ Tracker.seen_ids (output_codes s').
Proof.
  rewrite _convert_frame_assert_order.
  destruct (returns_early _ _ _); [done |].
  destruct (is_generator _ _); [done |].
  destruct (Z.leb_spec (cache_size_limit (cfg E)) cache_size).
  { destruct (cache_size_limit_reached_raises (f_code fr) (entered fr s))
      as (e & s2 & ->). done. }
  destruct (has_tensor_in_frame _ _ _ _) as [[[[|]|e] s1]|]; try done.
  intros Hconv. split; [done |]. by apply convert_traced_success in Hconv.
Qed.

Lemma _convert_frame_assert_traced s s1 :
  reaches_tracer K E fr cache_size s s1 ->
  convert s =
    convert_traced K E compiler_fn guard_export_fn one_graph export fuel
      fr s1.
Proof.
  intros (Hearly & Hgen & Hcache & Htensor).
  rewrite _convert_frame_assert_order, Hearly, Hgen, Htensor.
  apply Z.leb_gt in Hcache. by rewrite Hcache.
Qed.

Lemma reaches_tracer_state s s1 :
  reaches_tracer K E fr cache_size s s1 -> s1 = entered fr s.
Proof. intros (_ & _ & _ & Htensor). by apply has_tensor_in_frame_state in Htensor. Qed.

End OneFrame.

End ClassifierFacts.

(* ===================================================================== *)
(** * The entry points *)
(* ===================================================================== *)

Section EntryPointFacts.

Variable K : collaborators.
Variable E : environ.
Variable compiler_fn : nat.
Variable guard_export_fn : option (list string -> res unit).
Variable fuel : nat.
Variable fr : frame.
Variable cache_size : Z.

Local Abbreviation inner one_graph export :=
  (_convert_frame_assert K E (wrap_compiler_fn E compiler_fn) guard_export_fn
     one_graph export fuel fr cache_size).
Local Abbreviation outer one_graph export :=
  (convert_frame_assert K E compiler_fn guard_export_fn one_graph export
     fuel fr cache_size).
Local Abbreviation catching :=
  (_convert_frame K E compiler_fn guard_export_fn fuel fr cache_size).

(** [convert_frame_assert] ends as [_convert_frame_assert] does. *)
Lemma convert_frame_assert_run one_graph export s r s2 :
  inner one_graph export (context_entered s) = Some (r, s2) ->
  exists s', outer one_graph export s = Some (r, s') /\
    input_codes s' = input_codes s2 /\ output_codes s' = output_codes s2 /\
    log s' = log s2.
Proof.
  intros Hinner. unfold convert_frame_assert, wrap_convert_context.
  rewrite Hinner. by eexists.
Qed.

Lemma convert_frame_assert_inv one_graph export s r s' :
  outer one_graph export s = Some (r, s') ->
  exists s2, inner one_graph export (context_entered s) = Some (r, s2) /\
    input_codes s' = input_codes s2 /\ output_codes s' = output_codes s2 /\
    log s' = log s2.
Proof. apply wrap_convert_context_inv. Qed.

(** What [_convert_frame] makes of each outcome of the inner converter. *)
Lemma _convert_frame_returns s result s2 :
  outer false false (count_frame_total s) = Some (Ret result, s2) ->
  catching s = Some (Ret result, count_frame_ok s2).
Proof. intros Hin. unfold _convert_frame. by rewrite Hin. Qed.

Lemma _convert_frame_raises s e s2 :
  outer false false (count_frame_total s) = Some (Raise e, s2) ->
  catching s =
    match e with
    | BackendCompilerFailed => Some (Raise BackendCompilerFailed, s2)
    | AssertionError =>
        if raise_on_assertion_error (cfg E)
        then Some (Raise AssertionError, s2) else Some (Ret None, s2)
    | _ => if is_exception e then Some (Ret None, s2) else Some (Raise e, s2)
    end.
Proof. intros Hin. unfold _convert_frame. rewrite Hin. by destruct e. Qed.

Lemma _convert_frame_success s gc s' :
  catching s = Some (Ret (Some gc), s') ->
  exists s2, outer false false (count_frame_total s)
               = Some (Ret (Some gc), s2) /\
             output_codes s' = output_codes s2.
Proof.
  unfold _convert_frame.
  destruct (convert_frame_assert _ _ _ _ _ _ _ _ _ _) as [[[result|e] s2]|];
    [| | done].
  - intros [= -> <-]. by exists s2.
  - destruct e; try done. by destruct (raise_on_assertion_error (cfg E)).
Qed.

(** C1: a frame whose code object is in [output_codes] is not traced:
    both entry points return [None] for it, leaving the tracker and the
    log as they were; and the code object of every [GuardedCode] that an
    entry point returns is in [output_codes] when it returns. *)
Theorem output_code_never_retraced one_graph export (s : state) :
  (code_id (f_code fr) ∈ Tracker.seen_ids (output_codes s) ->
     (exists s', outer one_graph export s = Some (Ret None, s') /\
                 output_codes s' = output_codes s /\ log s' = log s) /\
     (exists s', catching s = Some (Ret None, s') /\
                 output_codes s' = output_codes s /\ log s' = log s)) /\
  (forall gc s',
     outer one_graph export s = Some (Ret (Some gc), s') ->
     code_id (gc_code gc) ∈ Tracker.seen_ids (output_codes s')) /\
  (forall gc s',
     catching s = Some (Ret (Some gc), s') ->
     code_id (gc_code gc) ∈ Tracker.seen_ids (output_codes s')).
Proof.
  assert (Hskip : forall og ex s0,
    code_id (f_code fr) ∈ Tracker.seen_ids (output_codes s0) ->
    exists s', outer og ex s0 = Some (Ret None, s') /\
               output_codes s' = output_codes s0 /\ log s' = log s0).
  { intros og ex s0 Hin. apply Tracker_contains_true in Hin.
    destruct (convert_frame_assert_run og ex s0 (Ret None)
                (entered fr (context_entered s0)))
      as (s' & Hrun & _ & Ho & Hl).
    - rewrite _convert_frame_assert_order.
      unfold returns_early. cbn [entered context_entered output_codes
        with_input_codes with_torch]. by rewrite Hin.
    - by exists s'. }
  assert (Hadd : forall og ex s0 gc s',
    outer og ex s0 = Some (Ret (Some gc), s') ->
    code_id (gc_code gc) ∈ Tracker.seen_ids (output_codes s')).
  { intros og ex s0 gc s' Hout.
    apply convert_frame_assert_inv in Hout as (s2 & Hin & _ & -> & _).
    by apply _convert_frame_assert_success in Hin as [_ ?]. }
  split; [| split].
  - intros Hin. split; [by apply Hskip |].
    destruct (Hskip false false (count_frame_total s) Hin)
      as (s2 & Hrun & Ho & Hl).
    exists (count_frame_ok s2). by rewrite (_convert_frame_returns _ _ _ Hrun).
  - apply Hadd.
  - intros gc s' Hcatch.
    apply _convert_frame_success in Hcatch as (s2 & Hout & ->).
    by apply Hadd in Hout.
Qed.


(** C5, as the code has it: for a frame that the opening tests let
    through, the generator test comes first, the cache-size test second
    and the tensor test last.  A generator frame is rejected with
    [Unsupported], whatever its locals hold and whatever the cache size;
    a frame at the cache limit raises, whatever its locals hold; only
    below the limit does a frame without tensors return [None]. *)
Theorem classifier_order one_graph export (s : state) :
  returns_early E fr s = false ->
  (is_generator K (f_code fr) = true ->
     exists s', outer one_graph export s
                  = Some (Raise (Unsupported "generator" []), s') /\
                log s' = log s) /\
  (is_generator K (f_code fr) = false ->
   (cache_size_limit (cfg E) <= cache_size)%Z ->
     exists e s', outer one_graph export s = Some (Raise e, s') /\
       forall l, (l, MsgNoTorch (f_code fr)) ∈ log s' ->
                 (l, MsgNoTorch (f_code fr)) ∈ log s) /\
  (forall s1,
     is_generator K (f_code fr) = false ->
     (cache_size < cache_size_limit (cfg E))%Z ->
     has_tensor_in_frame K E fr (entered fr (context_entered s))
       = Some (Ret false, s1) ->
     exists s', outer one_graph export s = Some (Ret None, s') /\
                log s' = log s ++ [(DEBUG, MsgNoTorch (f_code fr))]).
Proof.
  intros Hearly.
  assert (Hearly' : returns_early E fr (entered fr (context_entered s)) = false)
    by exact Hearly.
  split; [| split].
  - intros Hgen.
    destruct (convert_frame_assert_run one_graph export s
                (Raise (Unsupported "generator" []))
                (entered fr (context_entered s)))
      as (s' & Hrun & _ & _ & Hl); [| by exists s'].
    by rewrite _convert_frame_assert_order, Hearly', Hgen.
  - intros Hgen Hlimit.
    pose proof (_convert_frame_assert_order K E
      (wrap_compiler_fn E compiler_fn) guard_export_fn one_graph export fuel
      fr cache_size (context_entered s)) as Horder.
    rewrite Hearly', Hgen in Horder.
    apply Z.leb_le in Hlimit. rewrite Hlimit in Horder.
    unfold cache_size_limit_reached in Horder.
    destruct (guard_failures E (f_code fr)) as [failures|].
    + destruct (last failures) as [reason|];
        apply convert_frame_assert_run in Horder as (s' & Hrun & _ & _ & Hl);
        eexists _, s'; (split; [exact Hrun |]); rewrite Hl; cbn; [| done].
      intros l [Hin | Hin%list_elem_of_singleton]%elem_of_app; [done |].
      discriminate.
    + apply convert_frame_assert_run in Horder as (s' & Hrun & _ & _ & Hl).
      eexists _, s'. split; [exact Hrun |]. by rewrite Hl.
  - intros s1 Hgen Hcache Htensor.
    pose proof (has_tensor_in_frame_state K E _ _ _ _ Htensor) as Hs1.
    destruct (convert_frame_assert_run one_graph export s (Ret None) s1)
      as (s' & Hrun & _ & _ & Hl).
    + rewrite _convert_frame_assert_order, Hearly', Hgen, Htensor.
      apply Z.leb_gt in Hcache. by rewrite Hcache.
    + exists s'. split; [done |]. by rewrite Hl, Hs1.
Qed.

End EntryPointFacts.

(* ===================================================================== *)
(** * What the tracer raises *)
(* ===================================================================== *)

Section TracerFacts.

Variable K : collaborators.
Variable E : environ.
Variable compiler_fn : nat.
Variable guard_export_fn : option (list string -> res unit).
Variable fuel : nat.
Variable fr : frame.
Variable cache_size : Z.

Local Abbreviation wrapped := (wrap_compiler_fn E compiler_fn).
Local Abbreviation inner one_graph export :=
  (_convert_frame_assert K E wrapped guard_export_fn one_graph export fuel
     fr cache_size).
Local Abbreviation outer one_graph export :=
  (convert_frame_assert K E compiler_fn guard_export_fn one_graph export
     fuel fr cache_size).
Local Abbreviation catching :=
  (_convert_frame K E compiler_fn guard_export_fn fuel fr cache_size).

Lemma restarts_log compiler one_graph export n s sn :
  restarts K E compiler one_graph export fr n s sn ->
  log sn = log s ++ replicate n (DEBUG, MsgRestarting).
Proof.
  induction 1 as [s | n s s1 s2 _ IH Htry Hle].
  - by rewrite app_nil_r.
  - apply attempt_transform_registries in Htry as (_ & _ & Hl).
    cbn [log log_at]. by rewrite Hl, IH, replicate_S_end, app_assoc.
Qed.

(** The loop, seen from the attempt at which the tracer stops
    restarting. *)
Lemma retry_loop_at one_graph export n s1 sn :
  restarts K E wrapped one_graph export fr n s1 sn -> n < fuel ->
  exists m, retry_loop K E wrapped one_graph export fr fuel 0 s1
            = retry_loop K E wrapped one_graph export fr (S m) n sn.
Proof.
  intros Hrestarts Hfuel. exists (fuel - S n).
  rewrite <- (retry_loop_restarts _ _ _ _ _ _ _ _ _ Hrestarts).
  f_equal. lia.
Qed.

(** An exception of the tracer that the loop does not handle reaches the
    handlers of the outer [try]. *)
Lemma tracer_exception one_graph export s s1 n sn e sn' :
  reaches_tracer K E fr cache_size (context_entered s) s1 ->
  restarts K E wrapped one_graph export fr n s1 sn ->
  attempt_transform K E wrapped one_graph export fr n sn = (Raise e, sn') ->
  e <> RestartAnalysis -> e <> SkipFrame -> n < fuel ->
  convert_try K E wrapped guard_export_fn one_graph export fuel fr s1
    = Some (Raise e, sn') /\
  inner one_graph export (context_entered s)
    = Some (convert_except E e fr sn').
Proof.
  intros Hreach Hrestarts Htry Hr Hs Hfuel.
  assert (Htried :
    convert_try K E wrapped guard_export_fn one_graph export fuel fr s1
      = Some (Raise e, sn')).
  { unfold convert_try.
    destruct (retry_loop_at one_graph export n s1 sn Hrestarts Hfuel)
      as [m ->].
    by rewrite (retry_loop_raise _ _ _ _ _ _ _ _ _ _ _ Htry Hr Hs). }
  split; [done |].
  rewrite (_convert_frame_assert_traced _ _ _ _ _ _ _ _ _ _ _ Hreach).
  unfold convert_traced. by rewrite Htried.
Qed.

(** The same, when the message of the exception can be built: the
    exception is logged, and raised again or replaced. *)
Lemma tracer_exception_logged one_graph export s s1 n sn e sn' :
  reaches_tracer K E fr cache_size (context_entered s) s1 ->
  restarts K E wrapped one_graph export fr n s1 sn ->
  attempt_transform K E wrapped one_graph export fr n sn = (Raise e, sn') ->
  e <> RestartAnalysis -> e <> SkipFrame -> n < fuel ->
  real_stack_of e = None -> is_exception e = true ->
  inner one_graph export (context_entered s) =
    Some (Raise (if reraised_as_is e then e else InternalTorchDynamoError),
          log_at ERROR (MsgWontConvert e (f_code fr)) sn').
Proof.
  intros Hreach Hrestarts Htry Hr Hs Hfuel Hplain Hexn.
  destruct (tracer_exception one_graph export _ _ _ _ _ _ Hreach Hrestarts
              Htry Hr Hs Hfuel) as [_ ->].
  unfold convert_except, log_error_and_raise.
  rewrite (format_error_msg_plain E e fr Hplain), Hexn.
  by destruct (reraised_as_is e).
Qed.

(** C7: when the tracer raises [SkipFrame] (at the first attempt or after
    restarts), [convert_frame_assert] returns [None]; it raises nothing,
    every record it logs is at debug level, the skip among them, and
    [output_codes] is left as it was: the code object is not marked. *)
Theorem skip_frame_runs_original one_graph export s s1 n sn sn' :
  reaches_tracer K E fr cache_size (context_entered s) s1 ->
  restarts K E wrapped one_graph export fr n s1 sn ->
  attempt_transform K E wrapped one_graph export fr n sn
    = (Raise SkipFrame, sn') ->
  n < fuel ->
  exists s',
    outer one_graph export s = Some (Ret None, s') /\
    output_codes s' = output_codes s /\
    log s' = log s ++ replicate n (DEBUG, MsgRestarting) ++
             (DEBUG, MsgSkippingFrame (f_code fr)) ::
             (if one_graph then [(DEBUG, MsgNoGraphOneGraph)] else []).
Proof.
  intros Hreach Hrestarts Htry Hfuel.
  pose proof (reaches_tracer_state _ _ _ _ _ _ Hreach) as Hs1.
  pose proof (restarts_registries _ _ _ _ _ _ _ _ _ Hrestarts) as [_ Hon].
  pose proof (restarts_log _ _ _ _ _ _ Hrestarts) as Hln.
  pose proof (attempt_transform_registries _ _ _ _ _ _ _ _ _ _ Htry)
    as (_ & Ho' & Hl').
  destruct (retry_loop_at one_graph export n s1 sn Hrestarts Hfuel)
    as [m Hloop].
  rewrite (retry_loop_skip _ _ _ _ _ _ _ _ _ _ Htry) in Hloop.
  destruct (convert_frame_assert_run K E compiler_fn guard_export_fn fuel fr
              cache_size one_graph export s (Ret None)
              (let s2 := log_at DEBUG (MsgSkippingFrame (f_code fr)) sn' in
               if one_graph then log_at DEBUG MsgNoGraphOneGraph s2 else s2))
    as (s' & Hrun & _ & Ho & Hl).
  { rewrite (_convert_frame_assert_traced _ _ _ _ _ _ _ _ _ _ _ Hreach).
    unfold convert_traced, convert_try. by rewrite Hloop. }
  exists s'. split; [done |]. rewrite Ho, Hl. subst s1.
  destruct one_graph; cbn; rewrite ?Ho', ?Hl', ?Hon, ?Hln; cbn;
    (split; [done |]); by rewrite <- ?app_assoc.
Qed.

(** C3: when the tracer's compilation attempt raises
    [BackendCompilerFailed], [convert_frame]'s converter raises it to its
    caller (after the error record); so it does whenever the inner
    converter raises it; and whenever the inner converter raises
    [Unsupported], or the tracer does, the converter returns [None]. *)
Theorem backend_failure_propagates (s : state) :
  (forall s1 n sn sn',
     reaches_tracer K E fr cache_size
       (context_entered (count_frame_total s)) s1 ->
     restarts K E wrapped false false fr n s1 sn ->
     attempt_transform K E wrapped false false fr n sn
       = (Raise BackendCompilerFailed, sn') ->
     n < fuel ->
     exists s', catching s = Some (Raise BackendCompilerFailed, s') /\
       log s' = log sn' ++
         [(ERROR, MsgWontConvert BackendCompilerFailed (f_code fr))]) /\
  (forall s2,
     inner false false (context_entered (count_frame_total s))
       = Some (Raise BackendCompilerFailed, s2) ->
     exists s', catching s = Some (Raise BackendCompilerFailed, s')) /\
  (forall msg real_stack s2,
     inner false false (context_entered (count_frame_total s))
       = Some (Raise (Unsupported msg real_stack), s2) ->
     exists s', catching s = Some (Ret None, s')) /\
  (forall msg real_stack s1 n sn sn',
     reaches_tracer K E fr cache_size
       (context_entered (count_frame_total s)) s1 ->
     restarts K E wrapped false false fr n s1 sn ->
     attempt_transform K E wrapped false false fr n sn
       = (Raise (Unsupported msg real_stack), sn') ->
     n < fuel ->
     exists s', catching s = Some (Ret None, s')).
Proof.
  split; [| split; [| split]].
  - intros s1 n sn sn' Hreach Hrestarts Htry Hfuel.
    pose proof (tracer_exception_logged false false _ _ _ _ _ _ Hreach
                  Hrestarts Htry) as Hin.
    apply convert_frame_assert_run in Hin as (s' & Hrun & _ & _ & Hl);
      try done.
    exists s'. by rewrite (_convert_frame_raises _ _ _ _ _ _ _ _ _ _ Hrun).
  - intros s2 Hin.
    apply convert_frame_assert_run in Hin as (s' & Hrun & _).
    exists s'. by rewrite (_convert_frame_raises _ _ _ _ _ _ _ _ _ _ Hrun).
  - intros msg real_stack s2 Hin.
    apply convert_frame_assert_run in Hin as (s' & Hrun & _).
    exists s'. by rewrite (_convert_frame_raises _ _ _ _ _ _ _ _ _ _ Hrun).
  - intros msg real_stack s1 n sn sn' Hreach Hrestarts Htry Hfuel.
    destruct (tracer_exception false false _ _ _ _ _ _ Hreach Hrestarts Htry)
      as [_ Hin]; [done | done | done |].
    assert (Hhandler : exists e s2,
      convert_except (A := option GuardedCode) E
        (Unsupported msg real_stack) fr sn' = (Raise e, s2) /\
      is_exception e = true /\ e <> BackendCompilerFailed /\
      e <> AssertionError).
    { unfold convert_except, log_error_and_raise, format_error_msg. cbn.
      destruct (verbose (cfg E)); [by eexists _, _ |].
      destruct real_stack; by eexists _, _. }
    destruct Hhandler as (e & s2 & Hexcept & Hexn & Hbcf & Hassert).
    rewrite Hexcept in Hin.
    apply convert_frame_assert_run in Hin as (s' & Hrun & _).
    exists s'. rewrite (_convert_frame_raises _ _ _ _ _ _ _ _ _ _ Hrun).
    destruct e; try done; by rewrite ?Hexn.
Qed.

(** C4, as the code has it: an exception that leaves the body of the
    outer [try], derives from [Exception] and is none of [Unsupported],
    [TorchRuntimeError], [BackendCompilerFailed], [AssertionError] is
    logged and replaced by [InternalTorchDynamoError];
    [convert_frame_assert] raises that to its caller, and
    [convert_frame]'s converter catches it and returns [None].  An
    exception that does not derive from [Exception] goes through both,
    neither logged nor replaced. *)
Theorem unexpected_exception_is_wrapped one_graph export e (s : state) :
  reraised_as_is e = false ->
  (forall s1 s2,
     is_exception e = true ->
     reaches_tracer K E fr cache_size (context_entered s) s1 ->
     convert_try K E wrapped guard_export_fn one_graph export fuel fr s1
       = Some (Raise e, s2) ->
     exists s',
       outer one_graph export s = Some (Raise InternalTorchDynamoError, s') /\
       log s' = log s2 ++ [(ERROR, MsgWontConvert e (f_code fr))]) /\
  (forall s2,
     outer false false (count_frame_total s)
       = Some (Raise InternalTorchDynamoError, s2) ->
     catching s = Some (Ret None, s2)) /\
  (forall s1 s2,
     is_exception e = false ->
     reaches_tracer K E fr cache_size (context_entered s) s1 ->
     convert_try K E wrapped guard_export_fn one_graph export fuel fr s1
       = Some (Raise e, s2) ->
     exists s', outer one_graph export s = Some (Raise e, s') /\
                log s' = log s2) /\
  (forall s2,
     is_exception e = false ->
     outer false false (count_frame_total s) = Some (Raise e, s2) ->
     catching s = Some (Raise e, s2)).
Proof.
  intros Hclass. split; [| split; [| split]].
  - intros s1 s2 Hexn Hreach Htried.
    destruct (convert_frame_assert_run K E compiler_fn guard_export_fn fuel fr
                cache_size one_graph export s (Raise InternalTorchDynamoError)
                (log_at ERROR (MsgWontConvert e (f_code fr)) s2))
      as (s' & Hrun & _ & _ & Hl); [| by exists s'].
    rewrite (_convert_frame_assert_traced _ _ _ _ _ _ _ _ _ _ _ Hreach).
    unfold convert_traced. rewrite Htried.
    unfold convert_except, log_error_and_raise.
    rewrite Hclass, Hexn.
    by rewrite (format_error_msg_plain E e fr (reraised_as_is_plain e Hclass)).
  - intros s2 Hout.
    by rewrite (_convert_frame_raises _ _ _ _ _ _ _ _ _ _ Hout).
  - intros s1 s2 Hexn Hreach Htried.
    destruct (convert_frame_assert_run K E compiler_fn guard_export_fn fuel fr
                cache_size one_graph export s (Raise e) s2)
      as (s' & Hrun & _ & _ & Hl); [| by exists s'].
    rewrite (_convert_frame_assert_traced _ _ _ _ _ _ _ _ _ _ _ Hreach).
    unfold convert_traced. rewrite Htried.
    unfold convert_except. by rewrite Hclass, Hexn.
  - intros s2 Hexn Hout.
    rewrite (_convert_frame_raises _ _ _ _ _ _ _ _ _ _ Hout).
    destruct e; try done.
Qed.

(** At the ceiling: when the attempts 0 to 100 have each ended in a
    [RestartAnalysis] and attempt 101 does too, the loop raises
    [Unsupported], after 102 calls of the tracer.  The first [except]
    clause then builds the error message: under [config.verbose] it logs
    it and the conversion raises the [Unsupported]; otherwise the message
    asks for the last entry of the exception's [real_stack], which is
    empty, and the conversion raises [IndexError], logging no error. *)
Lemma restart_ceiling one_graph export s s1 sn sn' :
  reaches_tracer K E fr cache_size (context_entered s) s1 ->
  restarts K E wrapped one_graph export fr 101 s1 sn ->
  attempt_transform K E wrapped one_graph export fr 101 sn
    = (Raise RestartAnalysis, sn') ->
  101 < fuel ->
  retry_loop K E wrapped one_graph export fr fuel 0 s1
    = Some (Raise (Unsupported "100+ RestartAnalysis() calls" []),
            log_at DEBUG MsgRestarting sn') /\
  exists s',
    outer one_graph export s
      = Some (Raise (if verbose (cfg E)
                     then Unsupported "100+ RestartAnalysis() calls" []
                     else OtherException "IndexError"), s') /\
    log s' = log s ++ replicate 102 (DEBUG, MsgRestarting) ++
      (if verbose (cfg E)
       then [(ERROR, MsgWontConvert
                       (Unsupported "100+ RestartAnalysis() calls" [])
                       (f_code fr))]
       else []).
Proof.
  intros Hreach Hrestarts Htry Hfuel.
  pose proof (reaches_tracer_state _ _ _ _ _ _ Hreach) as Hs1.
  pose proof (restarts_log _ _ _ _ _ _ Hrestarts) as Hln.
  pose proof (attempt_transform_registries _ _ _ _ _ _ _ _ _ _ Htry)
    as (_ & _ & Hl').
  assert (Hloop :
    retry_loop K E wrapped one_graph export fr fuel 0 s1
      = Some (Raise (Unsupported "100+ RestartAnalysis() calls" []),
              log_at DEBUG MsgRestarting sn')).
  { destruct (retry_loop_at one_graph export 101 s1 sn Hrestarts Hfuel)
      as [m ->].
    apply retry_loop_ceiling; [done | lia]. }
  split; [done |].
  assert (Hlog : log (log_at DEBUG MsgRestarting sn')
                 = log s ++ replicate 102 (DEBUG, MsgRestarting)).
  { cbn [log log_at]. rewrite Hl', Hln, Hs1, <- app_assoc.
    by f_equal. }
  destruct (convert_frame_assert_run K E compiler_fn guard_export_fn fuel fr
              cache_size one_graph export s
              (fst (convert_except (A := option GuardedCode) E
                      (Unsupported "100+ RestartAnalysis() calls" []) fr
                      (log_at DEBUG MsgRestarting sn')))
              (snd (convert_except (A := option GuardedCode) E
                      (Unsupported "100+ RestartAnalysis() calls" []) fr
                      (log_at DEBUG MsgRestarting sn'))))
    as (s' & Hrun & _ & _ & Hl).
  { rewrite (_convert_frame_assert_traced _ _ _ _ _ _ _ _ _ _ _ Hreach).
    unfold convert_traced, convert_try. rewrite Hloop.
    by destruct (convert_except _ _ _ _). }
  exists s'. revert Hrun Hl.
  unfold convert_except, log_error_and_raise, format_error_msg.
  cbn [reraised_as_is real_stack_of].
  destruct (verbose (cfg E)); cbn [fst snd]; intros Hrun Hl;
    (split; [exact Hrun |]); rewrite Hl.
  - cbn [log log_at] in Hlog |- *. by rewrite Hlog, <- app_assoc.
  - by rewrite app_nil_r.
Qed.

(** With room for 102 attempts, conversion always comes to an end. *)
Lemma convert_frame_assert_total one_graph export (s : state) :
  102 <= fuel -> exists r s', outer one_graph export s = Some (r, s').
Proof.
  intros Hfuel.
  cut (exists r s2, inner one_graph export (context_entered s) = Some (r, s2)).
  { intros (r & s2 & Hin).
    apply convert_frame_assert_run in Hin as (s' & Hrun & _). eauto. }
  rewrite _convert_frame_assert_order.
  destruct (returns_early _ _ _); [eauto |].
  destruct (is_generator _ _); [eauto |].
  destruct (Z.leb _ _).
  { destruct (cache_size_limit_reached E (f_code fr) _). eauto. }
  destruct (has_tensor_in_frame_ends K E fr
              (entered fr (context_entered s))) as (b & s1 & -> & _).
  destruct b as [[|]|e]; [| eauto | eauto].
  unfold convert_traced, convert_try.
  destruct (retry_loop_total K E wrapped one_graph export fr fuel 0 s1)
    as (r & s2 & ->); [lia |].
  destruct r as [[c output|]|e].
  - destruct (install _ _ _ _ _ _) as [[r|e] s3]; [eauto |].
    destruct (convert_except _ _ _ _); eauto.
  - eauto.
  - destruct (convert_except _ _ _ _); eauto.
Qed.

End TracerFacts.

(** The cache that the hook keeps for a code object does not grow past
    [config.cache_size_limit] through [convert_frame_assert]. *)
Lemma hook_cache_bounded K E compiler_fn guard_export_fn one_graph export fuel
    fr cache s cache' s' :
  hook_cache_miss
    (convert_frame_assert K E compiler_fn guard_export_fn one_graph export fuel)
    fr cache s = Some (Ret cache', s') ->
  (Z.of_nat (length cache')
     <= Z.max (cache_size_limit (cfg E)) (Z.of_nat (length cache)))%Z.
Proof.
  unfold hook_cache_miss.
  destruct (convert_frame_assert _ _ _ _ _ _ _ _ _ _)
    as [[[[gc|]|e] s1]|] eqn:Hconv; try done.
  - intros [= <- <-].
    apply convert_frame_assert_inv in Hconv as (s2 & Hin & _).
    apply _convert_frame_assert_success in Hin as [Hlt _].
    cbn [length]. lia.
  - intros [= <- <-]. lia.
Qed.

(* ===================================================================== *)
(** * The statements at the sample inputs *)
(* ===================================================================== *)

Lemma output_code_never_retraced_witness :
  (exists s',
     convert_frame_assert tracing_ok plain_environ 0 None true false 102
       tensor_frame 0 sample_state_compiled = Some (Ret None, s') /\
     output_codes s' = output_codes sample_state_compiled /\
     log s' = log sample_state_compiled) /\
  (exists gc s',
     convert_frame_assert tracing_ok plain_environ 0 None true false 102
       tensor_frame 0 sample_state = Some (Ret (Some gc), s') /\
     code_id (gc_code gc) ∈ Tracker.seen_ids (output_codes s')).
Proof.
  split.
  - apply (output_code_never_retraced tracing_ok plain_environ 0 None 102
             tensor_frame 0 true false sample_state_compiled).
    apply Tracker_contains_true. vm_compute. reflexivity.
  - eexists _, _. split; [vm_compute; reflexivity |].
    apply (proj1 (proj2 (output_code_never_retraced tracing_ok plain_environ
                           0 None 102 tensor_frame 0 true false sample_state))).
    vm_compute. reflexivity.
Defined.



Lemma backend_failure_propagates_witness :
  (exists s',
     _convert_frame (tracing_raises BackendCompilerFailed) plain_environ 0 None
       102 tensor_frame 0 sample_state
       = Some (Raise BackendCompilerFailed, s')) /\
  (exists s',
     _convert_frame (tracing_raises (Unsupported "call_function" [4]))
       plain_environ 0 None 102 tensor_frame 0 sample_state
       = Some (Ret None, s')).
Proof.
  split.
  - destruct (backend_failure_propagates (tracing_raises BackendCompilerFailed)
                plain_environ 0 None 102 tensor_frame 0 sample_state)
      as (Htracer & _ & _ & _).
    destruct (Htracer
                (entered tensor_frame
                   (context_entered (count_frame_total sample_state)))
                0 _ _ ltac:(repeat split; vm_compute; reflexivity)
                (restarts_none _ _ _ _ _ _ _) eq_refl ltac:(lia))
      as (s' & Hrun & _).
    by exists s'.
  - destruct (backend_failure_propagates
                (tracing_raises (Unsupported "call_function" [4]))
                plain_environ 0 None 102 tensor_frame 0 sample_state)
      as (_ & _ & Hunsupported & _).
    eapply Hunsupported. vm_compute. reflexivity.
Defined.

(** The tracer fails with a [KeyError]: [convert_frame_assert] raises
    [InternalTorchDynamoError], and [convert_frame]'s converter returns
    [None], so its caller sees no exception. *)
Lemma internal_error_counterexample :
  fst <$> convert_frame_assert (tracing_raises (OtherException "KeyError"))
            plain_environ 0 None false false 102 tensor_frame 0 sample_state
    = Some (Raise InternalTorchDynamoError) /\
  fst <$> _convert_frame (tracing_raises (OtherException "KeyError"))
            plain_environ 0 None 102 tensor_frame 0 sample_state
    = Some (Ret None).
Proof. split; vm_compute; reflexivity. Qed.

Lemma unexpected_exception_is_wrapped_witness :
  (exists s',
     convert_frame_assert (tracing_raises (OtherException "KeyError"))
       plain_environ 0 None false false 102 tensor_frame 0 sample_state
       = Some (Raise InternalTorchDynamoError, s') /\
     log s' = log (entered tensor_frame (context_entered sample_state)) ++
       [(ERROR, MsgWontConvert (OtherException "KeyError")
                  (f_code tensor_frame))]) /\
  (exists s',
     _convert_frame (tracing_raises (OtherException "KeyError"))
       plain_environ 0 None 102 tensor_frame 0 sample_state
       = Some (Ret None, s')).
Proof.
  split.
  - destruct (unexpected_exception_is_wrapped
                (tracing_raises (OtherException "KeyError")) plain_environ 0
                None 102 tensor_frame 0 false false (OtherException "KeyError")
                sample_state eq_refl) as [Hwrap _].
    apply (Hwrap (entered tensor_frame (context_entered sample_state))).
    + reflexivity.
    + repeat split; vm_compute; reflexivity.
    + vm_compute. reflexivity.
  - destruct (unexpected_exception_is_wrapped
                (tracing_raises (OtherException "KeyError")) plain_environ 0
                None 102 tensor_frame 0 false false (OtherException "KeyError")
                sample_state eq_refl) as (_ & Hcatch & _).
    eexists. apply Hcatch. vm_compute. reflexivity.
Defined.

(** A generator frame whose only local is a scalar: the tensor test would
    answer [False], yet the conversion raises [Unsupported("generator")];
    it does not return [None]. *)
Lemma classifier_order_counterexample :
  is_generator generators (f_code scalar_frame) = true /\
  fst <$> has_tensor_in_frame generators plain_environ scalar_frame sample_state
    = Some (Ret false) /\
  fst <$> convert_frame_assert generators plain_environ 0 None true false 102
            scalar_frame 0 sample_state
    = Some (Raise (Unsupported "generator" [])) /\
  fst <$> convert_frame_assert generators plain_environ 0 None true false 102
            scalar_frame 0 sample_state
    <> Some (Ret None).
Proof. repeat split; vm_compute; (reflexivity || discriminate). Qed.

Lemma classifier_order_witness :
  (exists s',
     convert_frame_assert generators plain_environ 0 None true false 102
       scalar_frame 0 sample_state
       = Some (Raise (Unsupported "generator" []), s') /\
     log s' = log sample_state) /\
  (exists s',
     convert_frame_assert tracing_ok plain_environ 0 None true false 102
       scalar_frame 0 sample_state = Some (Ret None, s') /\
     log s' = log sample_state ++ [(DEBUG, MsgNoTorch (f_code scalar_frame))]).
Proof.
  split.
  - apply (classifier_order generators plain_environ 0 None 102 scalar_frame
             0 true false sample_state eq_refl).
    reflexivity.
  - eapply (classifier_order tracing_ok plain_environ 0 None 102 scalar_frame
              0 true false sample_state eq_refl).
    + reflexivity.
    + vm_compute. reflexivity.
    + vm_compute. reflexivity.
Defined.

(** C6, at an input where the code departs from it: a frame with a
    tensor whose tracer raises [RestartAnalysis] at every attempt, under
    the configuration of [config.py].  The loop ends: 101 rounds do not
    bring it to its end, the 102nd raises [Unsupported].  The conversion
    does not raise that [Unsupported]: the handler that logs it raises
    [IndexError], which is what [convert_frame_assert] raises, with the
    restarts in the log and no error record.  Under [config.verbose] the
    [Unsupported] is raised. *)
Theorem restart_ceiling_raises_IndexError :
  verbose (cfg plain_environ) = false /\
  retry_loop (tracing_raises RestartAnalysis) plain_environ (UserBackend 0)
    true false tensor_frame 101 0 sample_state = None /\
  fst <$> retry_loop (tracing_raises RestartAnalysis) plain_environ
            (UserBackend 0) true false tensor_frame 102 0 sample_state
    = Some (Raise (Unsupported "100+ RestartAnalysis() calls" [])) /\
  (exists s',
     convert_frame_assert (tracing_raises RestartAnalysis) plain_environ 0
       None true false 102 tensor_frame 0 sample_state
       = Some (Raise (OtherException "IndexError"), s') /\
     log s' = replicate 102 (DEBUG, MsgRestarting)) /\
  fst <$> convert_frame_assert (tracing_raises RestartAnalysis)
            verbose_environ 0 None true false 102 tensor_frame 0 sample_state
    = Some (Raise (Unsupported "100+ RestartAnalysis() calls" [])).
Proof.
  split; [reflexivity |]. split; [vm_compute; reflexivity |].
  split; [vm_compute; reflexivity |]. split; [| vm_compute; reflexivity].
  eexists. split; vm_compute; reflexivity.
Qed.

(** A frame with a tensor is converted: the rewritten code object [2]
    comes back guarded, and the registries record it. *)
Example convert_frame_assert_converts :
  exists s',
    convert_frame_assert tracing_ok plain_environ 0 None true false 102
      tensor_frame 0 sample_state
      = Some (Ret (Some {| gc_code := assemble tracing_ok [] ∅;
                           gc_check_fn := 3 |}), s') /\
    Tracker.seen (output_codes s') = [2] /\
    Tracker.seen (input_codes s') = [1] /\
    orig_code_map s' !! 2 = Some 1 /\
    torch s' = torch sample_state.
Proof. eexists. split; [vm_compute; reflexivity |]. by vm_compute. Qed.

Lemma skip_frame_runs_original_witness :
  exists s',
    convert_frame_assert tracing_skips plain_environ 0 None true false 102
      tensor_frame 0 sample_state = Some (Ret None, s') /\
    output_codes s' = output_codes sample_state /\
    log s' = log sample_state ++ replicate 2 (DEBUG, MsgRestarting) ++
             [(DEBUG, MsgSkippingFrame (f_code tensor_frame));
              (DEBUG, MsgNoGraphOneGraph)].
Proof.
  eapply (skip_frame_runs_original tracing_skips plain_environ 0 None 102
            tensor_frame 0 true false sample_state
            (entered tensor_frame (context_entered sample_state)) 2).
  - repeat split; vm_compute; reflexivity.
  - eapply restarts_again; [eapply restarts_again; [apply restarts_none | |] | |].
    all: try (vm_compute; reflexivity). all: lia.
  - vm_compute. reflexivity.
  - lia.
Defined.

(* ===================================================================== *)
(** * The tensor scan finds what can be reached *)
(* ===================================================================== *)

Set Warnings "-clear-no-such-hyp".

Section ReachabilityFacts.

Variable heap : gmap nat pyobj.
Variable is_allowed : nat -> bool.

Local Abbreviation children := (scanned_children heap is_allowed).
Local Abbreviation tensor_like := (is_tensor_like heap).
Local Abbreviation path := (white_path heap is_allowed).
Local Abbreviation holds := (holds_tensor heap is_allowed).
Local Abbreviation sound := (memo_sound heap is_allowed).
Local Abbreviation scan := (has_tensor heap is_allowed).
Local Abbreviation facts := (call_facts heap is_allowed).
Local Abbreviation facts_all := (children_facts heap is_allowed).

(** One call, by what the object is. *)
Lemma has_tensor_step depth obj_id (seen_ids : gmap nat bool) :
  scan (S depth) obj_id seen_ids =
  match seen_ids !! obj_id with
  | Some b => (Ret b, seen_ids)
  | None =>
      if tensor_like obj_id
      then (Ret true, <[obj_id := true]> (<[obj_id := false]> seen_ids))
      else
        match heap !! obj_id with
        | Some PReturnType =>
            (Raise (OtherException "AttributeError"),
             <[obj_id := false]> seen_ids)
        | _ =>
            match scan_all (scan depth) (children obj_id)
                    (<[obj_id := false]> seen_ids) with
            | (Raise e, seen1) => (Raise e, seen1)
            | (Ret bs, seen1) => (Ret (any bs), <[obj_id := any bs]> seen1)
            end
        end
  end.
Proof.
  cbn [has_tensor]. destruct (seen_ids !! obj_id); [done |].
  unfold is_tensor_like, scanned_children.
  destruct (heap !! obj_id) as [[| | vs | vs | vs | | vs | | [vs|]]|];
    cbn [scan_all any existsb]; rewrite ?insert_insert_eq; try done.
  destruct (negb (is_allowed obj_id) && negb (Nat.eqb (length vs) 0));
    cbn [scan_all any existsb]; by rewrite ?insert_insert_eq.
Qed.

Lemma white_path_start visited u v : path visited u v -> u ∉ visited.
Proof. by destruct 1. Qed.

Lemma white_path_mono (visited visited' : gset nat) u v :
  visited' ⊆ visited -> path visited u v -> path visited' u v.
Proof.
  intros Hsub. induction 1 as [u Hu | u v w Hu Hv _ IH].
  - apply white_here. set_solver.
  - eapply white_step; [set_solver | done | done].
Qed.

Lemma white_path_trans visited u v w :
  path visited u v -> path visited v w -> path visited u w.
Proof.
  induction 1 as [u Hu | u v0 v Hu Hv _ IH]; [done |].
  intros Hw. eapply white_step; eauto.
Qed.

(** A path either stays outside [visited'] or meets it, and goes on from
    there. *)
Lemma white_path_split visited (visited' : gset nat) u t :
  path visited u t ->
  path visited' u t \/ exists x, x ∈ visited' /\ path visited x t.
Proof.
  induction 1 as [u Hu | u v t Hu Hv Hrest IH].
  - destruct (decide (u ∈ visited')) as [Hin | Hout].
    + right. exists u. split; [done |]. by apply white_here.
    + left. by apply white_here.
  - destruct (decide (u ∈ visited')) as [Hin | Hout].
    + right. exists u. split; [done |]. by eapply white_step.
    + destruct IH as [Hwhite | (x & Hx & Hpath)].
      * left. by eapply white_step.
      * right. eauto.
Qed.

(** A path to another object can be taken to leave [x] for good through
    one of its children. *)
Lemma white_path_avoid visited u t x :
  path visited u t -> x <> t ->
  path (visited ∪ {[x]}) u t \/
  exists c, c ∈ children x /\ path (visited ∪ {[x]}) c t.
Proof.
  intros Hpath Hx. induction Hpath as [u Hu | u v t Hu Hv Hrest IH].
  - left. apply white_here. set_solver.
  - destruct (IH Hx) as [Hwhite | Hchild]; [| by right].
    destruct (decide (u = x)) as [-> | Hne].
    + right. eauto.
    + left. eapply white_step; [set_solver | done | done].
Qed.

Lemma scan_all_facts
    (f : nat -> gmap nat bool -> res bool * gmap nat bool) :
  (forall v s b s1, f v s = (Ret b, s1) -> facts v s b s1) ->
  forall vs s bs s',
    scan_all f vs s = (Ret bs, s') -> facts_all vs s bs s'.
Proof.
  intros Hf vs. induction vs as [|v vs IH]; intros s bs s'; cbn [scan_all].
  { intros [= <- <-]. split; [done |]. split; [by left |]. split.
    - intros Hs. by split.
    - intros c t Hc. by apply elem_of_nil in Hc. }
  destruct (f v s) as [[b|e] s1] eqn:Hcall; [| done].
  destruct (scan_all f vs s1) as [[bs'|e] s2] eqn:Hrest; [| done].
  intros [= <- <-].
  apply Hf in Hcall as (H1 & H2 & H3 & H4).
  apply IH in Hrest as (R1 & R2 & R3 & R4).
  split; [set_solver |]. split; [| split].
  - intros u Hu. destruct (R2 u Hu) as [Hu1 | (c & Hc & Hpath)].
    + destruct (H2 u Hu1) as [? | Hpath]; [by left |].
      right. exists v. split; [apply elem_of_cons; by left | done].
    + right. exists c. split; [apply elem_of_cons; by right |].
      by apply (white_path_mono (dom s1)).
  - intros Hs. destruct (H3 Hs) as [Hs1 Hb]. destruct (R3 Hs1) as [Hs2 Hbs].
    split; [done |]. cbn [any existsb]. intros [Htrue | Htrue]%orb_true_iff.
    + exists v. split; [apply elem_of_cons; by left | by apply Hb].
    + destruct (Hbs Htrue) as (c & Hc & Hholds).
      exists c. split; [apply elem_of_cons; by right | done].
  - intros c t Hc Ht Hpath. cbn [any existsb]. apply orb_true_iff.
    apply elem_of_cons in Hc as [-> | Hc]; [left; by eapply H4 |].
    destruct (white_path_split (dom s) (dom s1) c t Hpath)
      as [Hwhite | (x & Hx & Hfrom)].
    + right. by eapply R4.
    + left. apply (H4 t Ht).
      destruct (H2 x Hx) as [Hold | Hreach].
      * by apply white_path_start in Hfrom.
      * by eapply white_path_trans.
Qed.

Lemma memo_sound_premark (seen_ids : gmap nat bool) obj_id :
  sound seen_ids -> sound (<[obj_id := false]> seen_ids).
Proof.
  intros Hs u Hu. destruct (decide (u = obj_id)) as [-> | Hne].
  - by rewrite lookup_insert_eq in Hu.
  - rewrite lookup_insert_ne in Hu by done. by apply Hs.
Qed.

Lemma memo_sound_insert (seen_ids : gmap nat bool) obj_id b :
  sound seen_ids -> (b = true -> holds obj_id) ->
  sound (<[obj_id := b]> seen_ids).
Proof.
  intros Hs Hb u Hu. destruct (decide (u = obj_id)) as [-> | Hne].
  - rewrite lookup_insert_eq in Hu. apply Hb. congruence.
  - rewrite lookup_insert_ne in Hu by done. by apply Hs.
Qed.

Lemma holds_tensor_child obj_id c :
  c ∈ children obj_id -> holds c -> holds obj_id.
Proof.
  intros Hc (t & Ht & Hpath). exists t. split; [done |].
  eapply white_step; [set_solver | done | done].
Qed.

Lemma has_tensor_facts depth :
  forall obj_id seen_ids b seen',
    scan depth obj_id seen_ids = (Ret b, seen') ->
    facts obj_id seen_ids b seen'.
Proof.
  induction depth as [|depth IH]; intros obj_id seen_ids b seen'; [done |].
  rewrite has_tensor_step.
  destruct (seen_ids !! obj_id) as [b0|] eqn:Hseen.
  { intros [= <- <-]. split; [done |]. split; [by left |]. split.
    - intros Hs. split; [done |]. intros ->. by apply Hs.
    - intros t _ Hpath. apply white_path_start in Hpath.
      apply not_elem_of_dom in Hpath. congruence. }
  assert (Hnew : obj_id ∉ dom seen_ids) by by apply not_elem_of_dom.
  destruct (tensor_like obj_id) eqn:Htensor.
  { intros [= <- <-].
    assert (Hself : holds obj_id).
    { exists obj_id. split; [done |]. apply white_here. set_solver. }
    split; [rewrite !dom_insert_L; set_solver |]. split; [| split].
    - intros u. rewrite !dom_insert_L.
      intros [->%elem_of_singleton | [->%elem_of_singleton | Hu]%elem_of_union]%elem_of_union.
      + right. by apply white_here.
      + right. by apply white_here.
      + by left.
    - intros Hs. split; [| done].
      apply memo_sound_insert; [by apply memo_sound_premark | done].
    - done. }
  assert (Hscan :
    match scan_all (scan depth) (children obj_id)
            (<[obj_id := false]> seen_ids) with
    | (Raise e, seen1) => (Raise e, seen1)
    | (Ret bs, seen1) => (Ret (any bs), <[obj_id := any bs]> seen1)
    end = (Ret b, seen') ->
    exists bs seen1,
      scan_all (scan depth) (children obj_id) (<[obj_id := false]> seen_ids)
        = (Ret bs, seen1) /\
      b = any bs /\ seen' = <[obj_id := any bs]> seen1).
  { destruct (scan_all _ _ _) as [[bs|e] seen1]; [| done].
    intros [= <- <-]. by exists bs, seen1. }
  intros Hrun.
  assert (Hkids' : exists bs seen1,
    scan_all (scan depth) (children obj_id) (<[obj_id := false]> seen_ids)
      = (Ret bs, seen1) /\
    b = any bs /\ seen' = <[obj_id := any bs]> seen1).
  { destruct (heap !! obj_id) as [[| | vs | vs | vs | | vs | | [vs|]]|];
      try done; by apply Hscan. }
  clear Hrun Hscan. destruct Hkids' as (bs & seen1 & Hkids & -> & ->).
  apply (scan_all_facts _ IH) in Hkids as (R1 & R2 & R3 & R4).
  rewrite dom_insert_L in R1, R2, R4.
  split; [rewrite dom_insert_L; set_solver |]. split; [| split].
  - intros u. rewrite dom_insert_L.
    intros [->%elem_of_singleton | Hu]%elem_of_union;
      [right; by apply white_here |].
    destruct (R2 u Hu) as [[->%elem_of_singleton | Hu0]%elem_of_union
                          | (c & Hc & Hpath)].
    + right. by apply white_here.
    + by left.
    + right. eapply white_step; [done | done |].
      apply (white_path_mono ({[obj_id]} ∪ dom seen_ids)); [set_solver | done].
  - intros Hs. destruct (R3 (memo_sound_premark _ _ Hs)) as [Hs1 Hbs].
    assert (Hb : any bs = true -> holds obj_id).
    { intros Htrue. destruct (Hbs Htrue) as (c & Hc & Hholds).
      by eapply holds_tensor_child. }
    split; [by apply memo_sound_insert | done].
  - intros t Ht Hpath.
    destruct (white_path_avoid (dom seen_ids) obj_id t obj_id Hpath)
      as [Hwhite | (c & Hc & Hfrom)].
    + intros ->. congruence.
    + apply white_path_start in Hwhite. set_solver.
    + apply (R4 c t Hc Ht).
      by replace ({[obj_id]} ∪ dom seen_ids) with (dom seen_ids ∪ {[obj_id]})
        by set_solver.
Qed.

(** The loop over the locals: its answer, by what the locals reach. *)
Lemma scan_locals_facts depth :
  forall values s b s',
    scan_locals heap is_allowed depth values s = (Ret b, s') ->
    (sound s -> b = true -> exists v, v ∈ values /\ holds v) /\
    (forall c t, c ∈ values -> tensor_like t = true -> path (dom s) c t ->
       b = true).
Proof.
  intros values. induction values as [|v values IH]; intros s b s';
    cbn [scan_locals].
  { intros [= <- <-]. split; [done |].
    intros c t Hc. by apply elem_of_nil in Hc. }
  destruct (scan depth v s) as [[b1|e] s1] eqn:Hcall; [| done].
  apply has_tensor_facts in Hcall as (H1 & H2 & H3 & H4).
  destruct b1.
  - intros [= <- <-]. split; [| done].
    intros Hs _. exists v. split; [apply elem_of_cons; by left |].
    by apply H3.
  - intros Hrest. apply IH in Hrest as [Rs Rc]. split.
    + intros Hs Hb. destruct (H3 Hs) as [Hs1 _].
      destruct (Rs Hs1 Hb) as (c & Hc & Hholds).
      exists c. split; [apply elem_of_cons; by right | done].
    + intros c t Hc Ht Hpath.
      assert (Hnot : ~ path (dom s) v t)
        by (intros Hv; by specialize (H4 t Ht Hv)).
      apply elem_of_cons in Hc as [-> | Hc]; [by destruct Hnot |].
      destruct (white_path_split (dom s) (dom s1) c t Hpath)
        as [Hwhite | (x & Hx & Hfrom)]; [by eapply Rc |].
      destruct (H2 x Hx) as [Hold | Hreach].
      * by apply white_path_start in Hfrom.
      * destruct Hnot. by eapply white_path_trans.
Qed.

Lemma scan_all_raises_only
    (f : nat -> gmap nat bool -> res bool * gmap nat bool) :
  (forall v s e s1, f v s = (Raise e, s1) -> scan_error e) ->
  forall vs s e s', scan_all f vs s = (Raise e, s') -> scan_error e.
Proof.
  intros Hf vs. induction vs as [|v vs IH]; intros s e s'; cbn [scan_all];
    [done |].
  destruct (f v s) as [[b|e0] s1] eqn:Hcall.
  - destruct (scan_all f vs s1) as [[bs|e1] s2] eqn:Hrest; [done |].
    intros [= <- <-]. by eapply IH.
  - intros [= <- <-]. by eapply Hf.
Qed.

Lemma has_tensor_raises_only depth :
  forall obj_id seen_ids e seen',
    scan depth obj_id seen_ids = (Raise e, seen') -> scan_error e.
Proof.
  induction depth as [|depth IH]; intros obj_id seen_ids e seen'.
  { intros [= <- _]. by left. }
  rewrite has_tensor_step.
  destruct (seen_ids !! obj_id); [done |].
  destruct (tensor_like obj_id); [done |].
  assert (Hkids :
    match scan_all (scan depth) (children obj_id)
            (<[obj_id := false]> seen_ids) with
    | (Raise e, seen1) => (Raise e, seen1)
    | (Ret bs, seen1) => (Ret (any bs), <[obj_id := any bs]> seen1)
    end = (Raise e, seen') -> scan_error e).
  { destruct (scan_all _ _ _) as [[bs|e0] seen1] eqn:Hscan; [done |].
    intros [= <- <-]. by apply (scan_all_raises_only _ IH) in Hscan. }
  destruct (heap !! obj_id) as [[| | vs | vs | vs | | vs | | [vs|]]|];
    try apply Hkids.
  intros [= <- _]. by right.
Qed.

Lemma scan_locals_raises_only depth :
  forall values s e s',
    scan_locals heap is_allowed depth values s = (Raise e, s') ->
    scan_error e.
Proof.
  intros values. induction values as [|v values IH]; intros s e s';
    cbn [scan_locals]; [done |].
  destruct (scan depth v s) as [[[|]|e0] s1] eqn:Hcall; [done | apply IH |].
  intros [= <- <-]. by apply has_tensor_raises_only in Hcall.
Qed.

End ReachabilityFacts.

(** X1: when a scan that starts from an empty memo table returns an
    answer, the answer is [True] exactly when a tensor or module can be
    reached from its argument through the containers it looks into; and it
    does return an answer when no object is a [torch.return_types] value
    and the interpreter allows as many nested calls as there are
    objects. *)
Theorem has_tensor_iff_reachable heap is_allowed depth obj_id :
  (forall b seen',
     has_tensor heap is_allowed depth obj_id ∅ = (Ret b, seen') ->
     (b = true <-> holds_tensor heap is_allowed obj_id)) /\
  ((forall u, heap !! u <> Some PReturnType) ->
   scan_depth heap ∅ <= depth ->
   exists b seen', has_tensor heap is_allowed depth obj_id ∅ = (Ret b, seen')).
Proof.
  split.
  - intros b seen' Hrun.
    apply has_tensor_facts in Hrun as (_ & _ & Hsound & Hcomplete).
    rewrite dom_empty_L in Hcomplete. split.
    + intros Hb. by apply Hsound.
    + intros (t & Ht & Hpath). by eapply Hcomplete.
  - unfold scan_depth. intros Hplain Hdepth.
    destruct (has_tensor_scanned heap is_allowed depth obj_id ∅)
      as (r & seen' & Hrun & _ & [[b ->] | (_ & u & Hu & _)]); [lia | |].
    + by exists b, seen'.
    + by destruct (Hplain u).
Qed.

Lemma has_tensor_iff_reachable_witness :
  exists seen',
    has_tensor sample_heap (fun _ => false) 4 7 ∅ = (Ret false, seen') /\
    (false = true <-> holds_tensor sample_heap (fun _ => false) 7).
Proof.
  eexists. split; [vm_compute; reflexivity |].
  eapply (proj1 (has_tensor_iff_reachable sample_heap (fun _ => false) 4 7)).
  vm_compute. reflexivity.
Defined.

(** X2: whatever the memo table a scan starts from, the entries it adds
    are for objects reached from its argument through objects not yet in
    the table; and if every [True] of the table was for an object holding a
    tensor, so is every [True] afterwards ([False] entries can be stale,
    [True] entries never are). *)
Theorem has_tensor_memo_table heap is_allowed depth obj_id
    (seen_ids : gmap nat bool) b seen' :
  has_tensor heap is_allowed depth obj_id seen_ids = (Ret b, seen') ->
  (forall u, u ∈ dom seen' ->
     u ∈ dom seen_ids \/ white_path heap is_allowed (dom seen_ids) obj_id u) /\
  (memo_sound heap is_allowed seen_ids -> memo_sound heap is_allowed seen').
Proof.
  intros Hrun. apply has_tensor_facts in Hrun as (_ & Hnew & Hsound & _).
  split; [done |]. intros Hs. by apply Hsound.
Qed.

(** X3: when [has_tensor_in_frame] answers, it answers [True] exactly
    when the code object is marked always-optimize, or one of the names it
    uses is bound in the frame's globals to an allowed object, or one of
    the frame's locals holds a tensor or module; it logs one debug record
    when the answer is [False] and nothing otherwise.  In the first two
    cases it answers without looking at the locals.  When it raises, it
    raises what the scan of the locals raised, a [RecursionError] or an
    [AttributeError], and logs nothing; it does answer when no object is a
    [torch.return_types] value and the interpreter allows as many nested
    calls as there are objects. *)
Theorem has_tensor_in_frame_iff (K : collaborators) (E : environ)
    (fr : frame) (s : state) :
  let marked := code_id (f_code fr) ∈ always_optimize_code_objects E in
  let allowed_global :=
    exists name g, name ∈ co_names (f_code fr) /\
      f_globals fr !! name = Some g /\ is_allowed K g = true in
  (forall (b : bool) s1,
     has_tensor_in_frame K E fr s = Some (Ret b, s1) ->
     s1 = (if b then s else log_at DEBUG (MsgNoTorch (f_code fr)) s) /\
     (b = true <->
        marked \/ allowed_global \/
        (exists v, v ∈ map snd (f_locals fr) /\
           holds_tensor (heap E) (is_allowed K) v))) /\
  (marked \/ allowed_global ->
   has_tensor_in_frame K E fr s = Some (Ret true, s)) /\
  (forall e s1,
     has_tensor_in_frame K E fr s = Some (Raise e, s1) ->
     s1 = s /\
     (e = OtherException "RecursionError" \/
      e = OtherException "AttributeError")) /\
  ((forall u, heap E !! u <> Some PReturnType) ->
   scan_depth (heap E) ∅ <= recursion_room E ->
   exists (b : bool) s1, has_tensor_in_frame K E fr s = Some (Ret b, s1)).
Proof.
  cbn zeta. unfold has_tensor_in_frame.
  assert (Hglobals :
    existsb (fun co_name =>
               match f_globals fr !! co_name with
               | Some g => is_allowed K g
               | None => false
               end) (co_names (f_code fr)) = true <->
    exists name g, name ∈ co_names (f_code fr) /\
      f_globals fr !! name = Some g /\ is_allowed K g = true).
  { rewrite existsb_exists. split.
    - intros (name & Hin & Hallowed).
      destruct (f_globals fr !! name) as [g|] eqn:Hg; [| done].
      exists name, g. split; [by apply list_elem_of_In | done].
    - intros (name & g & Hname & Hg & Hallowed). exists name.
      split; [by apply list_elem_of_In | by rewrite Hg]. }
  destruct (bool_decide
              (code_id (f_code fr) ∈ always_optimize_code_objects E))
    eqn:Halways.
  { apply bool_decide_eq_true in Halways.
    split; [| split; [done | split; [done | eauto]]].
    intros b s1 [= <- <-]. split; [done |]. split; [by left | done]. }
  apply bool_decide_eq_false in Halways.
  destruct (existsb _ _) eqn:Hglobal.
  { pose proof (proj1 Hglobals eq_refl) as Hglobal'.
    split; [| split; [done | split; [done | eauto]]].
    intros b s1 [= <- <-]. split; [done |]. split; [by right; left | done]. }
  assert (Hnone : ~ exists name g, name ∈ co_names (f_code fr) /\
      f_globals fr !! name = Some g /\ is_allowed K g = true).
  { intros Hsome%Hglobals. discriminate. }
  destruct (scan_locals _ _ _ _ _) as [[b0|e0] seen'] eqn:Hscan.
  - split; [| split; [| split]].
    + apply scan_locals_facts in Hscan as [Hsound Hcomplete].
      rewrite dom_empty_L in Hcomplete.
      assert (Hiff : b0 = true <->
        code_id (f_code fr) ∈ always_optimize_code_objects E \/
        (exists name g, name ∈ co_names (f_code fr) /\
           f_globals fr !! name = Some g /\ is_allowed K g = true) \/
        (exists v, v ∈ map snd (f_locals fr) /\
           holds_tensor (heap E) (is_allowed K) v)).
      { split.
        - intros Hb. right. right. by apply Hsound.
        - intros [Hin | [Hallowed | (v & Hv & t & Ht & Hpath)]];
            [done | done | by eapply Hcomplete]. }
      destruct b0; intros b s1 [= <- <-]; by split.
    + intros [Hin | Hallowed]; done.
    + by destruct b0.
    + intros _ _. destruct b0; by eexists _, _.
  - split; [done |]. split; [| split].
    + intros [Hin | Hallowed]; done.
    + intros e s1 [= <- <-]. split; [done |].
      by apply scan_locals_raises_only in Hscan.
    + unfold scan_depth. intros Hplain Hdepth.
      destruct (scan_locals_scanned (heap E) (is_allowed K) (recursion_room E)
                  (map snd (f_locals fr)) ∅)
        as (r & seen0 & Hrun & [[b ->] | (_ & u & Hu & _)]); [lia | |].
      * rewrite Hscan in Hrun. done.
      * by destruct (Hplain u).
Qed.

(** The sample heap holds no value of [torch.return_types]. *)
Lemma sample_heap_plain (u : nat) : sample_heap !! u <> Some PReturnType.
Proof.
  unfold sample_heap. rewrite !lookup_insert_Some, lookup_empty.
  naive_solver.
Qed.

Lemma has_tensor_in_frame_iff_witness :
  has_tensor_in_frame tracing_ok decorated_environ scalar_frame sample_state
    = Some (Ret true, sample_state) /\
  exists (b : bool) s1,
    has_tensor_in_frame tracing_ok plain_environ scalar_frame sample_state
      = Some (Ret b, s1).
Proof.
  split.
  - apply (proj1 (proj2 (has_tensor_in_frame_iff tracing_ok decorated_environ
                           scalar_frame sample_state))).
    left. vm_compute. set_solver.
  - apply (proj2 (proj2 (proj2 (has_tensor_in_frame_iff tracing_ok
                                  plain_environ scalar_frame sample_state)))).
    + exact sample_heap_plain.
    + vm_compute. lia.
Defined.

(* ===================================================================== *)
(** * The tracker *)
(* ===================================================================== *)

(** X4: after [add(x)] the tracker contains [x], and contains any other
    object exactly when it did before; adding an object that is already
    there changes nothing, so [add] is idempotent. *)
Theorem Tracker_add_contains (t : Tracker.t) (x y : nat) :
  (Tracker.contains (Tracker.add x t) y = true <->
     y = x \/ Tracker.contains t y = true) /\
  (Tracker.contains t x = true -> Tracker.add x t = t) /\
  Tracker.add x (Tracker.add x t) = Tracker.add x t.
Proof.
  assert (Hpresent : forall t0, x ∈ Tracker.seen_ids t0 -> Tracker.add x t0 = t0).
  { intros t0 Hin. unfold Tracker.add. by rewrite decide_True. }
  split; [| split].
  - rewrite !Tracker_contains_true. unfold Tracker.add.
    case_decide as Hin; cbn; [| set_solver].
    split; [by right | by intros [-> | ?]].
  - intros Hin%Tracker_contains_true. by apply Hpresent.
  - apply Hpresent, Tracker_add_elem.
Qed.

Lemma Tracker_add_contains_witness :
  Tracker.add 1 (Tracker.add 1 Tracker.init) = Tracker.add 1 Tracker.init.
Proof.
  apply (proj1 (proj2 (Tracker_add_contains (Tracker.add 1 Tracker.init) 1 1))).
  vm_compute. reflexivity.
Defined.

(** The two fields of a tracker agree. *)
Lemma Tracker_consistent_add (t : Tracker.t) (x : nat) :
  NoDup (Tracker.seen t) ->
  Tracker.seen_ids t = list_to_set (Tracker.seen t) ->
  NoDup (Tracker.seen (Tracker.add x t)) /\
  Tracker.seen_ids (Tracker.add x t)
    = list_to_set (Tracker.seen (Tracker.add x t)).
Proof.
  intros Hnodup Hset. unfold Tracker.add. case_decide as Hin; [done |].
  cbn. split.
  - apply NoDup_app. split; [done |]. split; [| apply NoDup_singleton].
    intros y Hy ->%list_elem_of_singleton. apply Hin. rewrite Hset.
    by apply elem_of_list_to_set.
  - rewrite list_to_set_app_L, Hset. cbn. set_solver.
Qed.

(** X5: whatever happens to a new tracker (calls of [add] and [clear],
    and tracked objects dying, upon which the callback of the weak
    reference removes the identity), every identity in [seen_ids] has its
    weak reference in [seen].  As long as no object dies the two agree
    exactly: [seen] has no duplicates and [seen_ids] is the set of its
    elements, so the two have the same number of entries; the death of an
    object ends that, its reference staying in [seen]. *)
Theorem Tracker_fields_agree (calls : list tracker_call) :
  let t := tracker_after calls in
  Tracker.seen_ids t ⊆ list_to_set (Tracker.seen t) /\
  (forallb is_method_call calls = true ->
   NoDup (Tracker.seen t) /\
   Tracker.seen_ids t = list_to_set (Tracker.seen t) /\
   length (Tracker.seen t) = size (Tracker.seen_ids t)).
Proof.
  cbn zeta. split.
  - unfold tracker_after. induction calls as [|c calls IH] using rev_ind.
    + done.
    + rewrite foldl_app. cbn [foldl].
      destruct c as [x| |idx]; cbn [tracker_apply].
      * unfold Tracker.add. case_decide; [done |]. cbn.
        rewrite list_to_set_app_L. cbn. set_solver.
      * done.
      * cbn. set_solver.
  - intros Hcalls.
    cut (NoDup (Tracker.seen (tracker_after calls)) /\
         Tracker.seen_ids (tracker_after calls)
           = list_to_set (Tracker.seen (tracker_after calls))).
    { intros [Hnodup Hset]. split; [done |]. split; [done |].
      rewrite Hset. symmetry. by apply size_list_to_set. }
    unfold tracker_after. induction calls as [|c calls IH] using rev_ind.
    + cbn. split; [apply NoDup_nil_2 | done].
    + rewrite forallb_app in Hcalls. apply andb_true_iff in Hcalls as [Hcalls Hc].
      rewrite foldl_app. cbn [foldl]. destruct (IH Hcalls) as [Hnodup Hset].
      destruct c as [x| |idx]; cbn [tracker_apply].
      * by apply Tracker_consistent_add.
      * cbn. split; [apply NoDup_nil_2 | done].
      * done.
Qed.

Lemma Tracker_fields_agree_witness :
  length (Tracker.seen (tracker_after [CallAdd 1; CallAdd 2; CallAdd 1]))
    = size (Tracker.seen_ids (tracker_after [CallAdd 1; CallAdd 2; CallAdd 1])).
Proof.
  apply (proj2 (Tracker_fields_agree [CallAdd 1; CallAdd 2; CallAdd 1])).
  reflexivity.
Defined.

(** After an object died and another took its identity, [seen] holds two
    references for the one entry of [seen_ids]. *)
Example Tracker_after_death :
  let t := tracker_after [CallAdd 1; ObjectDies 1; CallAdd 1] in
  Tracker.seen t = [1; 1] /\ size (Tracker.seen_ids t) = 1.
Proof. split; vm_compute; reflexivity. Qed.

(* ===================================================================== *)
(** * What a conversion leaves in the registries *)
(* ===================================================================== *)

Section ConversionEffects.

Variable K : collaborators.
Variable E : environ.

(** The loop touches neither the trackers nor the counters. *)
Lemma retry_loop_counters compiler one_graph export fr fuel :
  forall attempt s r s',
    retry_loop K E compiler one_graph export fr fuel attempt s = Some (r, s') ->
    input_codes s' = input_codes s /\ output_codes s' = output_codes s /\
    counters_frames_total s' = counters_frames_total s /\
    counters_frames_ok s' = counters_frames_ok s.
Proof.
  induction fuel as [|fuel IH]; intros attempt s r s'; [done |].
  cbn [retry_loop]. unfold attempt_transform, on_torch.
  destruct (transform_code_object _ _ _ _) as [[[c output]|e] w].
  { by intros [= <- <-]. }
  destruct e; try (by intros [= <- <-]).
  - destruct (Nat.ltb 100 attempt); [by intros [= <- <-] |].
    intros Hloop. by apply IH in Hloop.
  - intros [= <- <-]. by destruct one_graph.
Qed.

(** When the loop is left by [break], the rewritten code is mapped to the
    frame's code. *)
Lemma retry_loop_break_map compiler one_graph export fr fuel :
  forall attempt s c output s',
    retry_loop K E compiler one_graph export fr fuel attempt s
      = Some (Ret (Break c output), s') ->
    orig_code_map s' !! code_id c = Some (code_id (f_code fr)).
Proof.
  induction fuel as [|fuel IH]; intros attempt s c output s'; [done |].
  cbn [retry_loop]. unfold attempt_transform, on_torch.
  destruct (transform_code_object _ _ _ _) as [[[c0 output0]|e] w].
  { intros [= <- <- <-]. cbn. apply lookup_insert_eq. }
  destruct e; try done.
  destruct (Nat.ltb 100 attempt); [done | apply IH].
Qed.

(** [install]: what it changes, whatever its outcome. *)
Lemma install_effects guard_export_fn fr c output s r s' :
  install K guard_export_fn fr c output s = (r, s') ->
  input_codes s' = input_codes s /\
  output_codes s' = Tracker.add (code_id c) (output_codes s) /\
  orig_code_map s' = orig_code_map s /\
  counters_frames_total s' = counters_frames_total s /\
  counters_frames_ok s' = counters_frames_ok s /\
  (forall gc, r = Ret (Some gc) ->
     exists gs,
       guards output = Some gs /\
       gc_code gc = c /\
       CheckFunctionManager K gs fr = Ret (gc_check_fn gc) /\
       cleanup_instance s' !! code_id c = Some (cleanups output) /\
       log s' = log s ++
         [(INFO, MsgOriginalBytecode (f_code fr));
          (INFO, MsgModifiedBytecode c);
          (INFO, MsgGuards gs)]).
Proof.
  unfold install.
  destruct (guards output) as [gs|];
    [| intros [= <- <-]; by do 5 (split; [done |])].
  destruct (CheckFunctionManager K gs fr) as [check_fn|e] eqn:Hcheck;
    [| intros [= <- <-]; by do 5 (split; [done |])].
  destruct guard_export_fn as [export_fn|];
    [destruct (export_fn gs) as [u|e] |]; intros [= <- <-].
  all: do 5 (split; [done |]).
  all: intros gc Hgc; try discriminate.
  all: injection Hgc as <-; exists gs; do 3 (split; [done |]).
  all: cbn; rewrite lookup_insert_eq; split; [done |].
  all: by rewrite <- !app_assoc.
Qed.

Section OneConversion.

Variable compiler_fn : nat.
Variable guard_export_fn : option (list string -> res unit).
Variables one_graph export : bool.
Variable fuel : nat.
Variable fr : frame.
Variable cache_size : Z.

Local Abbreviation wrapped := (wrap_compiler_fn E compiler_fn).
Local Abbreviation inner :=
  (_convert_frame_assert K E wrapped guard_export_fn one_graph export fuel fr
     cache_size).
Local Abbreviation outer :=
  (convert_frame_assert K E compiler_fn guard_export_fn one_graph export fuel
     fr cache_size).

(** The handlers of the outer [try] change the log only. *)
Lemma convert_traced_effects s r s' :
  convert_traced K E wrapped guard_export_fn one_graph export fuel fr s
    = Some (r, s') ->
  input_codes s' = input_codes s /\
  (output_codes s' = output_codes s \/
   exists c, output_codes s' = Tracker.add (code_id c) (output_codes s)) /\
  counters_frames_total s' = counters_frames_total s /\
  counters_frames_ok s' = counters_frames_ok s.
Proof.
  unfold convert_traced, convert_try.
  destruct (retry_loop _ _ _ _ _ _ _ _ _) as [[r0 s1]|] eqn:Hloop; [| done].
  apply retry_loop_counters in Hloop as (Hi & Ho & Ht & Hk).
  destruct r0 as [[c output|]|e].
  - destruct (install _ _ _ _ _ _) as [r1 s2] eqn:Hinstall.
    apply install_effects in Hinstall as (Hi2 & Ho2 & _ & Ht2 & Hk2 & _).
    assert (Hout : exists c0,
      output_codes s2 = Tracker.add (code_id c0) (output_codes s))
      by (exists c; by rewrite Ho2, Ho).
    destruct r1 as [r1|e].
    + intros [= <- <-]. rewrite Hi2, Ht2, Hk2. repeat split; try done.
      by right.
    + destruct (convert_except E e fr s2) as [r2 s3] eqn:Hexcept.
      apply convert_except_raises in Hexcept as [_ [-> | [msg ->]]];
        intros [= <- <-]; cbn; rewrite ?Hi2, ?Ht2, ?Hk2; repeat split;
        try done; by right.
  - intros [= <- <-]. repeat split; try done. by left.
  - destruct (convert_except E e fr s1) as [r2 s3] eqn:Hexcept.
    apply convert_except_raises in Hexcept as [_ [-> | [msg ->]]];
      intros [= <- <-]; cbn; repeat split; try done; by left.
Qed.

(** The inner converter adds the frame's code to [input_codes], adds at
    most one code object to [output_codes], and leaves the counters. *)
Lemma _convert_frame_assert_effects s r s' :
  inner s = Some (r, s') ->
  input_codes s' = Tracker.add (code_id (f_code fr)) (input_codes s) /\
  (output_codes s' = output_codes s \/
   exists c, output_codes s' = Tracker.add (code_id c) (output_codes s)) /\
  counters_frames_total s' = counters_frames_total s /\
  counters_frames_ok s' = counters_frames_ok s.
Proof.
  rewrite _convert_frame_assert_order.
  destruct (returns_early _ _ _);
    [intros [= <- <-]; repeat split; by left |].
  destruct (is_generator _ _);
    [intros [= <- <-]; repeat split; by left |].
  destruct (Z.leb _ _).
  { unfold cache_size_limit_reached.
    destruct (guard_failures E (f_code fr)) as [failures|];
      [destruct (last failures) |];
      intros [= <- <-]; repeat split; by left. }
  destruct (has_tensor_in_frame K E fr (entered fr s)) as [[r0 s1]|] eqn:Htensor;
    [| done].
  apply has_tensor_in_frame_state in Htensor as ->.
  destruct r0 as [[|]|e]; try (intros [= <- <-]; repeat split; by left).
  intros Htraced. by apply convert_traced_effects in Htraced.
Qed.

(** So does [convert_frame_assert]. *)
Lemma convert_frame_assert_effects s r s' :
  outer s = Some (r, s') ->
  input_codes s' = Tracker.add (code_id (f_code fr)) (input_codes s) /\
  (output_codes s' = output_codes s \/
   exists c, output_codes s' = Tracker.add (code_id c) (output_codes s)) /\
  counters_frames_total s' = counters_frames_total s /\
  counters_frames_ok s' = counters_frames_ok s.
Proof.
  unfold convert_frame_assert, wrap_convert_context.
  destruct (_convert_frame_assert _ _ _ _ _ _ _ _ _ _) as [[r2 s2]|] eqn:Hin;
    [| done].
  intros [= <- <-]. by apply _convert_frame_assert_effects in Hin.
Qed.

End OneConversion.

End ConversionEffects.

Lemma Tracker_add_subset (idx : nat) (t : Tracker.t) :
  Tracker.seen_ids t ⊆ Tracker.seen_ids (Tracker.add idx t).
Proof. unfold Tracker.add. case_decide; cbn; set_solver. Qed.

(** A frame of a code object in [output_codes] is answered with [None]. *)
Lemma convert_frame_assert_skips_output K E compiler_fn guard_export_fn
    one_graph export fuel fr cache_size s :
  code_id (f_code fr) ∈ Tracker.seen_ids (output_codes s) ->
  exists s',
    convert_frame_assert K E compiler_fn guard_export_fn one_graph export fuel
      fr cache_size s = Some (Ret None, s') /\
    output_codes s' = output_codes s.
Proof.
  intros Hin. apply Tracker_contains_true in Hin.
  destruct (convert_frame_assert_run K E compiler_fn guard_export_fn fuel fr
              cache_size one_graph export s (Ret None)
              (entered fr (context_entered s)))
    as (s' & Hrun & _ & Ho & _).
  - rewrite _convert_frame_assert_order. unfold returns_early.
    cbn [entered context_entered output_codes with_input_codes with_torch].
    by rewrite Hin.
  - by exists s'.
Qed.

(** A conversion that returns a [GuardedCode] went through the loop's
    [break] and through [install]. *)
Lemma _convert_frame_assert_success_inv K E compiler guard_export_fn
    one_graph export fuel fr cache_size s gc s' :
  _convert_frame_assert K E compiler guard_export_fn one_graph export fuel fr
    cache_size s = Some (Ret (Some gc), s') ->
  exists s1 c output s2,
    retry_loop K E compiler one_graph export fr fuel 0 s1
      = Some (Ret (Break c output), s2) /\
    install K guard_export_fn fr c output s2 = (Ret (Some gc), s').
Proof.
  rewrite _convert_frame_assert_order.
  destruct (returns_early _ _ _); [done |].
  destruct (is_generator _ _); [done |].
  destruct (Z.leb _ _).
  { destruct (cache_size_limit_reached_raises E (f_code fr) (entered fr s))
      as (e & s2 & ->). done. }
  destruct (has_tensor_in_frame _ _ _ _) as [[[[|]|e] s1]|]; try done.
  intros Hrun%convert_traced_returns. revert Hrun. unfold convert_try.
  destruct (retry_loop _ _ _ _ _ _ _ _ _) as [[[[c output|]|e] s2]|] eqn:Hloop;
    try done.
  destruct (install _ _ _ _ _ _) as [[r|e] s3] eqn:Hinstall; [| done].
  intros [= -> ->]. by exists s1, c, output, s2.
Qed.

(** X6: every conversion that comes to an end, whatever its outcome, has
    recorded the frame's code object in [input_codes]; and neither tracker
    loses an entry. *)
Theorem conversion_records_frame K E compiler_fn guard_export_fn one_graph
    export fuel fr cache_size s r s' :
  convert_frame_assert K E compiler_fn guard_export_fn one_graph export fuel
    fr cache_size s = Some (r, s') ->
  code_id (f_code fr) ∈ Tracker.seen_ids (input_codes s') /\
  Tracker.seen_ids (input_codes s) ⊆ Tracker.seen_ids (input_codes s') /\
  Tracker.seen_ids (output_codes s) ⊆ Tracker.seen_ids (output_codes s').
Proof.
  intros Hrun.
  apply convert_frame_assert_effects in Hrun as (-> & Hout & _).
  split; [apply Tracker_add_elem |]. split; [apply Tracker_add_subset |].
  destruct Hout as [-> | [c ->]]; [done | apply Tracker_add_subset].
Qed.

(** X7: a call of [convert_frame]'s converter that comes to an end counts
    the frame in [counters["frames"]["total"]], and counts it in
    [counters["frames"]["ok"]] exactly when the inner converter returned
    rather than raised; so "ok" never overtakes "total". *)
Theorem frame_counters K E compiler_fn guard_export_fn fuel fr cache_size
    s r s' :
  _convert_frame K E compiler_fn guard_export_fn fuel fr cache_size s
    = Some (r, s') ->
  counters_frames_total s' = S (counters_frames_total s) /\
  counters_frames_ok s' =
    counters_frames_ok s +
    match convert_frame_assert K E compiler_fn guard_export_fn false false
            fuel fr cache_size (count_frame_total s) with
    | Some (Ret _, _) => 1
    | _ => 0
    end /\
  (counters_frames_ok s <= counters_frames_total s ->
   counters_frames_ok s' <= counters_frames_total s').
Proof.
  unfold _convert_frame.
  destruct (convert_frame_assert _ _ _ _ _ _ _ _ _ _) as [[r2 s2]|] eqn:Hin;
    [| done].
  apply convert_frame_assert_effects in Hin as (_ & _ & Ht & Hk).
  cbn in Ht, Hk.
  destruct r2 as [result|e].
  - intros [= <- <-]. cbn. rewrite Ht, Hk. lia.
  - assert (Hraise : forall s0, s0 = s2 ->
      counters_frames_total s0 = S (counters_frames_total s) /\
      counters_frames_ok s0 = counters_frames_ok s + 0 /\
      (counters_frames_ok s <= counters_frames_total s ->
       counters_frames_ok s0 <= counters_frames_total s0))
      by (intros s0 ->; rewrite Ht, Hk; lia).
    destruct e; cbn [is_exception]; try (intros [= <- <-]; by apply Hraise).
    destruct (raise_on_assertion_error (cfg E)); intros [= <- <-];
      by apply Hraise.
Qed.

(** X8: when [convert_frame_assert] returns a [GuardedCode], the cache size
    was below the limit, [orig_code_map] maps the new code object to the
    frame's code object, [CleanupManager.instance] has an entry for it,
    its check function is the one [CheckFunctionManager] built from the
    tracer's guards, and the last three log records are the original
    bytecode, the modified bytecode and the guards, at info level. *)
Theorem successful_conversion_is_registered K E compiler_fn guard_export_fn
    one_graph export fuel fr cache_size s gc s' :
  convert_frame_assert K E compiler_fn guard_export_fn one_graph export fuel
    fr cache_size s = Some (Ret (Some gc), s') ->
  (cache_size < cache_size_limit (cfg E))%Z /\
  orig_code_map s' !! code_id (gc_code gc) = Some (code_id (f_code fr)) /\
  is_Some (cleanup_instance s' !! code_id (gc_code gc)) /\
  exists gs earlier,
    CheckFunctionManager K gs fr = Ret (gc_check_fn gc) /\
    log s' = earlier ++
      [(INFO, MsgOriginalBytecode (f_code fr));
       (INFO, MsgModifiedBytecode (gc_code gc));
       (INFO, MsgGuards gs)].
Proof.
  unfold convert_frame_assert, wrap_convert_context.
  destruct (_convert_frame_assert _ _ _ _ _ _ _ _ _ _) as [[r2 s2]|] eqn:Hin;
    [| done].
  intros [= -> <-]. cbn.
  pose proof (_convert_frame_assert_success _ _ _ _ _ _ _ _ _ _ _ _ Hin)
    as [Hlimit _].
  apply _convert_frame_assert_success_inv in Hin
    as (s1 & c & output & s3 & Hloop & Hinstall).
  apply retry_loop_break_map in Hloop.
  apply install_effects in Hinstall as (_ & _ & Hmap & _ & _ & Hok).
  destruct (Hok gc eq_refl) as (gs & _ & -> & Hcheck & Hclean & Hlog).
  split; [done |]. split; [by rewrite Hmap |]. split; [by eexists |].
  by exists gs, (log s3).
Qed.

(** X9: code that came out of a conversion is not traced again: once
    [convert_frame_assert] has returned a [GuardedCode], any later call on
    a frame that runs its code object returns [None], with whatever
    backend, configuration and cache size, as long as [output_codes] has
    not lost the entry. *)
Theorem generated_code_not_retraced K E compiler_fn guard_export_fn one_graph
    export fuel fr cache_size s gc s'
    K2 E2 compiler_fn2 guard_export_fn2 one_graph2 export2 fuel2 fr2
    cache_size2 s2 :
  convert_frame_assert K E compiler_fn guard_export_fn one_graph export fuel
    fr cache_size s = Some (Ret (Some gc), s') ->
  f_code fr2 = gc_code gc ->
  Tracker.seen_ids (output_codes s') ⊆ Tracker.seen_ids (output_codes s2) ->
  exists s3,
    convert_frame_assert K2 E2 compiler_fn2 guard_export_fn2 one_graph2
      export2 fuel2 fr2 cache_size2 s2 = Some (Ret None, s3) /\
    output_codes s3 = output_codes s2.
Proof.
  intros Hrun Hcode Hkept.
  apply convert_frame_assert_inv in Hrun as (s1 & Hin & _ & Ho & _).
  apply _convert_frame_assert_success in Hin as [_ Hmarked].
  apply convert_frame_assert_skips_output.
  rewrite Hcode. apply Hkept. by rewrite Ho.
Qed.

(** What the outer [try] raises went through its [except] clauses. *)
Lemma convert_traced_raises K E compiler guard_export_fn one_graph export fuel
    fr s e s' :
  convert_traced K E compiler guard_export_fn one_graph export fuel fr s
    = Some (Raise e, s') ->
  exists e0 s1,
    convert_try K E compiler guard_export_fn one_graph export fuel fr s
      = Some (Raise e0, s1) /\
    convert_except (A := option GuardedCode) E e0 fr s1 = (Raise e, s').
Proof.
  unfold convert_traced.
  destruct (convert_try _ _ _ _ _ _ _ _ _) as [[[r|e0] s1]|]; try done.
  intros [= Hexcept]. by exists e0, s1.
Qed.

(** The [except] clauses, case by case. *)
Lemma convert_except_cases {A : Type} E (e0 : exn) fr s1 e s' :
  convert_except (A := A) E e0 fr s1 = (Raise e, s') ->
  (is_exception e0 = true /\
   e = (if reraised_as_is e0 then e0 else InternalTorchDynamoError) /\
   s' = log_at ERROR (MsgWontConvert e0 (f_code fr)) s1) \/
  (verbose (cfg E) = false /\ (exists msg, e0 = Unsupported msg []) /\
   e = OtherException "IndexError" /\ s' = s1) \/
  (is_exception e0 = false /\ e = e0 /\ s' = s1).
Proof.
  unfold convert_except, log_error_and_raise, format_error_msg.
  destruct (verbose (cfg E)).
  - destruct e0; cbn; intros [= <- <-]; auto.
  - destruct e0 as [msg [|entry real_stack]| | | | | | | | |]; cbn;
      intros [= <- <-]; auto.
    right. left. eauto.
Qed.

(** [install] returns a [GuardedCode] or raises. *)
Lemma install_returns_code K guard_export_fn fr c output s r s' :
  install K guard_export_fn fr c output s = (Ret r, s') -> is_Some r.
Proof.
  unfold install.
  destruct (guards output) as [gs|]; [| done].
  destruct (CheckFunctionManager K gs fr); [| done].
  destruct guard_export_fn as [export_fn|]; [destruct (export_fn gs) |];
    try done; by intros [= <- _].
Qed.

(** X10: what [convert_frame_assert] raises is one of [Unsupported],
    [TorchRuntimeError], [BackendCompilerFailed], [AssertionError] and
    [InternalTorchDynamoError]; or the [RecursionError] or
    [AttributeError] of the scan of the locals, which runs outside the
    [try]; or an [IndexError], for a frame at the cache limit whose code
    object has an empty list of guard failures or, with [config.verbose]
    off, from the building of the error message; or an exception that
    does not derive from [Exception].  [RestartAnalysis] and [SkipFrame]
    never leave it. *)
Theorem convert_frame_assert_raises_only K E compiler_fn guard_export_fn
    one_graph export fuel fr cache_size s e s' :
  convert_frame_assert K E compiler_fn guard_export_fn one_graph export fuel
    fr cache_size s = Some (Raise e, s') ->
  (e <> RestartAnalysis /\ e <> SkipFrame) /\
  ((exists msg real_stack, e = Unsupported msg real_stack) \/
   e = TorchRuntimeError \/
   e = BackendCompilerFailed \/ e = AssertionError \/
   e = InternalTorchDynamoError \/
   e = OtherException "RecursionError" \/
   e = OtherException "AttributeError" \/
   (e = OtherException "IndexError" /\
    (((cache_size_limit (cfg E) <= cache_size)%Z /\
      guard_failures E (f_code fr) = Some []) \/
     verbose (cfg E) = false)) \/
   is_exception e = false).
Proof.
  intros Hrun.
  cut ((exists msg real_stack, e = Unsupported msg real_stack) \/
       e = TorchRuntimeError \/
       e = BackendCompilerFailed \/ e = AssertionError \/
       e = InternalTorchDynamoError \/
       e = OtherException "RecursionError" \/
       e = OtherException "AttributeError" \/
       (e = OtherException "IndexError" /\
        (((cache_size_limit (cfg E) <= cache_size)%Z /\
          guard_failures E (f_code fr) = Some []) \/
         verbose (cfg E) = false)) \/
       is_exception e = false).
  { intros Hcases. split; [| exact Hcases].
    destruct Hcases as [(msg & st & ->) | [-> | [-> | [-> | [-> | [-> | [->
      | [[-> _] | Hbase]]]]]]]]; try done.
    split; intros ->; done. }
  apply convert_frame_assert_inv in Hrun as (s1 & Hin & _).
  revert Hin. rewrite _convert_frame_assert_order.
  destruct (returns_early _ _ _); [done |].
  destruct (is_generator _ _); [intros [= <- _]; left; by eexists _, _ |].
  destruct (Z.leb_spec (cache_size_limit (cfg E)) cache_size) as [Hlimit | _].
  { unfold cache_size_limit_reached.
    destruct (guard_failures E (f_code fr)) as [failures|];
      [| by intros [= <- _]; auto 6].
    destruct (last failures) as [reason|] eqn:Hlast.
    - intros [= <- _]. left. by eexists _, _.
    - intros [= <- _]. apply last_None in Hlast as ->. auto 12. }
  destruct (has_tensor_in_frame K E fr (entered fr (context_entered s)))
    as [[[[|]|e1] s2]|] eqn:Htensor; try done.
  - intros Htraced.
    apply convert_traced_raises in Htraced as (e0 & s3 & _ & Hexcept).
    apply convert_except_cases in Hexcept
      as [(_ & -> & _) | [(Hverbose & _ & -> & _) | (Hbase & -> & _)]].
    + destruct e0; cbn; eauto 12.
    + auto 12.
    + auto 12.
  - intros [= <- _].
    apply (proj1 (proj2 (proj2 (has_tensor_in_frame_iff K E fr
                                  (entered fr (context_entered s))))))
      in Htensor as [_ [-> | ->]]; auto 12.
Qed.


(** X12: [output_codes.add(code)] comes before the guards are built: once
    the loop has produced rewritten code, that code object is in
    [output_codes] when [convert_frame_assert] ends, whether it returns a
    [GuardedCode] or raises because the guards could not be built. *)
Theorem rewritten_code_is_marked_first K E compiler_fn guard_export_fn
    one_graph export fuel fr cache_size s s1 c output s2 r s' :
  reaches_tracer K E fr cache_size (context_entered s) s1 ->
  retry_loop K E (wrap_compiler_fn E compiler_fn) one_graph export fr fuel 0 s1
    = Some (Ret (Break c output), s2) ->
  convert_frame_assert K E compiler_fn guard_export_fn one_graph export fuel
    fr cache_size s = Some (r, s') ->
  code_id c ∈ Tracker.seen_ids (output_codes s') /\
  ((exists gc, r = Ret (Some gc) /\ gc_code gc = c) \/ exists e, r = Raise e).
Proof.
  intros Hreach Hloop Hrun.
  apply convert_frame_assert_inv in Hrun as (s3 & Hin & _ & -> & _).
  rewrite (_convert_frame_assert_traced _ _ _ _ _ _ _ _ _ _ _ Hreach) in Hin.
  revert Hin. unfold convert_traced, convert_try. rewrite Hloop.
  destruct (install _ _ _ _ _ _) as [r1 s4] eqn:Hinstall.
  pose proof Hinstall as Hsome.
  apply install_effects in Hinstall as (_ & Ho & _ & _ & _ & Hok).
  assert (Hmarked : code_id c ∈ Tracker.seen_ids (output_codes s4))
    by (rewrite Ho; apply Tracker_add_elem).
  destruct r1 as [[gc|]|e].
  - intros [= <- <-]. split; [done |]. left. exists gc. split; [done |].
    by destruct (Hok gc eq_refl) as (gs & _ & ? & _).
  - apply install_returns_code in Hsome. by destruct Hsome.
  - destruct (convert_except E e fr s4) as [r2 s5] eqn:Hexcept.
    apply convert_except_raises in Hexcept as [[e' ->] Hs5].
    intros [= <- <-]. split; [| right; by eexists].
    by destruct Hs5 as [-> | [msg ->]].
Qed.

(* ===================================================================== *)
(** * The callback that [optimize] installs *)
(* ===================================================================== *)

(** X13: for a frame that has already begun to run ([f_lasti >= 0]) or
    whose file is in the skip list, the callback goes on to read
    [config.debug], a name the module does not bind: the [AttributeError]
    is logged as an error while processing the frame and raised, and the
    converter is not called.  A frame that is neither, and is the
    [__new__] of a namedtuple, is answered with [None] before the
    converter is called: nothing is counted, recorded or logged. *)
Theorem optimize_callback_passes_over K E backend nopython fuel fr cache_size
    (s : state) :
  ((0 <= f_lasti fr)%Z \/
   skipfiles_check K (co_filename (f_code fr)) = true ->
   optimize_callback K E backend nopython fuel fr cache_size s
     = Some (Raise (OtherException "AttributeError"),
             log_at ERROR MsgProcessingFrame s)) /\
  ((f_lasti fr < 0)%Z ->
   skipfiles_check K (co_filename (f_code fr)) = false ->
   co_filename (f_code fr) = "<string>" -> co_name (f_code fr) = "__new__" ->
   optimize_callback K E backend nopython fuel fr cache_size s
     = Some (Ret None, s)).
Proof.
  split.
  - intros Hskip.
    assert (Hany : forall callback,
      catch_errors K callback fr cache_size s
        = Some (Raise (OtherException "AttributeError"),
                log_at ERROR MsgProcessingFrame s)).
    { intros callback. unfold catch_errors, catch_errors_try.
      replace ((0 <=? f_lasti fr)%Z ||
               skipfiles_check K (co_filename (f_code fr))) with true; [done |].
      symmetry. apply orb_true_iff.
      destruct Hskip as [Hlasti | Hfile]; [left; by apply Z.leb_le | by right]. }
    unfold optimize_callback. destruct nopython; apply Hany.
  - intros Hlasti Hfile Hstring Hnew.
    assert (Hany : forall callback,
      catch_errors K callback fr cache_size s = Some (Ret None, s)).
    { intros callback. unfold catch_errors, catch_errors_try.
      apply Z.leb_gt in Hlasti. by rewrite Hlasti, Hfile, Hstring, Hnew. }
    unfold optimize_callback. destruct nopython; apply Hany.
Qed.

(** X14: what the callback of [optimize(backend)] (without [nopython])
    raises is [BackendCompilerFailed], or [AssertionError] when
    [config.raise_on_assertion_error] is set, or the [AttributeError] of
    a frame that has begun to run or is in the skip list, or an exception
    that does not derive from [Exception]; an exception that does derive
    from it has been logged as an error while processing the frame. *)
Theorem optimize_callback_raises_only K E backend fuel fr cache_size s e s' :
  optimize_callback K E backend false fuel fr cache_size s
    = Some (Raise e, s') ->
  (e = BackendCompilerFailed \/
   (e = AssertionError /\ raise_on_assertion_error (cfg E) = true) \/
   (e = OtherException "AttributeError" /\
    ((0 <= f_lasti fr)%Z \/
     skipfiles_check K (co_filename (f_code fr)) = true)) \/
   is_exception e = false) /\
  (is_exception e = true -> last (log s') = Some (ERROR, MsgProcessingFrame)).
Proof.
  unfold optimize_callback, catch_errors.
  destruct (catch_errors_try K (convert_frame K E backend None fuel) fr
              cache_size s) as [[[r|e0] s1]|] eqn:Htry; try done.
  intros Hraise.
  assert (He : e = e0) by (destruct (is_exception e0); by injection Hraise).
  subst e0. split.
  - clear Hraise. revert Htry. unfold catch_errors_try.
    destruct ((0 <=? f_lasti fr)%Z ||
              skipfiles_check K (co_filename (f_code fr))) eqn:Hskip.
    { intros [= <- _]. right. right. left. split; [done |].
      apply orb_true_iff in Hskip as [Hlasti%Z.leb_le | Hfile]; auto. }
    destruct (_ && _); [done |].
    unfold convert_frame, _convert_frame.
    destruct (convert_frame_assert _ _ _ _ _ _ _ _ _ _) as [[[r|e1] s2]|];
      try done.
    destruct e1; cbn [is_exception]; try done.
    + intros [= <- _]. by left.
    + destruct (raise_on_assertion_error (cfg E)); [| done].
      intros [= <- _]. right. by left.
    + intros [= <- _]. by do 3 right.
  - intros Hexn. rewrite Hexn in Hraise. injection Hraise as <-.
    cbn. apply last_snoc.
Qed.

(* ===================================================================== *)
(** * Decorated functions *)
(* ===================================================================== *)

(** X15: when a context's [on_enter] hook and backend context raise
    nothing on the way in, the function runs with the context's callback
    active, and when it ends, by returning or by raising, the callback
    that was active before the call is active again; the outcome is the
    function's, unless leaving the backend context raises. *)
Theorem decorated_call_restores {A : Type} (ctx : dynamo_context)
    (fn : eval_frame_state -> option (res A * eval_frame_state))
    (h h2 : eval_frame_state) (r : res A) :
  ctx_on_enter ctx = Ret tt ->
  ctx_backend_enter ctx = Ret tt ->
  fn {| active_callback := ctx_callback ctx;
        always_optimize := always_optimize h |} = Some (r, h2) ->
  exists r' h',
    decorated_call ctx fn h = Some (r', h') /\
    active_callback h' = active_callback h /\
    always_optimize h' = always_optimize h2 /\
    r' = match ctx_backend_exit ctx with
         | Raise e => Raise e
         | Ret _ => r
         end.
Proof.
  intros Hon Henter Hfn. unfold decorated_call, set_eval_frame.
  rewrite Hon, Henter, Hfn.
  destruct (ctx_backend_exit ctx); by eexists _, _.
Qed.

(** X16: the callback is installed before the backend context is built
    and entered, outside the [try]: if that raises, the exception is
    raised, the function is not called, and the context's callback stays
    active. *)
Theorem decorated_call_enter_fails {A : Type} (ctx : dynamo_context)
    (fn : eval_frame_state -> option (res A * eval_frame_state))
    (h : eval_frame_state) (e : exn) :
  ctx_on_enter ctx = Ret tt ->
  ctx_backend_enter ctx = Raise e ->
  decorated_call ctx fn h =
    Some (Raise e, {| active_callback := ctx_callback ctx;
                      always_optimize := always_optimize h |}).
Proof.
  intros Hon Henter. unfold decorated_call, set_eval_frame.
  by rewrite Hon, Henter.
Qed.

(** X17: decorating a function with a context whose callback is a callable
    (as [optimize] does) marks its code object always-optimize, and from
    then on [has_tensor_in_frame] answers [True] for every frame of that
    code object, whatever its locals and globals, and logs nothing;
    decorating with [run()] or [disable()] marks nothing. *)
Theorem decorated_code_passes_tensor_test (ctx : dynamo_context)
    (fn fn_code : nat) (h : eval_frame_state) :
  (forall cb K E fr s,
     ctx_callback ctx = Callback cb ->
     always_optimize_code_objects E
       = always_optimize (context_call ctx fn fn_code h).2 ->
     code_id (f_code fr) = fn_code ->
     has_tensor_in_frame K E fr s = Some (Ret true, s)) /\
  (context_call run_only_context fn fn_code h).2 = h /\
  (context_call disable_context fn fn_code h).2 = h.
Proof.
  split; [| done].
  intros cb K E fr s Hcb Hmarked Hcode. unfold has_tensor_in_frame.
  rewrite bool_decide_eq_true_2; [done |].
  rewrite Hmarked, Hcode. unfold context_call. rewrite Hcb. cbn.
  set_solver.
Qed.

(* ===================================================================== *)
(** * Matching arguments in [export] *)
(* ===================================================================== *)

Section ExportFacts.

Variable A : Type.
Variable allclose : A -> A -> res bool.

(** [l.index(True)] is the position of the first [True]. *)
Lemma index_true_Some (l : list bool) i :
  index_true l = Some i <->
  l !! i = Some true /\ forall j, j < i -> l !! j = Some false.
Proof.
  revert i. induction l as [|b l IH]; intros i; cbn [index_true].
  { split; [done | by intros [? _]]. }
  destruct b.
  - split.
    + intros [= <-]. split; [done |]. lia.
    + intros [Hi Hbefore]. destruct i as [|i]; [done |].
      by specialize (Hbefore 0 ltac:(lia)).
  - rewrite fmap_Some. split.
    + intros (k & Hk & ->). apply IH in Hk as [Hk Hbefore]. split; [done |].
      intros [|j] Hj; [done |]. apply Hbefore. lia.
    + intros [Hi Hbefore]. destruct i as [|i]; [done |].
      exists i. split; [| done]. apply IH. split; [done |].
      intros j Hj. apply (Hbefore (S j)). lia.
Qed.

Lemma index_true_None (l : list bool) :
  index_true l = None <-> forall b, b ∈ l -> b = false.
Proof.
  induction l as [|b l IH]; cbn [index_true].
  { split; [| done]. intros _ b Hb. by apply elem_of_nil in Hb. }
  destruct b.
  - split; [done |]. intros Hall.
    by specialize (Hall true ltac:(apply elem_of_cons; by left)).
  - rewrite fmap_None, IH. split.
    + intros Hall b [-> | Hb]%elem_of_cons; [done | by apply Hall].
    + intros Hall b Hb. apply Hall. apply elem_of_cons. by right.
Qed.

(** The comprehension, when it ends without an exception, holds the
    verdict of [allclose] on each source, in order. *)
Lemma allclose_each_Ret (x : A) (source_args : list A) bs :
  allclose_each A allclose x source_args = Ret bs ->
  Forall2 (fun y b => allclose x y = Ret b) source_args bs.
Proof.
  revert bs. induction source_args as [|y ys IH]; intros bs;
    cbn [allclose_each].
  { intros [= <-]. constructor. }
  destruct (allclose x y) as [b|e] eqn:Hxy; [| done].
  destruct (allclose_each A allclose x ys) as [bs'|e]; [| done].
  intros [= <-]. constructor; [done | by apply IH].
Qed.

(** What it raises, [allclose] raised on one of the sources. *)
Lemma allclose_each_Raise (x : A) (source_args : list A) e :
  allclose_each A allclose x source_args = Raise e ->
  exists y, y ∈ source_args /\ allclose x y = Raise e.
Proof.
  induction source_args as [|y ys IH]; cbn [allclose_each]; [done |].
  destruct (allclose x y) as [b|e0] eqn:Hxy.
  - destruct (allclose_each A allclose x ys) as [bs'|e1]; [done |].
    intros [= <-]. destruct (IH eq_refl) as (y' & Hy' & Hraise).
    exists y'. split; [apply elem_of_cons; by right | done].
  - intros [= <-]. exists y. split; [apply elem_of_cons; by left | done].
Qed.

Lemma allclose_each_returns (x : A) (source_args : list A) :
  (forall y, y ∈ source_args -> exists b, allclose x y = Ret b) ->
  exists bs, allclose_each A allclose x source_args = Ret bs.
Proof.
  intros Hreturns.
  destruct (allclose_each A allclose x source_args) as [bs|e] eqn:Hall;
    [by exists bs |].
  apply allclose_each_Raise in Hall as (y & Hy & Hraise).
  destruct (Hreturns y Hy) as [b Hb]. congruence.
Qed.

(** One candidate: its position is that of the first source close to it. *)
Lemma matched_elements_Ret (source_args : list A) x m :
  matched_elements A allclose source_args x = Ret m ->
  (source_args = [] /\ m = []) \/
  exists p, m = [p] /\ first_match A allclose source_args x p.
Proof.
  unfold matched_elements.
  destruct (allclose_each A allclose x source_args) as [bs|e] eqn:Hall;
    [| done].
  apply allclose_each_Ret in Hall.
  destruct bs as [|b bs].
  { intros [= <-]. left. by apply Forall2_nil_inv_r in Hall. }
  destruct (index_true (b :: bs)) as [p|] eqn:Hp; [| done].
  intros [= <-]. right. exists p. split; [done |].
  apply index_true_Some in Hp as [Hp Hbefore]. split.
  - destruct (Forall2_lookup_r _ _ _ _ _ Hall Hp) as (y & Hy & Hxy).
    by exists y.
  - intros q y Hq Hy.
    destruct (Forall2_lookup_l _ _ _ _ _ Hall Hy) as (b' & Hb' & Hxy).
    rewrite (Hbefore q Hq) in Hb'. by injection Hb' as <-.
Qed.

(** One candidate on whose comparisons [allclose] raises nothing: a
    [ValueError] exactly when there are sources and none is close. *)
Lemma matched_elements_Raise (source_args : list A) x e :
  (forall y, y ∈ source_args -> exists b, allclose x y = Ret b) ->
  matched_elements A allclose source_args x = Raise e <->
  e = OtherException "ValueError" /\ source_args <> [] /\
  forall y, y ∈ source_args -> allclose x y = Ret false.
Proof.
  intros Hreturns. unfold matched_elements.
  destruct (allclose_each_returns x source_args Hreturns) as [bs Hall].
  rewrite Hall. apply allclose_each_Ret in Hall.
  destruct bs as [|b bs].
  { apply Forall2_nil_inv_r in Hall as ->.
    split; [done | by intros (_ & ? & _)]. }
  assert (Hsources : source_args <> [])
    by (intros ->; by apply Forall2_nil_inv_l in Hall).
  destruct (index_true (b :: bs)) as [p|] eqn:Hp.
  - split; [done |]. intros (_ & _ & Hnone).
    apply index_true_Some in Hp as [Hp _].
    destruct (Forall2_lookup_r _ _ _ _ _ Hall Hp) as (y & Hy & Hxy).
    apply list_elem_of_lookup_2 in Hy. rewrite (Hnone y Hy) in Hxy. done.
  - rewrite index_true_None in Hp. split.
    + intros [= <-]. split; [done |]. split; [done |].
      intros y Hy. apply list_elem_of_lookup_1 in Hy as [q Hq].
      destruct (Forall2_lookup_l _ _ _ _ _ Hall Hq) as (b' & Hb' & Hxy).
      apply list_elem_of_lookup_2 in Hb'. by rewrite (Hp b' Hb') in Hxy.
    + by intros (-> & _).
Qed.

(** Whatever one candidate raises is the [ValueError] of [index], or what
    [allclose] raised. *)
Lemma matched_elements_raises_only (source_args : list A) x e :
  matched_elements A allclose source_args x = Raise e ->
  e = OtherException "ValueError" \/
  exists y, y ∈ source_args /\ allclose x y = Raise e.
Proof.
  unfold matched_elements.
  destruct (allclose_each A allclose x source_args) as [bs|e0] eqn:Hall.
  - destruct bs as [|b bs]; [done |].
    destruct (index_true (b :: bs)); [done |]. intros [= <-]. by left.
  - intros [= <-]. right. by apply allclose_each_Raise.
Qed.

End ExportFacts.

(** X18: when the matching loop of [assert_can_rewrite_spec] ends without
    an exception over a non-empty list of sources, it has recorded one
    position per candidate, that of the first source [allclose] to it;
    selecting the sources at these positions then raises no [IndexError]
    and yields, for each candidate, a source close to it. *)
Theorem matched_positions_are_first_matches (A : Type)
    (allclose : A -> A -> res bool) (source_args candidate_args : list A)
    (positions : list nat) :
  matched_elements_positions A allclose source_args candidate_args
    = Ret positions ->
  source_args <> [] ->
  Forall2 (first_match A allclose source_args) candidate_args positions /\
  exists selected,
    select_sources A source_args positions = Ret selected /\
    Forall2 (fun x y => allclose x y = Ret true) candidate_args selected.
Proof.
  intros Hrun Hsources. revert positions Hrun.
  induction candidate_args as [|x candidates IH]; intros positions;
    cbn [matched_elements_positions].
  { intros [= <-]. split; [constructor |]. exists []. by split; [| constructor]. }
  destruct (matched_elements A allclose source_args x) as [m|] eqn:Hm; [| done].
  destruct (matched_elements_positions A allclose source_args candidates)
    as [ps|]; [| done].
  intros [= <-].
  apply matched_elements_Ret in Hm as [[? _] | (p & -> & Hfirst)]; [done |].
  destruct (IH ps eq_refl) as (Hall & selected & Hselect & Hclose).
  split; [by constructor |].
  destruct Hfirst as [(y & Hy & Hxy) Hbefore].
  exists (y :: selected). cbn [app select_sources]. rewrite Hy, Hselect.
  split; [done | by constructor].
Qed.

Lemma matched_positions_are_first_matches_witness :
  Forall2 (first_match nat (fun x y => Ret (Nat.eqb x y)) [7; 8; 7])
    [8; 7] [1; 0] /\
  exists selected,
    select_sources nat [7; 8; 7] [1; 0] = Ret selected /\
    Forall2 (fun x y => Ret (Nat.eqb x y) = Ret true) [8; 7] selected.
Proof.
  apply (matched_positions_are_first_matches nat
           (fun x y => Ret (Nat.eqb x y)) [7; 8; 7] [8; 7] [1; 0]);
    [reflexivity | discriminate].
Defined.

(** X19: whatever the matching loop raises is the [ValueError] of
    [index(True)] or what [torch.allclose] raised on a candidate and a
    source.  When [allclose] raises on none of them, the loop raises
    exactly when there are sources and some candidate is [allclose] to
    none of them, and then it raises [ValueError].  With no sources at all
    it raises nothing and records no position, whatever the candidates. *)
Theorem matched_positions_raise_iff (A : Type) (allclose : A -> A -> res bool)
    (source_args candidate_args : list A) :
  (forall e,
     matched_elements_positions A allclose source_args candidate_args
       = Raise e ->
     e = OtherException "ValueError" \/
     exists x y, x ∈ candidate_args /\ y ∈ source_args /\
                 allclose x y = Raise e) /\
  ((forall x y, x ∈ candidate_args -> y ∈ source_args ->
      exists b, allclose x y = Ret b) ->
   forall e,
     matched_elements_positions A allclose source_args candidate_args
       = Raise e <->
     e = OtherException "ValueError" /\ source_args <> [] /\
     exists x, x ∈ candidate_args /\
               forall y, y ∈ source_args -> allclose x y = Ret false) /\
  (source_args = [] ->
   matched_elements_positions A allclose source_args candidate_args = Ret []).
Proof.
  split; [| split].
  - intros e. induction candidate_args as [|x candidates IH];
      cbn [matched_elements_positions]; [done |].
    destruct (matched_elements A allclose source_args x) as [m|e0] eqn:Hm.
    + destruct (matched_elements_positions A allclose source_args candidates)
        as [ps|e1]; [done |].
      intros [= <-]. destruct (IH eq_refl) as [-> | (x' & y & Hx' & Hy & Hxy)];
        [by left |].
      right. exists x', y. split; [apply elem_of_cons; by right | done].
    + intros [= <-].
      apply matched_elements_raises_only in Hm as [-> | (y & Hy & Hxy)];
        [by left |].
      right. exists x, y. split; [apply elem_of_cons; by left | done].
  - intros Hreturns e. induction candidate_args as [|x candidates IH];
      cbn [matched_elements_positions].
    { split; [done |]. intros (_ & _ & x & Hx & _). by apply elem_of_nil in Hx. }
    assert (Hx : forall y, y ∈ source_args -> exists b, allclose x y = Ret b).
    { intros y Hy. apply Hreturns; [apply elem_of_cons; by left | done]. }
    assert (Hrest : forall x' y, x' ∈ candidates -> y ∈ source_args ->
                      exists b, allclose x' y = Ret b).
    { intros x' y Hx' Hy. apply Hreturns; [apply elem_of_cons; by right | done]. }
    specialize (IH Hrest).
    destruct (matched_elements A allclose source_args x) as [m|e0] eqn:Hm.
    + assert (Hnot : source_args <> [] ->
                     ~ forall y, y ∈ source_args -> allclose x y = Ret false).
      { intros Hs Hnone.
        assert (matched_elements A allclose source_args x
                  = Raise (OtherException "ValueError")) as Hraise;
          [| congruence].
        by apply matched_elements_Raise. }
      clear Hm.
      destruct (matched_elements_positions A allclose source_args candidates)
        as [ps|e1].
      * split; [done |]. intros (He & Hs & x' & [-> | Hx']%elem_of_cons & Hnone);
          [by destruct (Hnot Hs) |].
        assert (Ret ps = Raise e) as Hcontra; [| done].
        apply IH. split; [done |]. split; [done |]. by exists x'.
      * split.
        -- intros Heq. apply IH in Heq as (He & Hs & x' & Hx' & Hnone).
           split; [done |]. split; [done |]. exists x'.
           split; [apply elem_of_cons; by right | done].
        -- intros (He & Hs & x' & [-> | Hx']%elem_of_cons & Hnone);
             [by destruct (Hnot Hs) |].
           apply IH. split; [done |]. split; [done |]. by exists x'.
    + apply (matched_elements_Raise A allclose source_args x e0 Hx) in Hm
        as (-> & Hs & Hnone). split.
      * intros [= <-]. split; [done |]. split; [done |]. exists x.
        split; [apply elem_of_cons; by left | done].
      * by intros (-> & _).
  - intros ->. induction candidate_args as [|x candidates IH]; [done |].
    cbn [matched_elements_positions matched_elements allclose_each].
    by rewrite IH.
Qed.

(* ===================================================================== *)
(** * The guarded configuration module *)
(* ===================================================================== *)

(** X20: assignments through [_AccessLimitingConfig.__setattr__] never add
    a name to the module: an assignment to a name outside
    [_allowed_config_names] raises [AttributeError], one to an allowed name
    binds it to the value; so when the allowed names are bound to begin
    with, the set of bound names is the same after any series of
    assignments. *)
Theorem config_names_are_fixed (V : Type) (allowed : gset string)
    (namespace : gmap string V) :
  (forall name value,
     name ∉ allowed ->
     config_setattr V allowed name value namespace
       = Raise (OtherException "AttributeError")) /\
  (forall name value,
     name ∈ allowed ->
     exists namespace',
       config_setattr V allowed name value namespace = Ret namespace' /\
       namespace' !! name = Some value /\
       forall other, other <> name -> namespace' !! other = namespace !! other) /\
  (allowed ⊆ dom namespace ->
   forall assignments,
     dom (config_assign_all V allowed assignments namespace) = dom namespace).
Proof.
  split; [| split].
  - intros name value Hout. unfold config_setattr. by rewrite decide_False.
  - intros name value Hin. unfold config_setattr. rewrite decide_True by done.
    eexists. split; [done |]. split; [apply lookup_insert_eq |].
    intros other Hne. by apply lookup_insert_ne.
  - intros Hbound assignments. unfold config_assign_all.
    induction assignments as [|[name value] assignments IH] using rev_ind;
      [done |].
    rewrite foldl_app. cbn [foldl fst snd]. unfold config_setattr at 1.
    case_decide as Hin; [| done].
    rewrite dom_insert_L, IH. set_solver.
Qed.

(* ===================================================================== *)
(** * More on the verifying backend wrapper *)
(* ===================================================================== *)

(** X21: whatever [WrapperBackend.__call__] returns is the original
    forward or the callable the backend returned, never anything else;
    it logs only when it raises out of the verification; and with
    [config.verify_correctness] off it neither runs the original forward
    nor the candidate: it leaves the state as the backend left it and
    returns the backend's callable, the original forward standing in for
    [None]. *)
Theorem WrapperBackend_outcomes K E backend gm example_inputs w r w' records :
  WrapperBackend_call K E backend gm example_inputs w = (r, w', records) ->
  (forall f, r = Ret f ->
     f = gm_forward K gm \/
     exists w1, call_backend K backend (deepcopy K gm)
                  (clone_inputs K example_inputs) w = (Ret (Some f), w1)) /\
  (records = [] \/
   (records = [(ERROR, MsgVerifyCorrectness)] /\
    verify_correctness (cfg E) = true /\ exists e, r = Raise e)) /\
  (verify_correctness (cfg E) = false ->
   records = [] /\
   exists candidate,
     call_backend K backend (deepcopy K gm) (clone_inputs K example_inputs) w
       = (candidate, w') /\
     r = match candidate with
         | Raise e => Raise e
         | Ret None => Ret (gm_forward K gm)
         | Ret (Some f) => Ret f
         end).
Proof.
  unfold WrapperBackend_call.
  destruct (call_backend K backend _ _ w) as [[[f0|]|e0] w1] eqn:Hbackend.
  - destruct (verify_correctness (cfg E)) eqn:Hverify; cbn [negb].
    + assert (Hfailed : forall e w0,
        (forall f, Raise e = Ret f ->
           f = gm_forward K gm \/
           exists w2, (Ret (Some f0), w1) = (Ret (Some f), w2)) /\
        ((if is_exception e then [(ERROR, MsgVerifyCorrectness)] else []) = [] \/
         ((if is_exception e then [(ERROR, MsgVerifyCorrectness)] else [])
            = [(ERROR, MsgVerifyCorrectness)] /\
          true = true /\ exists e1, Raise e = Raise e1 :> res nat)) /\
        (true = false ->
         (if is_exception e then [(ERROR, MsgVerifyCorrectness)] else []) = [] /\
         exists candidate,
           (Ret (Some f0), w1) = (candidate, w0) /\
           Raise e = match candidate with
                     | Raise e1 => Raise e1
                     | Ret None => Ret (gm_forward K gm)
                     | Ret (Some f) => Ret f
                     end)).
      { intros e w0. split; [done |]. split; [| done].
        destruct (is_exception e); [right | by left].
        split; [done |]. split; [done |]. by eexists. }
      destruct (call K (gm_forward K gm) _ w1) as [[correct|e] w2];
        [| intros [= <- <- <-]; apply Hfailed].
      destruct (call K f0 _ w2) as [[result|e] w3];
        [| intros [= <- <- <-]; apply Hfailed].
      destruct (same K correct result); intros [= <- <- <-];
        [| apply (Hfailed (RuntimeError "incorrect results of backend"))].
      split; [intros f [= <-]; right; by eexists |].
      split; [by left | done].
    + intros [= <- <- <-]. split; [intros f [= <-]; right; by eexists |].
      split; [by left |]. intros _. split; [done |]. by eexists.
  - intros [= <- <- <-]. split; [intros f [= <-]; by left |].
    split; [by left |]. intros _. split; [done |]. by eexists.
  - intros [= <- <- <-]. split; [done |]. split; [by left |].
    intros _. split; [done |]. by eexists.
Qed.

(* ===================================================================== *)
(** * The frames that are never looked at *)
(* ===================================================================== *)

Lemma string_length_append (p s : string) :
  String.length (p +:+ s) = String.length p + String.length s.
Proof. induction p as [|c p IH]; simpl; [done | by f_equal]. Qed.

Lemma substring_whole (s : string) :
  String.substring 0 (String.length s) s = s.
Proof. induction s as [|c s IH]; simpl; [done | by f_equal]. Qed.

Lemma substring_after_prefix (p s : string) (m : nat) :
  String.substring (String.length p) m (p +:+ s) = String.substring 0 m s.
Proof. induction p as [|c p IH]; simpl; [done | exact IH]. Qed.

Lemma substring_split (s : string) :
  forall n, n <= String.length s ->
    s = String.substring 0 n s +:+
        String.substring n (String.length s - n) s.
Proof.
  induction s as [|c s IH]; intros n Hn.
  - destruct n; [done | simpl in Hn; lia].
  - destruct n as [|n].
    + simpl. by rewrite substring_whole.
    + simpl in Hn.
      change (String c s =
              String c (String.substring 0 n s +:+
                        String.substring n (String.length s - n) s)).
      f_equal. apply IH. lia.
Qed.

(** [endswith] is Python's [str.endswith]. *)
Lemma endswith_iff (s suffix : string) :
  endswith s suffix = true <-> exists p, s = p +:+ suffix.
Proof.
  unfold endswith. rewrite andb_true_iff, Nat.leb_le, String.eqb_eq. split.
  - intros [Hlen Hsub].
    exists (String.substring 0 (String.length s - String.length suffix) s).
    assert (Hle : String.length s - String.length suffix <= String.length s)
      by lia.
    pose proof (substring_split s _ Hle) as Hsplit.
    replace (String.length s - (String.length s - String.length suffix))
      with (String.length suffix) in Hsplit by lia.
    by rewrite Hsub in Hsplit.
  - intros [p ->]. rewrite string_length_append. split; [lia |].
    replace (String.length p + String.length suffix - String.length suffix)
      with (String.length p) by lia.
    by rewrite substring_after_prefix, substring_whole.
Qed.

(** X22: frames of [__setattr__], of a module run by [exec], of a lambda
    in ["<string>"] with empty builtins, and of a generator expression in a
    file whose path ends in one of the two [transformers] files are
    answered with [None] before anything else is looked at: whatever the
    cache size, and whether or not the code is a generator, nothing is
    raised and nothing is logged. *)
Theorem excluded_frames_return_None K E compiler_fn guard_export_fn one_graph
    export fuel fr cache_size s :
  co_name (f_code fr) = "__setattr__" \/
  (co_name (f_code fr) = "<module>" /\ co_filename (f_code fr) = "<string>") \/
  (co_name (f_code fr) = "<lambda>" /\ co_filename (f_code fr) = "<string>" /\
   f_builtins fr = ∅) \/
  (co_name (f_code fr) = "<genexpr>" /\
   exists dir, co_filename (f_code fr) = dir +:+ "transformers/file_utils.py" \/
               co_filename (f_code fr) = dir +:+ "transformers/utils/generic.py") ->
  exists s',
    convert_frame_assert K E compiler_fn guard_export_fn one_graph export fuel
      fr cache_size s = Some (Ret None, s') /\
    output_codes s' = output_codes s /\ log s' = log s.
Proof.
  intros Hexcluded.
  destruct (convert_frame_assert_run K E compiler_fn guard_export_fn fuel fr
              cache_size one_graph export s (Ret None)
              (entered fr (context_entered s)))
    as (s' & Hrun & _ & Ho & Hl); [| by exists s'].
  rewrite _convert_frame_assert_order.
  replace (returns_early E fr (entered fr (context_entered s))) with true;
    [done |].
  symmetry. unfold returns_early.
  destruct Hexcluded as [Hname | [[Hname Hfile] | [(Hname & Hfile & Hbuiltins)
    | (Hname & dir & Hfile)]]].
  - rewrite Hname. cbn. by rewrite !orb_true_r.
  - rewrite Hname, Hfile. cbn. by rewrite !orb_true_r.
  - rewrite Hname, Hfile, Hbuiltins. cbn.
    rewrite bool_decide_eq_false_2 by (by intros []). cbn.
    by rewrite !orb_true_r.
  - assert (Hends : endswith_any (co_filename (f_code fr))
              ["transformers/file_utils.py";
               "transformers/utils/generic.py"] = true).
    { unfold endswith_any. cbn [existsb]. apply orb_true_iff.
      destruct Hfile as [Hfile | Hfile];
        [left | right; apply orb_true_iff; left];
        apply endswith_iff; by exists dir. }
    rewrite Hname, Hends. cbn. by rewrite !orb_true_r.
Qed.

(* ===================================================================== *)
(** * The further statements at the sample inputs *)
(* ===================================================================== *)

Lemma has_tensor_memo_table_witness :
  exists b seen',
    has_tensor sample_heap (fun _ => false) 3 7 ∅ = (Ret b, seen') /\
    (forall u, u ∈ dom seen' ->
       u ∈ dom (∅ : gmap nat bool) \/
       white_path sample_heap (fun _ => false) (dom (∅ : gmap nat bool)) 7 u) /\
    (memo_sound sample_heap (fun _ => false) ∅ ->
     memo_sound sample_heap (fun _ => false) seen').
Proof.
  eexists _, _. split; [vm_compute; reflexivity |].
  eapply (has_tensor_memo_table sample_heap (fun _ => false) 3 7 ∅).
  vm_compute. reflexivity.
Defined.

Lemma conversion_records_frame_witness :
  exists r s',
    convert_frame_assert generators plain_environ 0 None true false 102
      scalar_frame 0 sample_state = Some (r, s') /\
    code_id (f_code scalar_frame) ∈ Tracker.seen_ids (input_codes s') /\
    Tracker.seen_ids (input_codes sample_state)
      ⊆ Tracker.seen_ids (input_codes s') /\
    Tracker.seen_ids (output_codes sample_state)
      ⊆ Tracker.seen_ids (output_codes s').
Proof.
  eexists _, _. split; [vm_compute; reflexivity |].
  eapply (conversion_records_frame generators plain_environ 0 None true false
            102 scalar_frame 0 sample_state).
  vm_compute. reflexivity.
Defined.

Lemma frame_counters_witness :
  exists r s',
    _convert_frame (tracing_raises (Unsupported "call_function" [4]))
      plain_environ 0 None 102 tensor_frame 0 sample_state = Some (r, s') /\
    counters_frames_total s' = 1 /\ counters_frames_ok s' = 0.
Proof.
  eexists _, _. split; [vm_compute; reflexivity |].
  destruct (frame_counters (tracing_raises (Unsupported "call_function" [4]))
              plain_environ 0 None 102 tensor_frame 0 sample_state _ _
              ltac:(vm_compute; reflexivity)) as (Htotal & Hok & _).
  split; [exact Htotal | exact Hok].
Defined.

Lemma successful_conversion_is_registered_witness :
  exists gc s',
    convert_frame_assert tracing_ok plain_environ 0 None true false 102
      tensor_frame 0 sample_state = Some (Ret (Some gc), s') /\
    orig_code_map s' !! code_id (gc_code gc) = Some 1.
Proof.
  eexists _, _. split; [vm_compute; reflexivity |].
  eapply (successful_conversion_is_registered tracing_ok plain_environ 0 None
            true false 102 tensor_frame 0 sample_state).
  vm_compute. reflexivity.
Defined.

Lemma generated_code_not_retraced_witness :
  exists gc s',
    convert_frame_assert tracing_ok plain_environ 0 None true false 102
      tensor_frame 0 sample_state = Some (Ret (Some gc), s') /\
    exists s3,
      convert_frame_assert tracing_ok recompiling_environ 0 None true false
        102 rewritten_frame 64 s' = Some (Ret None, s3) /\
      output_codes s3 = output_codes s'.
Proof.
  eexists _, _. split; [vm_compute; reflexivity |].
  eapply (generated_code_not_retraced tracing_ok plain_environ 0 None true
            false 102 tensor_frame 0 sample_state _ _
            tracing_ok recompiling_environ 0 None true false 102
            rewritten_frame 64).
  - vm_compute. reflexivity.
  - reflexivity.
  - done.
Defined.

Lemma convert_frame_assert_raises_only_witness :
  exists e s',
    convert_frame_assert generators plain_environ 0 None true false 102
      scalar_frame 0 sample_state = Some (Raise e, s') /\
    e <> RestartAnalysis /\ e <> SkipFrame.
Proof.
  eexists _, _. split; [vm_compute; reflexivity |].
  eapply proj1.
  eapply (convert_frame_assert_raises_only generators plain_environ 0 None
            true false 102 scalar_frame 0 sample_state).
  vm_compute. reflexivity.
Defined.


Lemma rewritten_code_is_marked_first_witness :
  exists s',
    convert_frame_assert tracing_unguarded plain_environ 0 None true false 102
      tensor_frame 0 sample_state = Some (Raise AssertionError, s') /\
    code_id (assemble tracing_unguarded [] ∅)
      ∈ Tracker.seen_ids (output_codes s').
Proof.
  eexists. split; [vm_compute; reflexivity |].
  eapply (rewritten_code_is_marked_first tracing_unguarded plain_environ 0
            None true false 102 tensor_frame 0 sample_state
            (entered tensor_frame (context_entered sample_state))
            (assemble tracing_unguarded [] ∅) sample_output_unguarded).
  - repeat split; vm_compute; reflexivity.
  - vm_compute. reflexivity.
  - vm_compute. reflexivity.
Defined.

Lemma optimize_callback_passes_over_witness :
  optimize_callback tracing_ok plain_environ 0 false 102 started_frame 0
    sample_state
  = Some (Raise (OtherException "AttributeError"),
          log_at ERROR MsgProcessingFrame sample_state).
Proof.
  apply optimize_callback_passes_over. left. vm_compute. discriminate.
Defined.

Lemma optimize_callback_raises_only_witness :
  exists s',
    optimize_callback (tracing_raises BackendCompilerFailed) plain_environ 0
      false 102 tensor_frame 0 sample_state
      = Some (Raise BackendCompilerFailed, s') /\
    last (log s') = Some (ERROR, MsgProcessingFrame).
Proof.
  eexists. split; [vm_compute; reflexivity |].
  refine (proj2 (optimize_callback_raises_only
                   (tracing_raises BackendCompilerFailed)
                   plain_environ 0 102 tensor_frame 0 sample_state
                   BackendCompilerFailed _ _) eq_refl).
  vm_compute. reflexivity.
Defined.

Lemma decorated_call_restores_witness :
  exists r' h',
    decorated_call sample_context sample_function sample_eval_frame_state
      = Some (r', h') /\
    active_callback h' = CallbackFalse /\
    always_optimize h' = ∅ /\
    r' = Raise TorchRuntimeError.
Proof.
  exact (decorated_call_restores sample_context sample_function
           sample_eval_frame_state _ (Raise TorchRuntimeError)
           eq_refl eq_refl eq_refl).
Defined.

Lemma decorated_call_enter_fails_witness :
  decorated_call failing_context sample_function sample_eval_frame_state
  = Some (Raise (RuntimeError "fuser"),
          {| active_callback := Callback 4; always_optimize := ∅ |}).
Proof.
  exact (decorated_call_enter_fails failing_context sample_function
           sample_eval_frame_state (RuntimeError "fuser") eq_refl eq_refl).
Defined.

Lemma decorated_code_passes_tensor_test_witness :
  has_tensor_in_frame tracing_ok decorated_environ scalar_frame sample_state
  = Some (Ret true, sample_state).
Proof.
  eapply (proj1 (decorated_code_passes_tensor_test sample_context 0 1
                   sample_eval_frame_state)); reflexivity.
Defined.

Lemma matched_positions_raise_iff_witness :
  matched_elements_positions nat (fun x y => Ret (Nat.eqb x y)) [7; 8] [8; 9]
    = Raise (OtherException "ValueError") /\
  matched_elements_positions nat (fun x y => Ret (Nat.eqb x y)) [] [8; 9]
    = Ret [].
Proof.
  destruct (matched_positions_raise_iff nat (fun x y => Ret (Nat.eqb x y))
              [7; 8] [8; 9]) as (_ & Hraise & _).
  destruct (matched_positions_raise_iff nat (fun x y => Ret (Nat.eqb x y))
              [] [8; 9]) as (_ & _ & Hempty).
  split; [| by apply Hempty].
  apply Hraise; [intros x y _ _; by eexists |].
  split; [done |]. split; [done |].
  exists 9. split; [apply elem_of_cons; right; apply elem_of_cons; by left |].
  intros y [-> | [-> | Hy%elem_of_nil]%elem_of_cons]%elem_of_cons; done.
Defined.

Lemma config_names_are_fixed_witness :
  dom (config_assign_all nat {[ "verbose" ]}
         [("verbose", 1); ("verbos", 1)]
         ({[ "verbose" := 0 ]} : gmap string nat))
  = dom ({[ "verbose" := 0 ]} : gmap string nat).
Proof.
  apply (config_names_are_fixed nat {[ "verbose" ]} {[ "verbose" := 0 ]}).
  rewrite dom_singleton_L. done.
Defined.

Lemma WrapperBackend_outcomes_witness :
  [(ERROR, MsgVerifyCorrectness)] = [] \/
  ([(ERROR, MsgVerifyCorrectness)] = [(ERROR, MsgVerifyCorrectness)] /\
   verify_correctness (cfg (sample_environ verifying_config None)) = true /\
   exists e, Raise (RuntimeError "incorrect results of backend")
             = Raise e :> res nat).
Proof.
  eapply (WrapperBackend_outcomes
            (sample_collaborators false sample_tracer_ok (Some 50) false)
            (sample_environ verifying_config None) 0 10 [5] sample_torch).
  vm_compute. reflexivity.
Defined.

Lemma excluded_frames_return_None_witness :
  exists s',
    convert_frame_assert generators recompiling_environ 0 None true false 102
      genexpr_frame 64 sample_state = Some (Ret None, s') /\
    output_codes s' = output_codes sample_state /\
    log s' = log sample_state.
Proof.
  apply excluded_frames_return_None.
  right. right. right. split; [reflexivity |].
  exists "site-packages/". left. reflexivity.
Defined.
